(** * TeDasuke: the query, pagination, error and cache core, embedded in Rocq

    A shallow embedding of the TypeScript sources

      - [src/types.ts]   (options, results, configuration)
      - [src/errors.ts]  (the [TeamDeskError] class hierarchy)
      - [src/utils.ts]   (query strings, limits, error-body parsing)
      - [src/client.ts]  (configuration, URL assembly, request, error mapping)
      - [src/table.ts]   (write mappers, [SelectBuilder], the [selectAll] generator,
                          [ViewClient], [ViewSelectBuilder])
      - [src/cache.ts]   (disk snapshots and [fetchWithCache])

    followed by the properties the specification states about them.

    How the program is read.

      - Text is a [string] holding the UTF-8 bytes of a well-formed
        JavaScript string, so [encodeURIComponent] escapes byte by byte.
      - A [number] is [NaN], an infinity or a rational (every finite double
        is one) and arithmetic on finite values is exact.  Comparisons and
        truthiness treat [NaN] as JavaScript does, and [parseInt] rounds
        to the nearest double.
      - A value of type [unknown], a parsed body or a snapshot, is a [json].
      - What the host provides ([Number::toString], [JSON], [fetch], the
        [Deno] file calls, the clock) is a parameter: a class or a section
        variable.  The properties hold for every host.
      - An [async] function is a state-passing function in the monad [M];
        a [throw] and a rejected promise are the [inl] outcome.
      - A [SelectBuilder] is mutated by its methods and shared by reference,
        so builders live in a heap and methods take the address of [this].
      - The generator returned by [selectAll] is the state it is suspended
        in, and [next] runs it to the next [yield], [break] or failure.

    [ViewClient] and [ViewSelectBuilder] repeat [SelectBuilder] with one more
    path segment and no filter or sort; they are the module [view].  Debug
    logging is left out.

    The properties the specification states come first; further properties
    of the same code, read off the sources, follow them. *)

From Stdlib Require Import ZArith QArith Qcanon String Ascii List.
From stdpp Require Import base numbers option list gmap strings pretty.

Local Open Scope Z_scope.
Set Warnings "-register-all".

(** ** JavaScript values *)

Inductive number :=
| NaN
| Infinity (negative : bool)
| Finite (q : Qc).

Definition num (z : Z) : number := Finite (Qc_of_Z z).

(** [a < b] on numbers; every comparison with [NaN] is false. *)
Definition num_lt (a b : number) : bool :=
  match a, b with
  | NaN, _ | _, NaN => false
  | Finite p, Finite q => bool_decide (p < q)%Qc
  | Finite _, Infinity neg => negb neg
  | Infinity neg, Finite _ => neg
  | Infinity n1, Infinity n2 => n1 && negb n2
  end.

(** [a === b] on numbers. *)
Definition num_eq (a b : number) : bool :=
  match a, b with
  | NaN, _ | _, NaN => false
  | Finite p, Finite q => bool_decide (p = q)
  | Infinity n1, Infinity n2 => bool_decide (n1 = n2)
  | _, _ => false
  end.

Definition num_gt (a b : number) : bool := num_lt b a.
Definition num_le (a b : number) : bool := num_lt a b || num_eq a b.
Definition num_ge (a b : number) : bool := num_le b a.

(** [a + b]. *)
Definition num_add (a b : number) : number :=
  match a, b with
  | NaN, _ | _, NaN => NaN
  | Finite p, Finite q => Finite (p + q)%Qc
  | Finite _, Infinity neg | Infinity neg, Finite _ => Infinity neg
  | Infinity n1, Infinity n2 => if bool_decide (n1 = n2) then Infinity n1 else NaN
  end.

(** ToBoolean on a number: [NaN] and zero are falsy. *)
Definition num_truthy (a : number) : bool :=
  match a with
  | NaN => false
  | Infinity _ => true
  | Finite q => negb (bool_decide (q = Qc_of_Z 0))
  end.

(** A value as [JSON.parse] or [response.json()] produces it (the [unknown]
    of the sources).  An object is the list of its own properties. *)
Inductive json :=
| JNull
| JBool (b : bool)
| JNum (n : number)
| JStr (s : string)
| JArr (items : list json)
| JObj (props : list (string * json)).

(** ToBoolean. *)
Definition truthy (v : json) : bool :=
  match v with
  | JNull => false
  | JBool b => b
  | JNum n => num_truthy n
  | JStr s => negb (String.eqb s "")
  | JArr _ | JObj _ => true
  end.

Definition str_truthy (s : string) : bool := negb (String.eqb s "").

(** [key in obj] and [obj.key] for an object value. *)
Fixpoint get_prop (key : string) (props : list (string * json)) : option json :=
  match props with
  | [] => None
  | (k, v) :: rest => if String.eqb k key then Some v else get_prop key rest
  end.

(** What the host provides and the library only calls. *)
Class Platform := {
  (** Number::toString, radix 10 *)
  Number_toString : number -> string;
  (** [JSON.stringify(v)] *)
  JSON_stringify : json -> string;
  (** [JSON.stringify(v, null, 2)] *)
  JSON_stringify_indented : json -> string;
  (** [JSON.parse]; [None] is a SyntaxError *)
  JSON_parse : string -> option json;
}.

(** [Array.prototype.join] *)
Definition join (sep : string) (parts : list string) : string :=
  String.concat sep parts.

Section ToString.
Context `{Platform}.

(** [String(v)].  Inside an array, [null] prints as the empty string
    ([Array.prototype.toString] is [join(",")]). *)
Fixpoint ToString (v : json) : string :=
  match v with
  | JNull => "null"
  | JBool true => "true"
  | JBool false => "false"
  | JNum n => Number_toString n
  | JStr s => s
  | JArr items =>
      join ","
        ((fix elems (l : list json) : list string :=
            match l with
            | [] => []
            | JNull :: rest => ""%string :: elems rest
            | x :: rest => ToString x :: elems rest
            end) items)
  | JObj _ => "[object Object]"
  end.
End ToString.

(** ** Percent-encoding *)

Definition in_range (lo hi : N) (c : ascii) : bool :=
((lo <=? N_of_ascii c) && (N_of_ascii c <=? hi))%N.

Fixpoint mem_ascii (c : ascii) (s : string) : bool :=
match s with
| EmptyString => false
| String d rest => Ascii.eqb c d || mem_ascii c rest
end.

(** The characters [encodeURIComponent] leaves alone:
  [A-Z a-z 0-9 - _ . ! ~ * ' ( )]. *)
Definition is_unreserved (c : ascii) : bool :=
in_range 65 90 c || in_range 97 122 c || in_range 48 57 c
|| mem_ascii c "-_.!~*'()".

Definition hex_digit (n : N) : ascii :=
if (n <? 10)%N then ascii_of_N (48 + n) else ascii_of_N (55 + n).

Definition percent_byte (c : ascii) : string :=
String "%" (String (hex_digit (N_of_ascii c / 16))
              (String (hex_digit (N_of_ascii c mod 16)) EmptyString)).

(** [encodeURIComponent]: every byte of the UTF-8 form that is not
  unreserved becomes [%XX]. *)
Fixpoint encodeURIComponent (s : string) : string :=
match s with
| EmptyString => EmptyString
| String c rest =>
    if is_unreserved c then String c (encodeURIComponent rest)
    else percent_byte c +:+ encodeURIComponent rest
end.

Definition hex_value (c : ascii) : option N :=
if in_range 48 57 c then Some (N_of_ascii c - 48)%N
else if in_range 65 70 c then Some (N_of_ascii c - 55)%N
else if in_range 97 102 c then Some (N_of_ascii c - 87)%N
else None.

(** [decodeURIComponent]; [None] is a URIError (a [%] that does not start
  an escape). *)
Fixpoint decodeURIComponent (s : string) : option string :=
match s with
| EmptyString => Some EmptyString
| String c rest =>
    if Ascii.eqb c "%" then
      match rest with
      | String h (String l rest') =>
          match hex_value h, hex_value l with
          | Some a, Some b =>
              String (ascii_of_N (16 * a + b)) <$> decodeURIComponent rest'
          | _, _ => None
          end
      | _ => None
      end
    else String c <$> decodeURIComponent rest
end.

(** ** The sources, file by file *)

(** [src/types.ts] *)
Module types.

Record ApiError := {
  column : option string;
  message : string;
}.

Inductive SortDirection := ASC | DESC.

(** [SelectOptions]: every field optional. *)
Record SelectOptions := {
  columns : option (list string);
  filter : option string;
  sortColumn : option string;
  sortDirection : option SortDirection;
  skip : option number;
  top : option number;
}.

Record WriteOptions := {
  workflow : option bool;
}.

(** [CreateResult]; [UpdateResult] has the same fields.  [data] is an
    object, kept as its list of properties. *)
Record CreateResult := {
  success : bool;
  status : number;
  data : list (string * json);
  id : option number;
  key : option string;
  errors : list ApiError;
}.

Definition UpdateResult := CreateResult.

Inductive Action := created | updated.

(** [UpsertResult]: the fields of [CreateResult] and [action]. *)
Record UpsertResult := {
  result : CreateResult;
  action : Action;
}.

Inductive AppId :=
| AppIdString (s : string)
| AppIdNumber (n : number).

(** [cacheDir?: string | null | false] *)
Inductive CacheDirSetting :=
| CacheDirUnset
| CacheDirNull
| CacheDirFalse
| CacheDirPath (path : string).

(** [TeamDeskConfig], with the fields the constructor reads. *)
Record TeamDeskConfig := {
  appId : AppId;
  token : option string;
  user : option string;
  password : option string;
  baseUrl : option string;
  debug : option bool;
  useBearerAuth : option bool;
  cacheDir : CacheDirSetting;
}.

End types.

(** [src/errors.ts]: the class of an error value is a tag, the fields are
  those the constructors assign. *)
Module errors.

Inductive ErrorClass :=
| TeamDeskError
| AuthenticationError
| ValidationError
| NotFoundError
| RateLimitError
| ServerError.

Record error := {
  name : ErrorClass;
  message : string;
  status : option Z;
  details : option (list types.ApiError);
  url : option string;
  retryAfter : option number;
}.

(** [new TeamDeskError(message, {status, details, url})] *)
Definition new_TeamDeskError (message : string) (status : option Z)
    (details : option (list types.ApiError)) (url : option string) : error :=
  {| name := TeamDeskError; message := message; status := status;
     details := details; url := url; retryAfter := None |}.

(** [new AuthenticationError(message, {status, url})] *)
Definition new_AuthenticationError (message : string) (status : option Z)
    (url : option string) : error :=
  {| name := AuthenticationError; message := message; status := status;
     details := None; url := url; retryAfter := None |}.

(** [new ValidationError(message, {status, details, url})] *)
Definition new_ValidationError (message : string) (status : option Z)
    (details : option (list types.ApiError)) (url : option string) : error :=
  {| name := ValidationError; message := message; status := status;
     details := details; url := url; retryAfter := None |}.

(** [new NotFoundError(message, {url})]: the status is always 404. *)
Definition new_NotFoundError (message : string) (url : option string) : error :=
  {| name := NotFoundError; message := message; status := Some 404;
     details := None; url := url; retryAfter := None |}.

(** [new RateLimitError(message, {retryAfter, url})]: the status is always 429. *)
Definition new_RateLimitError (message : string) (retryAfter : option number)
    (url : option string) : error :=
  {| name := RateLimitError; message := message; status := Some 429;
     details := None; url := url; retryAfter := retryAfter |}.

(** [new ServerError(message, {status, url})] *)
Definition new_ServerError (message : string) (status : option Z)
    (url : option string) : error :=
  {| name := ServerError; message := message; status := status;
     details := None; url := url; retryAfter := None |}.

End errors.

(** ** Exceptions and effects *)

(** What a [throw] or a rejected promise carries. *)
Inductive exn :=
| JsError (name message : string)   (** [Error] and the built-in classes *)
| Typed (e : errors.error)          (** [instanceof TeamDeskError] *)
| Thrown (v : json).                (** a thrown value that is no [Error] *)

(** [new Error(message)] *)
Definition new_Error (message : string) : exn := JsError "Error" message.

(** [e instanceof TeamDeskError] *)
Definition instanceof_TeamDeskError (e : exn) : bool :=
match e with Typed _ => true | _ => false end.

(** A computation over a state [S] that returns or throws. *)
Definition M (S A : Type) : Type := S -> (exn + A) * S.

Definition ret {S A} (a : A) : M S A := fun s => (inr a, s).
Definition throw {S A} (e : exn) : M S A := fun s => (inl e, s).
Definition bind {S A B} (m : M S A) (k : A -> M S B) : M S B :=
fun s => match m s with
         | (inr a, s') => k a s'
         | (inl e, s') => (inl e, s')
         end.
(** [try { m } catch (e) { handler(e) }] *)
Definition try_catch {S A} (m : M S A) (handler : exn -> M S A) : M S A :=
fun s => match m s with
         | (inr a, s') => (inr a, s')
         | (inl e, s') => handler e s'
         end.
Definition modify {S} (f : S -> S) : M S unit := fun s => (inr tt, f s).

Declare Scope M_scope.
Delimit Scope M_scope with M.
Notation "'let*' x := m 'in' k" := (bind m (fun x => k))
  (at level 10, x pattern, m at level 100, k at level 200) : M_scope.
Notation "m ;;; k" := (bind m (fun _ => k))
  (at level 100, k at level 200, right associativity) : M_scope.

(** [src/utils.ts] *)
Module utils.
Section utils.
Context `{Platform}.

Definition encodeTableName (name : string) : string := encodeURIComponent name.

Definition encodeViewName (name : string) : string := encodeURIComponent name.

(** The values [buildQueryString] accepts:
    [string | number | boolean | string[] | undefined]. *)
Inductive param :=
| PUndefined
| PString (s : string)
| PNumber (n : number)
| PBoolean (b : bool)
| PArray (items : list string).

(** [String(value)] for the scalar cases. *)
Definition param_String (v : param) : string :=
  match v with
  | PString s => s
  | PNumber n => Number_toString n
  | PBoolean true => "true"
  | PBoolean false => "false"
  | PUndefined => "undefined"
  | PArray items => join "," items
  end.

Definition pair_text (key value : string) : string :=
  encodeURIComponent key +:+ "=" +:+ encodeURIComponent value.

(** One turn of the [for ... of Object.entries(params)] loop. *)
Definition push_entry (parts : list string) (entry : string * param) : list string :=
  let '(key, value) := entry in
  match value with
  | PUndefined => parts
  | PArray items =>
      fold_left (fun parts item => parts ++ [pair_text key item]) items parts
  | _ => parts ++ [pair_text key (param_String value)]
  end.

(** [params] lists the entries of the object in insertion order. *)
Definition buildQueryString (params : list (string * param)) : string :=
  let parts := fold_left push_entry params [] in
  if (0 <? length parts)%nat then "?" +:+ join "&" parts else "".

Definition direction_text (d : types.SortDirection) : string :=
  match d with types.ASC => "ASC" | types.DESC => "DESC" end.

Definition formatSort (column : string) (direction : types.SortDirection) : string :=
  column +:+ "//" +:+ direction_text direction.

Definition validatePaginationLimit (limit : number) : exn + number :=
  if num_lt limit (num 1) then
    inl (new_Error "Limit must be at least 1")
  else if num_gt limit (num 500) then
    inl (new_Error "TeamDesk maximum limit is 500 records per request")
  else inr limit.

(** One element of [body.errors]. *)
Definition parse_item (err : json) : types.ApiError :=
  match err with
  | JObj props =>
      {| types.column := ToString <$> get_prop "column" props;
         types.message :=
           match get_prop "message" props with
           | Some m => ToString m
           | None => "Unknown error"
           end |}
  | JArr _ =>
      {| types.column := None; types.message := "Unknown error" |}
  | _ => {| types.column := None; types.message := ToString err |}
  end.

Definition item_text (e : types.ApiError) : string :=
  match types.column e with
  | Some c => if str_truthy c then c +:+ ": " +:+ types.message e
              else types.message e
  | None => types.message e
  end.

Definition parseErrorResponse (body : json) : string * list types.ApiError :=
  match body with
  | JStr s => (s, [ {| types.column := None; types.message := s |} ])
  | JObj props =>
      match get_prop "errors" props with
      | Some (JArr items) =>
          let errors := map parse_item items in
          (join "; " (map item_text errors), errors)
      | _ =>
          match get_prop "message" props with
          | Some m =>
              let message := ToString m in
              (message, [ {| types.column := None; types.message := message |} ])
          | None =>
              ("Unknown error",
               [ {| types.column := None; types.message := "Unknown error" |} ])
          end
      end
  | _ => ("Unknown error",
          [ {| types.column := None; types.message := "Unknown error" |} ])
  end.

End utils.
End utils.

(** ** Host functions used by the client *)

Definition byte_is (n : N) (c : ascii) : bool := (N_of_ascii c =? n)%N.

(** The white space and line terminators [parseInt] skips, by their UTF-8
    bytes: U+0009 to U+000D and U+0020; *)
Definition is_space (c : ascii) : bool :=
in_range 9 13 c || Ascii.eqb c " ".

(** U+00A0; *)
Definition is_space2 (c1 c2 : ascii) : bool :=
byte_is 194 c1 && byte_is 160 c2.

(** U+1680, U+2000 to U+200A, U+2028, U+2029, U+202F, U+205F, U+3000 and
    U+FEFF. *)
Definition is_space3 (c1 c2 c3 : ascii) : bool :=
(byte_is 225 c1 && byte_is 154 c2 && byte_is 128 c3)
|| (byte_is 226 c1 && byte_is 128 c2
    && (in_range 128 138 c3 || byte_is 168 c3 || byte_is 169 c3 || byte_is 175 c3))
|| (byte_is 226 c1 && byte_is 129 c2 && byte_is 159 c3)
|| (byte_is 227 c1 && byte_is 128 c2 && byte_is 128 c3)
|| (byte_is 239 c1 && byte_is 187 c2 && byte_is 191 c3).

Definition is_digit (c : ascii) : bool := in_range 48 57 c.

Fixpoint skip_spaces (s : string) : string :=
match s with
| EmptyString => EmptyString
| String c1 rest1 =>
    if is_space c1 then skip_spaces rest1
    else
      match rest1 with
      | EmptyString => s
      | String c2 rest2 =>
          if is_space2 c1 c2 then skip_spaces rest2
          else
            match rest2 with
            | EmptyString => s
            | String c3 rest3 =>
                if is_space3 c1 c2 c3 then skip_spaces rest3 else s
            end
      end
end.

(** The value of the longest prefix of decimal digits, [None] when there
    is no digit. *)
Fixpoint digits_value (acc : option Z) (s : string) : option Z :=
match s with
| String c rest =>
    if is_digit c
    then digits_value (Some (10 * default 0 acc + (Z.of_N (N_of_ascii c) - 48))) rest
    else acc
| EmptyString => acc
end.

(** The Number value for an integer: the integer itself up to 2^53 in
    magnitude, beyond that the nearest multiple of the spacing of the
    doubles around it (2^(e-52) between 2^e and 2^(e+1)), a tie going to
    the even multiple, and an infinity once that reaches 2^1024. *)
Definition round_to_double (v : Z) : number :=
if (- 2 ^ 53 <=? v) && (v <=? 2 ^ 53) then num v
else
  let a := Z.abs v in
  let ulp := 2 ^ (Z.log2 a - 52) in
  let q := a / ulp in
  let r := a mod ulp in
  let nearest :=
    if 2 * r <? ulp then q
    else if ulp <? 2 * r then q + 1
    else if Z.even q then q else q + 1 in
  if 2 ^ 1024 <=? nearest * ulp then Infinity (v <? 0)
  else num (Z.sgn v * (nearest * ulp)).

(** [parseInt(s, 10)]: leading white space, an optional sign, then digits;
    [NaN] when no digit follows.  The result is the Number value for the
    integer the digits denote. *)
Definition parseInt10 (s : string) : number :=
let s := skip_spaces s in
let '(negative, s) :=
  match s with
  | String "-" rest => (true, rest)
  | String "+" rest => (false, rest)
  | _ => (false, s)
  end in
match digits_value None s with
| Some v => round_to_double (if negative : bool then - v else v)
| None => NaN
end.

Definition starts_with_slash (s : string) : bool :=
match s with
| String "/" _ => true
| _ => false
end.

(** [s.slice(1)] *)
Definition slice1 (s : string) : string :=
match s with
| String _ rest => rest
| EmptyString => EmptyString
end.

(** [s.replace(/\/$/, "")]: drop one slash at the very end. *)
Fixpoint strip_trailing_slash (s : string) : string :=
match s with
| EmptyString => EmptyString
| String c EmptyString => if Ascii.eqb c "/" then EmptyString else s
| String c rest => String c (strip_trailing_slash rest)
end.

(** ToBoolean of [string | undefined]. *)
Definition opt_truthy (o : option string) : bool :=
match o with
| Some s => str_truthy s
| None => false
end.

(** A template-literal hole holding [string | undefined]. *)
Definition opt_text (o : option string) : string :=
match o with
| Some s => s
| None => "undefined"
end.

(** [obj[key] = value] on an object kept as its list of properties. *)
Fixpoint set_prop (key value : string) (props : list (string * string)) : list (string * string) :=
match props with
| [] => [(key, value)]
| (k, v) :: rest =>
    if String.eqb k key then (k, value) :: rest
    else (k, v) :: set_prop key value rest
end.

(** [{...base, ...extra}] *)
Definition spread (base extra : list (string * string)) : list (string * string) :=
fold_left (fun acc '(k, v) => set_prop k v acc) extra base.

(** [src/client.ts] *)
Module client.

(** [this.config] of a constructed client. *)
Record TeamDeskClient := {
  appId : string;
  baseUrl : string;
  debug : bool;
  useBearerAuth : bool;
  token : option string;
  user : option string;
  password : option string;
  cacheDir : option string;
}.

Record RequestInit := {
  method : option string;
  body : option string;
  headers : option (list (string * string));
}.

(** A [Response] as the client reads it: the outcome of [json()], and the
    outcome of [text()] once [json()] has failed. *)
Record Response := {
  status : Z;
  statusText : string;
  headers_get : string -> option string;
  json_ : exn + json;
  text_ : exn + string;
}.

(** [response.ok] *)
Definition ok (response : Response) : bool :=
(200 <=? status response) && (status response <=? 299).

Section client.
Context `{Platform}.

Definition appId_truthy (a : types.AppId) : bool :=
match a with
| types.AppIdString s => str_truthy s
| types.AppIdNumber n => num_truthy n
end.

Definition appId_String (a : types.AppId) : string :=
match a with
| types.AppIdString s => s
| types.AppIdNumber n => Number_toString n
end.

(** The constructor; [inl] is the error it throws. *)
Definition new_TeamDeskClient (config : types.TeamDeskConfig) : exn + TeamDeskClient :=
if negb (appId_truthy (types.appId config)) then
  inl (new_Error "appId is required")
else if negb (opt_truthy (types.token config))
        && negb (opt_truthy (types.user config) && opt_truthy (types.password config)) then
  inl (new_Error "Either token or both user and password must be provided")
else if default false (types.useBearerAuth config) && negb (opt_truthy (types.token config)) then
  inl (new_Error "useBearerAuth requires token to be provided (user/password not supported with Bearer auth)")
else
  let cacheDir :=
    match types.cacheDir config with
    | types.CacheDirNull | types.CacheDirFalse => None
    | types.CacheDirUnset => Some "./_tdcache"%string
    | types.CacheDirPath p => Some p
    end in
  inr {| appId := appId_String (types.appId config);
         baseUrl :=
           strip_trailing_slash
             (if opt_truthy (types.baseUrl config)
              then opt_text (types.baseUrl config)
              else "https://www.teamdesk.net/secure/api/v2");
         debug := default false (types.debug config);
         useBearerAuth := default false (types.useBearerAuth config);
         token := types.token config;
         user := types.user config;
         password := types.password config;
         cacheDir := cacheDir |}.

Definition getCacheDir (this : TeamDeskClient) : option string := cacheDir this.

Definition buildUrl (this : TeamDeskClient) (path : string) : string :=
let cleanPath := if starts_with_slash path then slice1 path else path in
if useBearerAuth this then
  baseUrl this +:+ "/" +:+ appId this +:+ "/" +:+ cleanPath
else
  let authSegment :=
    if opt_truthy (token this) then opt_text (token this)
    else opt_text (user this) +:+ ":" +:+ opt_text (password this) in
  baseUrl this +:+ "/" +:+ appId this +:+ "/" +:+ authSegment +:+ "/" +:+ cleanPath.

(** The headers [request] sends. *)
Definition request_headers (this : TeamDeskClient) (options : RequestInit)
  : list (string * string) :=
let headers :=
  spread [("Accept", "application/json"); ("Content-Type", "application/json")]%string
         (default [] (headers options)) in
if useBearerAuth this && opt_truthy (token this) then
  set_prop "Authorization" ("Bearer " +:+ opt_text (token this)) headers
else headers.

(** The nested [try]/[catch] at the head of [handleErrorResponse]. *)
Definition read_body (response : Response) : json :=
match json_ response with
| inr v => v
| inl _ =>
    match text_ response with
    | inr t => JStr t
    | inl _ =>
        JStr ("HTTP " +:+ pretty (status response) +:+ " " +:+ statusText response)
    end
end.

(** [handleErrorResponse]; it always throws, the result is what it throws. *)
Definition handleErrorResponse (response : Response) (url : string) : errors.error :=
let body := read_body response in
let '(message, errors) := utils.parseErrorResponse body in
if (status response =? 401) || (status response =? 403) then
  errors.new_AuthenticationError ("Authentication failed: " +:+ message)
    (Some (status response)) (Some url)
else if status response =? 404 then
  errors.new_NotFoundError ("Resource not found: " +:+ message) (Some url)
else if status response =? 429 then
  let retryAfter := headers_get response "Retry-After" in
  errors.new_RateLimitError ("Rate limit exceeded: " +:+ message)
    (if opt_truthy retryAfter then Some (parseInt10 (opt_text retryAfter)) else None)
    (Some url)
else if (status response =? 400) || (status response =? 422) then
  errors.new_ValidationError ("Validation failed: " +:+ message)
    (Some (status response)) (Some errors) (Some url)
else if 500 <=? status response then
  errors.new_ServerError ("Server error: " +:+ message)
    (Some (status response)) (Some url)
else
  errors.new_TeamDeskError ("Request failed: " +:+ message)
    (Some (status response)) (Some errors) (Some url).

(** The [catch] block of [request]. *)
Definition wrap_error (url : string) (error : exn) : exn :=
match error with
| Typed e => Typed e
| JsError _ message => Typed (errors.new_TeamDeskError message None None (Some url))
| Thrown _ => Typed (errors.new_TeamDeskError "Unknown error" None None (Some url))
end.

Variable Net : Type.
(** [fetch(url, init)] *)
Variable fetch : string -> RequestInit -> M Net Response.

(** [request]; debug logging is left out. *)
Definition request (this : TeamDeskClient) (url : string) (options : RequestInit)
  : M Net json :=
let headers := request_headers this options in
try_catch
  (let* response :=
     fetch url {| method := method options; body := body options;
                  headers := Some headers |} in
   (if negb (ok response) then throw (Typed (handleErrorResponse response url))
    else ret tt) ;;;
   match json_ response with
   | inr data => ret data
   | inl e => throw e
   end)%M
  (fun error => throw (wrap_error url error)).

Definition describe (this : TeamDeskClient) : M Net json :=
let url := buildUrl this "/describe.json" in
request this url {| method := None; body := None; headers := None |}.

End client.
End client.

(** [src/table.ts] *)
Module table.

(** One entry of a write response: [{status: number; id?: number; key?: string}]. *)
Record RawResult := {
  status : number;
  id : option number;
  key : option string;
}.

Module TableClient.
Record t := {
  client : client.TeamDeskClient;
  tableName : string;
}.
End TableClient.

(** A [SelectBuilder] object.  Its methods assign to [this.options] and
    return [this], so builders live in a heap and are named by address. *)
Module SelectBuilder.
Record t := {
  client : client.TeamDeskClient;
  tableName : string;
  options : types.SelectOptions;
}.
End SelectBuilder.

Definition empty_options : types.SelectOptions :=
{| types.columns := None; types.filter := None; types.sortColumn := None;
   types.sortDirection := None; types.skip := None; types.top := None |}.

Definition with_columns (o : types.SelectOptions) (v : list string) : types.SelectOptions :=
{| types.columns := Some v; types.filter := types.filter o;
   types.sortColumn := types.sortColumn o; types.sortDirection := types.sortDirection o;
   types.skip := types.skip o; types.top := types.top o |}.

Definition with_filter (o : types.SelectOptions) (v : string) : types.SelectOptions :=
{| types.columns := types.columns o; types.filter := Some v;
   types.sortColumn := types.sortColumn o; types.sortDirection := types.sortDirection o;
   types.skip := types.skip o; types.top := types.top o |}.

Definition with_sort (o : types.SelectOptions) (c : string) (d : types.SortDirection)
  : types.SelectOptions :=
{| types.columns := types.columns o; types.filter := types.filter o;
   types.sortColumn := Some c; types.sortDirection := Some d;
   types.skip := types.skip o; types.top := types.top o |}.

Definition with_skip (o : types.SelectOptions) (v : number) : types.SelectOptions :=
{| types.columns := types.columns o; types.filter := types.filter o;
   types.sortColumn := types.sortColumn o; types.sortDirection := types.sortDirection o;
   types.skip := Some v; types.top := types.top o |}.

Definition with_top (o : types.SelectOptions) (v : number) : types.SelectOptions :=
{| types.columns := types.columns o; types.filter := types.filter o;
   types.sortColumn := types.sortColumn o; types.sortDirection := types.sortDirection o;
   types.skip := types.skip o; types.top := Some v |}.

Definition with_options (b : SelectBuilder.t) (o : types.SelectOptions) : SelectBuilder.t :=
{| SelectBuilder.client := SelectBuilder.client b;
   SelectBuilder.tableName := SelectBuilder.tableName b;
   SelectBuilder.options := o |}.

(** [{ ...o, skip: offset, top: batchSize }] *)
Definition spread_paging (o : types.SelectOptions) (offset batchSize : number)
  : types.SelectOptions :=
with_top (with_skip o offset) batchSize.

(** [columns && columns.length > 0] *)
Definition has_columns (columns : option (list string)) : bool :=
match columns with
| Some (_ :: _) => true
| _ => false
end.

(** The state of a suspended [selectAll] generator: not started, suspended
    at the [yield] with the locals [offset] and [batch.length], or finished. *)
Inductive cursor :=
| AtStart
| Suspended (offset : number) (batch_length : nat)
| Finished.

Record generator := {
  this : positive;
  position : cursor;
}.

(** What one [next()] on the generator settles to. *)
Inductive step :=
| Yield (batch : list json)
| Return
| Throw (e : exn).

Section table.
Context `{Platform}.

(** The state of the network, and [client.request] at the two types the
    table code calls it. *)
Variable Net : Type.
Variable request_rows : string -> M Net (list json).
Variable request_results : string -> client.RequestInit -> M Net (list RawResult).

(** Builders by address, the network, and the URLs requested so far. *)
Record state := {
  heap : gmap positive SelectBuilder.t;
  net : Net;
  log : list string;
}.

Definition with_heap (s : state) (h : gmap positive SelectBuilder.t) : state :=
{| heap := h; net := net s; log := log s |}.

(** [new]: a fresh address. *)
Definition alloc (b : SelectBuilder.t) : M state positive :=
fun s =>
  let l := fresh (dom (heap s)) in
  (inr l, with_heap s (<[l := b]> (heap s))).

Definition deref (l : positive) : M state SelectBuilder.t :=
fun s =>
  match heap s !! l with
  | Some b => (inr b, s)
  | None => (inl (JsError "ReferenceError" "no object at this address"), s)
  end.

(** [l.options = o] *)
Definition assign_options (l : positive) (o : types.SelectOptions) : M state unit :=
(let* b := deref l in
 modify (fun s => with_heap s (<[l := with_options b o]> (heap s))))%M.

(** [this.client.request<T[]>(url)], recorded in the log. *)
Definition send_rows (url : string) : M state (list json) :=
fun s =>
  let '(r, n) := request_rows url (net s) in
  (r, {| heap := heap s; net := n; log := log s ++ [url] |}).

Definition send_results (url : string) (init : client.RequestInit)
  : M state (list RawResult) :=
fun s =>
  let '(r, n) := request_results url init (net s) in
  (r, {| heap := heap s; net := n; log := log s ++ [url] |}).

(** [options?.workflow !== false ? 1 : 0] *)
Definition workflow_flag (options : option types.WriteOptions) : number :=
match options with
| Some {| types.workflow := Some false |} => num 0
| _ => num 1
end.

Definition post (records : list json) : client.RequestInit :=
{| client.method := Some "POST"%string;
   client.body := Some (JSON_stringify (JArr records));
   client.headers := None |}.

(** [result.status >= 200 && result.status < 300] *)
Definition is_success (status : number) : bool :=
num_ge status (num 200) && num_lt status (num 300).

(** The callback of [rawResults.map] in [create] and in [update]. *)
Definition to_result (result : RawResult) : types.CreateResult :=
{| types.success := is_success (status result);
   types.status := status result;
   types.data := [];
   types.id := id result;
   types.key := key result;
   types.errors := [] |}.

(** The callback of [rawResults.map] in [upsert]. *)
Definition to_upsert_result (result : RawResult) : types.UpsertResult :=
{| types.result :=
     {| types.success := is_success (status result);
        types.status := status result;
        types.data := [];
        types.id := id result;
        types.key := key result;
        types.errors := [] |};
   types.action :=
     if num_eq (status result) (num 201) then types.created else types.updated |}.

Definition create (this : TableClient.t) (records : list json)
    (options : option types.WriteOptions) : M state (list types.CreateResult) :=
let encodedTable := utils.encodeTableName (TableClient.tableName this) in
let queryParams :=
  utils.buildQueryString [("workflow"%string, utils.PNumber (workflow_flag options))] in
let url :=
  client.buildUrl (TableClient.client this)
    (encodedTable +:+ "/create.json" +:+ queryParams) in
(let* rawResults := send_results url (post records) in
 ret (map to_result rawResults))%M.

Definition update (this : TableClient.t) (records : list json)
    (options : option types.WriteOptions) : M state (list types.UpdateResult) :=
let encodedTable := utils.encodeTableName (TableClient.tableName this) in
let queryParams :=
  utils.buildQueryString [("workflow"%string, utils.PNumber (workflow_flag options))] in
let url :=
  client.buildUrl (TableClient.client this)
    (encodedTable +:+ "/update.json" +:+ queryParams) in
(let* rawResults := send_results url (post records) in
 ret (map to_result rawResults))%M.

Definition upsert (this : TableClient.t) (records : list json)
    (matchColumn : option string) (options : option types.WriteOptions)
  : M state (list types.UpsertResult) :=
let encodedTable := utils.encodeTableName (TableClient.tableName this) in
let queryParams :=
  utils.buildQueryString
    ((if opt_truthy matchColumn
      then [("match"%string, utils.PString (opt_text matchColumn))] else [])
     ++ [("workflow"%string, utils.PNumber (workflow_flag options))]) in
let url :=
  client.buildUrl (TableClient.client this)
    (encodedTable +:+ "/upsert.json" +:+ queryParams) in
(let* rawResults := send_results url (post records) in
 ret (map to_upsert_result rawResults))%M.

(** The constructor of [SelectBuilder]. *)
Definition new_SelectBuilder (client : client.TeamDeskClient) (tableName : string)
    (columns : option (list string)) : M state positive :=
alloc {| SelectBuilder.client := client;
         SelectBuilder.tableName := tableName;
         SelectBuilder.options :=
           if has_columns columns
           then with_columns empty_options (default [] columns)
           else empty_options |}.

Definition select (this : TableClient.t) (columns : option (list string))
  : M state positive :=
new_SelectBuilder (TableClient.client this) (TableClient.tableName this) columns.

Definition filter (this : positive) (filterExpression : string) : M state positive :=
(let* b := deref this in
 assign_options this (with_filter (SelectBuilder.options b) filterExpression) ;;;
 ret this)%M.

Definition sort (this : positive) (column : string) (direction : types.SortDirection)
  : M state positive :=
(let* b := deref this in
 assign_options this (with_sort (SelectBuilder.options b) column direction) ;;;
 ret this)%M.

Definition limit (this : positive) (limit : number) : M state positive :=
match utils.validatePaginationLimit limit with
| inl e => throw e
| inr top =>
    (let* b := deref this in
     assign_options this (with_top (SelectBuilder.options b) top) ;;;
     ret this)%M
end.

Definition skip (this : positive) (skip : number) : M state positive :=
if num_lt skip (num 0) then throw (new_Error "Skip must be non-negative")
else
  (let* b := deref this in
   assign_options this (with_skip (SelectBuilder.options b) skip) ;;;
   ret this)%M.

(** [buildQueryParams], as a function of [this.options]. *)
Definition buildQueryParams (options : types.SelectOptions) : string :=
let params := [] in
let params :=
  if has_columns (types.columns options)
  then params ++ [("column"%string, utils.PArray (default [] (types.columns options)))]
  else params in
let params :=
  if opt_truthy (types.filter options)
  then params ++ [("filter"%string, utils.PString (opt_text (types.filter options)))]
  else params in
let params :=
  if opt_truthy (types.sortColumn options)
  then params ++ [("sort"%string,
                   utils.PString
                     (utils.formatSort (opt_text (types.sortColumn options))
                        (default types.ASC (types.sortDirection options))))]
  else params in
let params :=
  match types.top options with
  | Some top => params ++ [("top"%string, utils.PNumber top)]
  | None => params
  end in
let params :=
  match types.skip options with
  | Some skip => params ++ [("skip"%string, utils.PNumber skip)]
  | None => params
  end in
utils.buildQueryString params.

(** The URL [execute] requests for a builder. *)
Definition select_url (b : SelectBuilder.t) : string :=
let encodedTable := utils.encodeTableName (SelectBuilder.tableName b) in
let queryParams := buildQueryParams (SelectBuilder.options b) in
client.buildUrl (SelectBuilder.client b)
  (encodedTable +:+ "/select.json" +:+ queryParams).

Definition execute (this : positive) : M state (list json) :=
(let* b := deref this in
 send_rows (select_url b))%M.

Definition batchSize : nat := 500.

(** [this.options.skip || 0] *)
Definition skip_or_zero (o : types.SelectOptions) : number :=
match types.skip o with
| Some n => if num_truthy n then n else num 0
| None => num 0
end.

(** One turn of the [while (true)] loop of [selectAll], up to its [break]
    or its [yield]. *)
Definition turn (this : positive) (offset : number) (s : state)
  : step * cursor * state :=
match
  (let* me := deref this in
   let* builder :=
     new_SelectBuilder (SelectBuilder.client me) (SelectBuilder.tableName me)
       (types.columns (SelectBuilder.options me)) in
   assign_options builder
     (spread_paging (SelectBuilder.options me) offset (num (Z.of_nat batchSize))) ;;;
   execute builder)%M s
with
| (inl e, s') => (Throw e, Finished, s')
| (inr batch, s') =>
    if (length batch =? 0)%nat then (Return, Finished, s')
    else (Yield batch, Suspended offset (length batch), s')
end.

(** [selectAll()]: calling it only creates the generator. *)
Definition selectAll (this : positive) : generator :=
{| this := this; position := AtStart |}.

(** [next()]: run the body from where it is suspended to the next [yield],
    [break] or failure. *)
Definition next (g : generator) (s : state) : step * generator * state :=
match position g with
| Finished => (Return, g, s)
| AtStart =>
    match deref (this g) s with
    | (inl e, s') => (Throw e, {| this := this g; position := Finished |}, s')
    | (inr me, s') =>
        let offset := skip_or_zero (SelectBuilder.options me) in
        let '(r, c, s'') := turn (this g) offset s' in
        (r, {| this := this g; position := c |}, s'')
    end
| Suspended offset batch_length =>
    if (batch_length <? batchSize)%nat then
      (Return, {| this := this g; position := Finished |}, s)
    else
      let offset := num_add offset (num (Z.of_nat batchSize)) in
      let '(r, c, s') := turn (this g) offset s in
      (r, {| this := this g; position := c |}, s')
end.

(** [for await (const batch of g) pages.push(batch)], for at most [fuel]
    calls of [next()]: the batches received, how the loop ended ([None]
    when the fuel ran out first), and the generator and state reached. *)
Fixpoint drain (fuel : nat) (g : generator) (s : state)
  : list (list json) * option step * generator * state :=
match fuel with
| O => ([], None, g, s)
| S fuel' =>
    match next g s with
    | (Yield batch, g', s') =>
        let '(pages, r, g'', s'') := drain fuel' g' s' in
        (batch :: pages, r, g'', s'')
    | (r, g', s') => ([], Some r, g', s')
    end
end.

End table.
End table.

(** [src/cache.ts] *)
Module cache.

(** [Deno.FileInfo], with the one field read: [mtime], a [Date] (in
    milliseconds since the epoch) or [null]. *)
Record FileInfo := {
  mtime : option Z;
}.

(** The host calls of the cache, over a state [W] of the outside world. *)
Class Deno (W : Type) := {
  (** [Deno.mkdir(path, { recursive: true })] *)
  mkdir : string -> M W unit;
  writeTextFile : string -> string -> M W unit;
  readTextFile : string -> M W string;
  stat : string -> M W FileInfo;
  (** [Deno.remove(path, { recursive: true })] *)
  remove : string -> M W unit;
  (** [Date.now()], also [new Date().getTime()] *)
  Date_now : W -> Z * W;
}.

(** The result of [getCacheInfo]; [modifiedAt] in milliseconds. *)
Record CacheInfo := {
  ageInMinutes : number;
  modifiedAt : Z;
}.

(** The result of [fetchWithCache]. *)
Record CacheResult := {
  data : json;
  fromCache : bool;
  cacheAge : option number;
}.

(** [ms / 1000 / 60] *)
Definition minutes (ms : Z) : number :=
Finite (Qc_of_Z ms / Qc_of_Z 1000 / Qc_of_Z 60)%Qc.

Section cache.
Context `{Platform}.
Context {W : Type} `{Deno W}.

Definition file_path (cacheDir key : string) : string :=
cacheDir +:+ "/" +:+ key +:+ ".json".

Definition saveToCache (cacheDir key : string) (data : json) : M W unit :=
(mkdir cacheDir ;;;
 let filePath := file_path cacheDir key in
 writeTextFile filePath (JSON_stringify_indented data))%M.

(** [null] is [JNull]. *)
Definition loadFromCache (cacheDir key : string) : M W json :=
try_catch
  (let filePath := file_path cacheDir key in
   let* content := readTextFile filePath in
   match JSON_parse content with
   | Some v => ret v
   | None => throw (JsError "SyntaxError" "Unexpected token")
   end)%M
  (fun _ => ret JNull).

(** [null] is [None]. *)
Definition getCacheInfo (cacheDir key : string) : M W (option CacheInfo) :=
try_catch
  (let filePath := file_path cacheDir key in
   let* stat := stat filePath in
   let* modifiedAt :=
     match mtime stat with
     | Some t => ret t
     | None => fun w => let '(t, w') := Date_now w in (inr t, w')
     end in
   let* now := (fun w => let '(t, w') := Date_now w in (inr t, w')) in
   let ageInMinutes := minutes (now - modifiedAt) in
   ret (Some {| ageInMinutes := ageInMinutes; modifiedAt := modifiedAt |}))%M
  (fun _ => ret None).

Definition clearCache (cacheDir : string) : M W unit :=
try_catch (remove cacheDir) (fun _ => ret tt).

(** The [catch (error)] block of [fetchWithCache]. *)
Definition fallback (cacheDir key : string) (error : exn) : M W CacheResult :=
(let* cached := loadFromCache cacheDir key in
 if truthy cached then
   let* cacheInfo := getCacheInfo cacheDir key in
   ret {| data := cached; fromCache := true;
          cacheAge := ageInMinutes <$> cacheInfo |}
 else throw error)%M.

Definition fetchWithCache (cacheDir key : string) (fetcher : M W json)
  : M W CacheResult :=
try_catch
  (let* data := fetcher in
   saveToCache cacheDir key data ;;;
   ret {| data := data; fromCache := false; cacheAge := None |})%M
  (fallback cacheDir key).

End cache.
End cache.

(** ** A small host for closed examples *)

(** A host that agrees with JavaScript on the values the examples use:
    integers, booleans, [null] and the empty array. *)
Module toy.

Definition Number_toString (n : number) : string :=
match n with
| NaN => "NaN"
| Infinity true => "-Infinity"
| Infinity false => "Infinity"
| Finite q => pretty (Qnum q)
end.

Definition all_digits (s : string) : bool :=
match digits_value None s with
| Some _ => forallb is_digit (list_ascii_of_string s)
| None => false
end.

Definition JSON_parse (s : string) : option json :=
if String.eqb s "null" then Some JNull
else if String.eqb s "true" then Some (JBool true)
else if String.eqb s "false" then Some (JBool false)
else if String.eqb s "[]" then Some (JArr [])
else if all_digits s then Some (JNum (parseInt10 s))
else None.

Definition JSON_stringify (v : json) : string :=
match v with
| JBool true => "true"
| JBool false => "false"
| JNum (Finite q) => pretty (Qnum q)
| JArr [] => "[]"
| _ => "null"
end.

#[global] Instance platform : Platform :=
Build_Platform Number_toString JSON_stringify JSON_stringify JSON_parse.

(** A disk: files with their modification time, a clock, and whether the
    disk accepts writes. *)
Record file := {
  content : string;
  modified : Z;
}.

Record disk := {
  files : gmap string file;
  clock : Z;
  writable : bool;
}.

Definition denied {A} : M disk A :=
throw (JsError "PermissionDenied" "Permission denied (os error 13)").

Definition not_found {A} : M disk A :=
throw (JsError "NotFound" "No such file or directory (os error 2)").

Definition mkdir (path : string) : M disk unit :=
fun d => if writable d then ret tt d else denied d.

Definition writeTextFile (path text : string) : M disk unit :=
fun d =>
  if writable d then
    (inr tt, {| files := <[path := {| content := text; modified := clock d |}]> (files d);
                clock := clock d; writable := true |})
  else denied d.

Definition readTextFile (path : string) : M disk string :=
fun d =>
  match files d !! path with
  | Some f => ret (content f) d
  | None => not_found d
  end.

Definition stat (path : string) : M disk cache.FileInfo :=
fun d =>
  match files d !! path with
  | Some f => ret {| cache.mtime := Some (modified f) |} d
  | None => not_found d
  end.

Definition remove (path : string) : M disk unit :=
fun d =>
  if writable d then
    (inr tt,
     {| files := filter (fun entry => String.prefix (path +:+ "/") entry.1 = false) (files d);
        clock := clock d; writable := true |})
  else denied d.

#[global] Instance deno : cache.Deno disk :=
cache.Build_Deno disk mkdir writeTextFile readTextFile stat remove (fun d => (clock d, d)).

(** The failure of a fetcher that cannot reach the service. *)
Definition offline : exn := JsError "TypeError" "error sending request".

Definition disk_with (text : string) (writable : bool) : disk :=
{| files := {[ "cache/orders.json"%string := {| content := text; modified := 1000 |} ]};
   clock := 61000; writable := writable |}.

Definition empty_disk (writable : bool) : disk :=
{| files := ∅; clock := 61000; writable := writable |}.

(** A listing intent with every field set, some with reserved characters. *)
Definition busy_options : types.SelectOptions :=
{| types.columns := Some ["First Name"; "a,b"]%string;
   types.filter := Some "[Total]>1000 and [City]='Zürich'"%string;
   types.sortColumn := Some "Date"%string; types.sortDirection := Some types.DESC;
   types.skip := Some (num 0); types.top := Some (num 100) |}.

(** A write response with the statuses of scenario B. *)
Definition created_then_updated
  : string -> client.RequestInit -> M unit (list table.RawResult) :=
fun _ _ =>
  ret [ {| table.status := num 201; table.id := Some (num 1); table.key := None |};
        {| table.status := num 200; table.id := Some (num 2); table.key := None |} ].

(** A client, a table, a builder on the heap and a network that answers
    every request with no rows. *)
Definition client0 : client.TeamDeskClient :=
{| client.appId := "15331"; client.baseUrl := "https://www.teamdesk.net/secure/api/v2";
   client.debug := false; client.useBearerAuth := false;
   client.token := Some "secret"%string; client.user := None; client.password := None;
   client.cacheDir := Some "./_tdcache"%string |}.

Definition builder0 : table.SelectBuilder.t :=
{| table.SelectBuilder.client := client0;
   table.SelectBuilder.tableName := "Orders";
   table.SelectBuilder.options := table.empty_options |}.

Definition no_rows : string -> M unit (list json) := fun _ => ret [].

(** A backend that counts its calls and answers the first [full] of them
    with 500 rows and the next one with [last] rows. *)
Definition rows (n : nat) : list json := repeat JNull n.

Definition backend (full last : nat) : string -> M nat (list json) :=
fun _ calls =>
  (inr (if (calls <? full)%nat then rows 500
        else if (calls =? full)%nat then rows last else []),
   S calls).

Definition paged_state : table.state nat :=
{| table.heap := {[ 1%positive := builder0 ]}; table.net := 0%nat; table.log := [] |}.

(** Three calls of [next()] against 500 rows, then 137. *)
Definition short_run :=
table.drain nat (backend 1 137) 3 (table.selectAll 1%positive) paged_state.

Definition table0 : table.TableClient.t :=
{| table.TableClient.client := client0; table.TableClient.tableName := "Orders" |}.

(** A write response: one record created, one rejected. *)
Definition raw0 : list table.RawResult :=
[ {| table.status := num 201; table.id := Some (num 7); table.key := None |};
  {| table.status := num 400; table.id := None; table.key := None |} ].

Definition answer_raw0 : string -> client.RequestInit -> M unit (list table.RawResult) :=
fun _ _ => ret raw0.

(** A 404 whose body is neither JSON nor readable as text. *)
Definition response404 : client.Response :=
{| client.status := 404; client.statusText := "Not Found";
   client.headers_get := fun _ => None;
   client.json_ := inl (JsError "SyntaxError" "Unexpected token < in JSON");
   client.text_ := inl (JsError "TypeError" "Body already consumed") |}.

(** A 422 whose body is of the structured form: two field errors, the
    second one without a column. *)
Definition response422 : client.Response :=
{| client.status := 422; client.statusText := "Unprocessable Entity";
   client.headers_get := fun _ => None;
   client.json_ :=
     inr (JObj [("errors"%string,
                 JArr [JObj [("column"%string, JStr "Email");
                             ("message"%string, JStr "is required")];
                       JObj [("message"%string, JStr "Row is locked")]])]);
   client.text_ := inl (JsError "TypeError" "Body already consumed") |}.



Definition bearer_config : types.TeamDeskConfig :=
{| types.appId := types.AppIdNumber (num 15331); types.token := Some "secret"%string;
   types.user := None; types.password := None; types.baseUrl := None;
   types.debug := None; types.useBearerAuth := Some true;
   types.cacheDir := types.CacheDirUnset |}.

Definition bearer_client (token : string) : client.TeamDeskClient :=
{| client.appId := "15331"; client.baseUrl := "https://www.teamdesk.net/secure/api/v2";
   client.debug := false; client.useBearerAuth := true;
   client.token := Some token; client.user := None; client.password := None;
   client.cacheDir := Some "./_tdcache"%string |}.

Definition no_init : client.RequestInit :=
{| client.method := None; client.body := None; client.headers := None |}.

Definition state0 : table.state unit :=
{| table.heap := {[ 1%positive := builder0 ]}; table.net := tt; table.log := [] |}.

End toy.

(** ** Notions the specification uses *)

Module spec.

(** A number outside the interval [1, 500]: below 1 or above 500.  [NaN]
    compares with nothing and is on neither side. *)
Inductive outside_limits : number -> Prop :=
| below_one (q : Qc) : (q < Qc_of_Z 1)%Qc -> outside_limits (Finite q)
| above_500 (q : Qc) : (Qc_of_Z 500 < q)%Qc -> outside_limits (Finite q)
| unbounded (negative : bool) : outside_limits (Infinity negative).

Inductive negative : number -> Prop :=
| negative_finite (q : Qc) : (q < Qc_of_Z 0)%Qc -> negative (Finite q)
| negative_infinity : negative (Infinity true).

(** The status table of section 4.3. *)
Definition class_of_status (status : Z) : errors.ErrorClass :=
if decide (status = 401 \/ status = 403) then errors.AuthenticationError
else if decide (status = 404) then errors.NotFoundError
else if decide (status = 429) then errors.RateLimitError
else if decide (status = 400 \/ status = 422) then errors.ValidationError
else if decide (500 <= status) then errors.ServerError
else errors.TeamDeskError.

(** The text each class puts before the message. *)
Definition prefix_of_class (c : errors.ErrorClass) : string :=
match c with
| errors.AuthenticationError => "Authentication failed: "
| errors.NotFoundError => "Resource not found: "
| errors.RateLimitError => "Rate limit exceeded: "
| errors.ValidationError => "Validation failed: "
| errors.ServerError => "Server error: "
| errors.TeamDeskError => "Request failed: "
end.

(** Section 4.4: what every result of [create] and [update] owes to its response entry. *)
Definition mirrors (entry : table.RawResult) (r : types.CreateResult) : Prop :=
  types.status r = table.status entry
  /\ types.id r = table.id entry
  /\ types.key r = table.key entry
  /\ types.success r = table.is_success (table.status entry)
  /\ types.errors r = []
  /\ types.data r = [].

(** A configuration that differs from [config] in its token only. *)
Definition with_token (config : types.TeamDeskConfig) (token : option string)
  : types.TeamDeskConfig :=
{| types.appId := types.appId config; types.token := token;
   types.user := types.user config; types.password := types.password config;
   types.baseUrl := types.baseUrl config; types.debug := types.debug config;
   types.useBearerAuth := types.useBearerAuth config;
   types.cacheDir := types.cacheDir config |}.

(** The best-effort text of a failed response whose body is no JSON: the
    body text, or the status line when the text cannot be read either. *)
Definition fallback_text (response : client.Response) : string :=
match client.text_ response with
| inr t => t
| inl _ =>
    "HTTP " +:+ pretty (client.status response) +:+ " " +:+ client.statusText response
end.

(** The bodies [parseErrorResponse] reads a message from: a string, an
    object with an [errors] array, an object with a [message]. *)
Definition structured (body : json) : bool :=
match body with
| JStr _ => true
| JObj props =>
    match get_prop "errors" props, get_prop "message" props with
    | Some (JArr _), _ => true
    | _, Some _ => true
    | _, None => false
    end
| _ => false
end.





(** Reading a query string back: split at [&], split each part at its
    first [=], percent-decode both sides. *)
Fixpoint split_on (sep : ascii) (s : string) : list string :=
match s with
| EmptyString => [EmptyString]
| String c rest =>
    if Ascii.eqb c sep then EmptyString :: split_on sep rest
    else match split_on sep rest with
         | first :: others => String c first :: others
         | [] => [String c EmptyString]
         end
end.

Fixpoint split_pair (part : string) : option (string * string) :=
match part with
| EmptyString => None
| String c rest =>
    if Ascii.eqb c "=" then Some (EmptyString, rest)
    else '(k, v) ← split_pair rest; Some (String c k, v)
end.

Definition decode_pair (part : string) : option (string * string) :=
'(k, v) ← split_pair part;
k' ← decodeURIComponent k;
v' ← decodeURIComponent v;
Some (k', v').

Definition parse_query (query : string) : option (list (string * string)) :=
match query with
| EmptyString => Some []
| String c rest =>
    if Ascii.eqb c "?" then mapM decode_pair (split_on "&" rest) else None
end.

Section spec.
Context `{Platform}.

(** The parameters an object passed to [buildQueryString] stands for: one
    pair per array item, one per scalar, none for [undefined]. *)
Definition entry_pairs (entry : string * utils.param) : list (string * string) :=
match entry.2 with
| utils.PUndefined => []
| utils.PArray items => map (fun item => (entry.1, item)) items
| v => [(entry.1, utils.param_String v)]
end.

(** The parameters a query intent stands for, in the order of the wire
    contract: columns, filter, sort, top, skip. *)
Definition intent_pairs (o : types.SelectOptions) : list (string * string) :=
map (fun c => ("column"%string, c)) (default [] (types.columns o))
++ match types.filter o with
   | Some f => if String.eqb f "" then [] else [("filter"%string, f)]
   | None => []
   end
++ match types.sortColumn o with
   | Some c =>
       if String.eqb c "" then []
       else [("sort"%string,
              c +:+ "//" +:+ utils.direction_text (default types.ASC (types.sortDirection o)))]
   | None => []
   end
++ match types.top o with
   | Some n => [("top"%string, Number_toString n)]
   | None => []
   end
++ match types.skip o with
   | Some n => [("skip"%string, Number_toString n)]
   | None => []
   end.

Variable Net : Type.
Variable request_rows : string -> M Net (list json).

(** Section 4.2, step 1. *)
Definition pageSize : number := num 500.

(** Step 2. *)
Definition start_offset (intent : types.SelectOptions) : number :=
default (num 0) (types.skip intent).

(** Step 3: the base intent with [skip = offset] and [top = pageSize]. *)
Definition page_intent (base : types.SelectOptions) (offset : number)
  : types.SelectOptions :=
{| types.columns := types.columns base; types.filter := types.filter base;
   types.sortColumn := types.sortColumn base;
   types.sortDirection := types.sortDirection base;
   types.skip := Some offset; types.top := Some pageSize |}.

Definition page_url (base : table.SelectBuilder.t) (offset : number) : string :=
table.select_url
  (table.with_options base (page_intent (table.SelectBuilder.options base) offset)).

(** Steps 3 to 7, for at most [rounds] requests: the pages produced, how
    the sequence ended ([None]: not within [rounds] requests), the network
    state reached and the URLs requested. *)
Fixpoint paginate (rounds : nat) (base : table.SelectBuilder.t) (offset : number)
    (net : Net) : list (list json) * option table.step * Net * list string :=
match rounds with
| O => ([], None, net, [])
| S rounds' =>
    let url := page_url base offset in
    match request_rows url net with
    | (inl e, net') => ([], Some (table.Throw e), net', [url])
    | (inr [], net') => ([], Some table.Return, net', [url])
    | (inr page, net') =>
        if (length page <? 500)%nat then ([page], Some table.Return, net', [url])
        else
          let '(pages, r, net'', urls) :=
            paginate rounds' base (num_add offset pageSize) net' in
          (page :: pages, r, net'', url :: urls)
    end
end.

End spec.
End spec.

(** [src/table.ts], the view classes; [TeamDeskClient.table] of
    [src/client.ts] opens the chain that leads to them. *)
Module view.

Module ViewClient.
Record t := {
  client : client.TeamDeskClient;
  tableName : string;
  viewName : string;
}.
End ViewClient.

(** A [ViewSelectBuilder] object, mutated by [limit] and [skip] like a
    [SelectBuilder], so it lives in a heap of its own class. *)
Module ViewSelectBuilder.
Record t := {
  client : client.TeamDeskClient;
  tableName : string;
  viewName : string;
  options : types.SelectOptions;
}.
End ViewSelectBuilder.

(** [client.table(tableName)] *)
Definition table (this : client.TeamDeskClient) (tableName : string)
  : table.TableClient.t :=
{| table.TableClient.client := this; table.TableClient.tableName := tableName |}.

(** [TableClient.view(viewName)] *)
Definition view (this : table.TableClient.t) (viewName : string) : ViewClient.t :=
{| ViewClient.client := table.TableClient.client this;
   ViewClient.tableName := table.TableClient.tableName this;
   ViewClient.viewName := viewName |}.

Definition with_options (b : ViewSelectBuilder.t) (o : types.SelectOptions)
  : ViewSelectBuilder.t :=
{| ViewSelectBuilder.client := ViewSelectBuilder.client b;
   ViewSelectBuilder.tableName := ViewSelectBuilder.tableName b;
   ViewSelectBuilder.viewName := ViewSelectBuilder.viewName b;
   ViewSelectBuilder.options := o |}.

Section view.
Context `{Platform}.

Variable Net : Type.
(** [this.client.request<T[]>(url)] *)
Variable request_rows : string -> M Net (list json).

(** View builders by address, the network, and the URLs requested so far. *)
Record state := {
  heap : gmap positive ViewSelectBuilder.t;
  net : Net;
  log : list string;
}.

Definition with_heap (s : state) (h : gmap positive ViewSelectBuilder.t) : state :=
{| heap := h; net := net s; log := log s |}.

Definition alloc (b : ViewSelectBuilder.t) : M state positive :=
fun s =>
  let l := fresh (dom (heap s)) in
  (inr l, with_heap s (<[l := b]> (heap s))).

Definition deref (l : positive) : M state ViewSelectBuilder.t :=
fun s =>
  match heap s !! l with
  | Some b => (inr b, s)
  | None => (inl (JsError "ReferenceError" "no object at this address"), s)
  end.

(** [l.options = o] *)
Definition assign_options (l : positive) (o : types.SelectOptions) : M state unit :=
(let* b := deref l in
 modify (fun s => with_heap s (<[l := with_options b o]> (heap s))))%M.

Definition send_rows (url : string) : M state (list json) :=
fun s =>
  let '(r, n) := request_rows url (net s) in
  (r, {| heap := heap s; net := n; log := log s ++ [url] |}).

(** The constructor of [ViewSelectBuilder]. *)
Definition new_ViewSelectBuilder (client : client.TeamDeskClient)
    (tableName viewName : string) (columns : option (list string)) : M state positive :=
alloc {| ViewSelectBuilder.client := client;
         ViewSelectBuilder.tableName := tableName;
         ViewSelectBuilder.viewName := viewName;
         ViewSelectBuilder.options :=
           if table.has_columns columns
           then table.with_columns table.empty_options (default [] columns)
           else table.empty_options |}.

(** [ViewClient.select(columns)] *)
Definition select (this : ViewClient.t) (columns : option (list string))
  : M state positive :=
new_ViewSelectBuilder (ViewClient.client this) (ViewClient.tableName this)
  (ViewClient.viewName this) columns.

Definition limit (this : positive) (limit : number) : M state positive :=
match utils.validatePaginationLimit limit with
| inl e => throw e
| inr top =>
    (let* b := deref this in
     assign_options this (table.with_top (ViewSelectBuilder.options b) top) ;;;
     ret this)%M
end.

Definition skip (this : positive) (skip : number) : M state positive :=
if num_lt skip (num 0) then throw (new_Error "Skip must be non-negative")
else
  (let* b := deref this in
   assign_options this (table.with_skip (ViewSelectBuilder.options b) skip) ;;;
   ret this)%M.

(** [buildQueryParams] of a view builder: columns, [top] and [skip] only. *)
Definition buildQueryParams (options : types.SelectOptions) : string :=
let params := [] in
let params :=
  if table.has_columns (types.columns options)
  then params ++ [("column"%string, utils.PArray (default [] (types.columns options)))]
  else params in
let params :=
  match types.top options with
  | Some top => params ++ [("top"%string, utils.PNumber top)]
  | None => params
  end in
let params :=
  match types.skip options with
  | Some skip => params ++ [("skip"%string, utils.PNumber skip)]
  | None => params
  end in
utils.buildQueryString params.

(** The URL [execute] requests for a view builder. *)
Definition select_url (b : ViewSelectBuilder.t) : string :=
let encodedTable := utils.encodeTableName (ViewSelectBuilder.tableName b) in
let encodedView := utils.encodeViewName (ViewSelectBuilder.viewName b) in
let queryParams := buildQueryParams (ViewSelectBuilder.options b) in
client.buildUrl (ViewSelectBuilder.client b)
  (encodedTable +:+ "/" +:+ encodedView +:+ "/select.json" +:+ queryParams).

Definition execute (this : positive) : M state (list json) :=
(let* b := deref this in
 send_rows (select_url b))%M.

(** One turn of the [while (true)] loop of the view's [selectAll]. *)
Definition turn (this : positive) (offset : number) (s : state)
  : table.step * table.cursor * state :=
match
  (let* me := deref this in
   let* builder :=
     new_ViewSelectBuilder (ViewSelectBuilder.client me) (ViewSelectBuilder.tableName me)
       (ViewSelectBuilder.viewName me) (types.columns (ViewSelectBuilder.options me)) in
   assign_options builder
     (table.spread_paging (ViewSelectBuilder.options me) offset
        (num (Z.of_nat table.batchSize))) ;;;
   execute builder)%M s
with
| (inl e, s') => (table.Throw e, table.Finished, s')
| (inr batch, s') =>
    if (length batch =? 0)%nat then (table.Return, table.Finished, s')
    else (table.Yield batch, table.Suspended offset (length batch), s')
end.

Definition selectAll (this : positive) : table.generator :=
{| table.this := this; table.position := table.AtStart |}.

Definition next (g : table.generator) (s : state) : table.step * table.generator * state :=
match table.position g with
| table.Finished => (table.Return, g, s)
| table.AtStart =>
    match deref (table.this g) s with
    | (inl e, s') =>
        (table.Throw e, {| table.this := table.this g; table.position := table.Finished |}, s')
    | (inr me, s') =>
        let offset := table.skip_or_zero (ViewSelectBuilder.options me) in
        let '(r, c, s'') := turn (table.this g) offset s' in
        (r, {| table.this := table.this g; table.position := c |}, s'')
    end
| table.Suspended offset batch_length =>
    if (batch_length <? table.batchSize)%nat then
      (table.Return, {| table.this := table.this g; table.position := table.Finished |}, s)
    else
      let offset := num_add offset (num (Z.of_nat table.batchSize)) in
      let '(r, c, s') := turn (table.this g) offset s in
      (r, {| table.this := table.this g; table.position := c |}, s')
end.

Fixpoint drain (fuel : nat) (g : table.generator) (s : state)
  : list (list json) * option table.step * table.generator * state :=
match fuel with
| O => ([], None, g, s)
| S fuel' =>
    match next g s with
    | (table.Yield batch, g', s') =>
        let '(pages, r, g'', s'') := drain fuel' g' s' in
        (batch :: pages, r, g'', s'')
    | (r, g', s') => ([], Some r, g', s')
    end
end.

End view.
End view.

(** ** Notions the further properties use *)

(** The loop the two [selectAll] generators share, as a function of the URL
    requested for the page at an offset: the pages produced within
    [rounds] requests, how the loop ended, the network state reached and
    the URLs requested. *)
Module paging.
Section paging.
Variable Net : Type.
Variable request_rows : string -> M Net (list json).
Variable url_at : number -> string.

Fixpoint pages_by (rounds : nat) (offset : number) (net : Net)
  : list (list json) * option table.step * Net * list string :=
match rounds with
| O => ([], None, net, [])
| S rounds' =>
    match request_rows (url_at offset) net with
    | (inl e, net') => ([], Some (table.Throw e), net', [url_at offset])
    | (inr [], net') => ([], Some table.Return, net', [url_at offset])
    | (inr page, net') =>
        if (length page <? table.batchSize)%nat
        then ([page], Some table.Return, net', [url_at offset])
        else
          let '(pages, r, net'', urls) :=
            pages_by rounds' (num_add offset (num (Z.of_nat table.batchSize))) net' in
          (page :: pages, r, net'', url_at offset :: urls)
    end
end.

End paging.

(** The page a backend holding [rows] serves for [skip = offset] and
    [top = 500]. *)
Definition slice (rows : list json) (offset : nat) : list json :=
take table.batchSize (drop offset rows).

End paging.

(** A chain of calls on one select builder, as the fluent interface writes
    it: [b.filter(e).sort(c, d).limit(n).skip(k)], in any order and number. *)
(** Header names as HTTP and [fetch] compare them: without regard to the
    case of the letters A to Z. *)
Module header.

Definition lower_ascii (c : ascii) : ascii :=
if in_range 65 90 c then ascii_of_N (N_of_ascii c + 32) else c.

Fixpoint lower (s : string) : string :=
match s with
| EmptyString => EmptyString
| String c rest => String (lower_ascii c) (lower rest)
end.

Definition same (a b : string) : bool := String.eqb (lower a) (lower b).

End header.

(** What a failed reply holds. *)
Module reply.

(** An element of the [errors] array and the entry it is read as: an
    object gives its [column], if it has one, and its [message], or
    [Unknown error] without one; a string gives itself as the message. *)
Inductive entry : json -> types.ApiError -> Prop :=
| entry_object (props : list (string * json)) (column message : option string) :
    get_prop "column" props = JStr <$> column ->
    get_prop "message" props = JStr <$> message ->
    entry (JObj props)
      {| types.column := column;
         types.message := default "Unknown error"%string message |}
| entry_text (s : string) :
    entry (JStr s) {| types.column := None; types.message := s |}.

End reply.

Module fluent.

Inductive call :=
| Filter (filterExpression : string)
| Sort (column : string) (direction : types.SortDirection)
| Limit (limit : number)
| Skip (skip : number).

(** What a call that returns has assigned to [this.options]. *)
Definition assigned (o : types.SelectOptions) (c : call) : types.SelectOptions :=
match c with
| Filter e => table.with_filter o e
| Sort column direction => table.with_sort o column direction
| Limit n => table.with_top o n
| Skip n => table.with_skip o n
end.

(** The numbers [limit] lets through: [NaN], and the finite numbers from 1
    to 500, whole or not. *)
Definition passes_limit (n : number) : Prop :=
match n with
| NaN => True
| Infinity _ => False
| Finite q => (Qc_of_Z 1 <= q)%Qc /\ (q <= Qc_of_Z 500)%Qc
end.

(** The numbers [skip] lets through: [NaN], [Infinity], and the finite
    numbers from 0 on. *)
Definition passes_skip (n : number) : Prop :=
match n with
| NaN => True
| Infinity negative => negative = false
| Finite q => (Qc_of_Z 0 <= q)%Qc
end.

(** The method a call names. *)
Inductive method := filter | sort | limit | skip.

Definition method_of (c : call) : method :=
match c with
| Filter _ => filter
| Sort _ _ => sort
| Limit _ => limit
| Skip _ => skip
end.

Definition passes (c : call) : Prop :=
match c with
| Limit n => passes_limit n
| Skip n => passes_skip n
| _ => True
end.

Section fluent.
Context `{Platform}.
Variable Net : Type.

Definition invoke (this : positive) (c : call) : M (table.state Net) positive :=
match c with
| Filter e => table.filter Net this e
| Sort column direction => table.sort Net this column direction
| Limit n => table.limit Net this n
| Skip n => table.skip Net this n
end.

(** Each call is made on what the call before it returned. *)
Fixpoint chain (this : positive) (calls : list call) : M (table.state Net) positive :=
match calls with
| [] => ret this
| c :: rest => (let* that := invoke this c in chain that rest)%M
end.

End fluent.
End fluent.

(** What a property assumes of the disk where it needs it. *)
Module disk.
Section disk.
Context {W : Type} `{cache.Deno W}.

(** A file reads back as it was written. *)
Definition reads_back : Prop :=
forall (path text : string) (w w' : W),
  cache.writeTextFile path text w = (inr tt, w') ->
  (cache.readTextFile path w').1 = inr text.




End disk.
End disk.

(** Further sample data for closed examples, on the host of [toy]. *)
Module samples.

(** A configuration with a token, a user and a password, and a base URL
    that ends with a slash; and the client the constructor makes of it. *)
Definition token_config : types.TeamDeskConfig :=
{| types.appId := types.AppIdNumber (num 15331); types.token := Some "secret"%string;
   types.user := Some "ann"%string; types.password := Some "pw"%string;
   types.baseUrl := Some "https://pro.dbflex.net/secure/api/v2/"%string;
   types.debug := None; types.useBearerAuth := None;
   types.cacheDir := types.CacheDirUnset |}.

Definition token_client : client.TeamDeskClient :=
{| client.appId := "15331"; client.baseUrl := "https://pro.dbflex.net/secure/api/v2";
   client.debug := false; client.useBearerAuth := false;
   client.token := Some "secret"%string; client.user := Some "ann"%string;
   client.password := Some "pw"%string; client.cacheDir := Some "./_tdcache"%string |}.

(** A request whose caller passes headers of its own. *)
Definition own_headers : client.RequestInit :=
{| client.method := None; client.body := None;
   client.headers := Some [("Authorization", "Basic abc"); ("X-Trace", "1")]%string |}.

(** A request whose caller spells the header name in lower case. *)
Definition lower_case_headers : client.RequestInit :=
{| client.method := None; client.body := None;
   client.headers := Some [("authorization", "Basic abc")]%string |}.

(** A backend that holds 637 rows and serves the two pages of a builder's
    pagination by their URLs. *)
Definition held : list json := toy.rows 637.

Definition serving (first second : string) : string -> M unit (list json) :=
fun url n =>
  (inr (if String.eqb url first then paging.slice held 0
        else if String.eqb url second then paging.slice held 500
        else []), n).

Definition orders_page (offset : Z) : string :=
table.select_url
  (table.with_options toy.builder0
     (table.spread_paging table.empty_options (num offset) (num 500))).

Definition orders_backend : string -> M unit (list json) :=
serving (orders_page 0) (orders_page 500).

(** A view builder on the heap. *)
Definition view_builder : view.ViewSelectBuilder.t :=
{| view.ViewSelectBuilder.client := toy.client0;
   view.ViewSelectBuilder.tableName := "Work Holiday";
   view.ViewSelectBuilder.viewName := "API Holidays Today or Later";
   view.ViewSelectBuilder.options := table.empty_options |}.

Definition view_state : view.state unit :=
{| view.heap := {[ 1%positive := view_builder ]}; view.net := tt; view.log := [] |}.

Definition holidays_page (offset : Z) : string :=
view.select_url
  (view.with_options view_builder
     (table.spread_paging table.empty_options (num offset) (num 500))).

Definition holidays_backend : string -> M unit (list json) :=
serving (holidays_page 0) (holidays_page 500).

(** The disk after a snapshot of the empty array was saved. *)
Definition saved_disk : toy.disk :=
(cache.saveToCache "cache" "orders" (JArr []) (toy.empty_disk true)).2.


(** A builder whose [skip] is [NaN], and a backend that answers every
    request with a full page. *)
Definition drifting_builder : table.SelectBuilder.t :=
table.with_options toy.builder0 (table.with_skip table.empty_options NaN).

Definition drifting_state : table.state unit :=
{| table.heap := {[ 1%positive := drifting_builder ]}; table.net := tt;
   table.log := [] |}.

Definition always_full : string -> M unit (list json) :=
fun _ n => (inr (toy.rows 500), n).

End samples.

(** * Properties *)

(** ** Numbers *)

Lemma num_lt_finite (p q : Qc) :
  num_lt (Finite p) (Finite q) = true <-> (p < q)%Qc.
Proof. simpl. apply bool_decide_eq_true. Qed.

Lemma num_lt_irrefl_finite (p q : Qc) :
  (p < q)%Qc -> num_lt (Finite q) (Finite p) = false.
Proof.
  intros Hlt. simpl. apply bool_decide_eq_false.
  intros Hgt. apply (Qclt_not_le _ _ Hlt). apply Qclt_le_weak. exact Hgt.
Qed.

Lemma one_lt_500 : (Qc_of_Z 1 < Qc_of_Z 500)%Qc.
Proof. apply (proj1 (Z2Qc_inj_lt 1 500)). lia. Qed.

(** Every comparison with [NaN] fails, so [NaN] passes a range check made
    of two comparisons. *)
Lemma validatePaginationLimit_NaN : utils.validatePaginationLimit NaN = inr NaN.
Proof. reflexivity. Qed.

Lemma validatePaginationLimit_outside (n : number) :
  spec.outside_limits n ->
  exists msg, utils.validatePaginationLimit n = inl (new_Error msg).
Proof.
  intros Hout. unfold utils.validatePaginationLimit.
  destruct Hout as [q Hq | q Hq | neg].
  - exists "Limit must be at least 1"%string.
    unfold num. rewrite (proj2 (num_lt_finite _ _) Hq). reflexivity.
  - exists "TeamDesk maximum limit is 500 records per request"%string.
    unfold num, num_gt.
    rewrite num_lt_irrefl_finite.
    + rewrite (proj2 (num_lt_finite _ _) Hq). reflexivity.
    + eapply Qclt_trans; [apply one_lt_500 | exact Hq].
  - destruct neg; eexists; reflexivity.
Qed.

Lemma validatePaginationLimit_inside (q : Qc) :
  (Qc_of_Z 1 <= q)%Qc -> (q <= Qc_of_Z 500)%Qc ->
  utils.validatePaginationLimit (Finite q) = inr (Finite q).
Proof.
  intros Hlo Hhi. unfold utils.validatePaginationLimit, num, num_gt. simpl.
  rewrite bool_decide_eq_false_2 by (apply Qcle_not_lt; exact Hlo).
  rewrite bool_decide_eq_false_2 by (apply Qcle_not_lt; exact Hhi).
  reflexivity.
Qed.


(** ** The select builder: local validation *)

Section builder_properties.
Context `{Platform}.
Variable Net : Type.
Variable request_rows : string -> M Net (list json).

Let state := table.state Net.
Let execute := table.execute Net request_rows.

Lemma deref_some (s : state) (l : positive) (b : table.SelectBuilder.t) :
  table.heap Net s !! l = Some b -> table.deref Net l s = (inr b, s).
Proof. intros Hl. unfold table.deref. rewrite Hl. reflexivity. Qed.

Lemma assign_options_some (s : state) (l : positive) (b : table.SelectBuilder.t)
    (o : types.SelectOptions) :
  table.heap Net s !! l = Some b ->
  table.assign_options Net l o s
  = (inr tt, table.with_heap Net s (<[l := table.with_options b o]> (table.heap Net s))).
Proof.
  intros Hl. unfold table.assign_options, bind. rewrite (deref_some _ _ _ Hl).
  reflexivity.
Qed.

Lemma limit_accepts (s : state) (this : positive) (b : table.SelectBuilder.t) (q : Qc) :
  table.heap Net s !! this = Some b ->
  (Qc_of_Z 1 <= q)%Qc -> (q <= Qc_of_Z 500)%Qc ->
  table.limit Net this (Finite q) s
  = (inr this,
     table.with_heap Net s
       (<[this := table.with_options b
                    (table.with_top (table.SelectBuilder.options b) (Finite q))]>
          (table.heap Net s))).
Proof.
  intros Hl Hlo Hhi. unfold table.limit.
  rewrite (validatePaginationLimit_inside q Hlo Hhi).
  unfold bind. rewrite (deref_some _ _ _ Hl).
  rewrite (assign_options_some _ _ _ _ Hl). reflexivity.
Qed.

Lemma skip_accepts (s : state) (this : positive) (b : table.SelectBuilder.t) (n : number) :
  table.heap Net s !! this = Some b ->
  num_lt n (num 0) = false ->
  table.skip Net this n s
  = (inr this,
     table.with_heap Net s
       (<[this := table.with_options b
                    (table.with_skip (table.SelectBuilder.options b) n)]>
          (table.heap Net s))).
Proof.
  intros Hl Hn. unfold table.skip. rewrite Hn.
  unfold bind. rewrite (deref_some _ _ _ Hl).
  rewrite (assign_options_some _ _ _ _ Hl). reflexivity.
Qed.




End builder_properties.



(** ** The write mappers *)

Section write_properties.
Context `{Platform}.
Variable Net : Type.
Variable request_results : string -> client.RequestInit -> M Net (list table.RawResult).

Let state := table.state Net.

Lemma to_result_mirrors (raw : list table.RawResult) :
  Forall2 spec.mirrors raw (map table.to_result raw).
Proof.
  induction raw as [ | entry raw IH ]; simpl; constructor.
  - repeat split.
  - exact IH.
Qed.

Lemma to_upsert_result_mirrors (raw : list table.RawResult) :
  Forall2 (fun entry r => spec.mirrors entry (types.result r))
    raw (map table.to_upsert_result raw).
Proof.
  induction raw as [ | entry raw IH ]; simpl; constructor.
  - repeat split.
  - exact IH.
Qed.

Lemma send_results_answer (s : state) (url : string) (init : client.RequestInit)
    (raw : list table.RawResult) (net' : Net) :
  request_results url init (table.net Net s) = (inr raw, net') ->
  table.send_results Net request_results url init s
  = (inr raw, {| table.heap := table.heap Net s; table.net := net';
                 table.log := table.log Net s ++ [url] |}).
Proof. intros Hreq. unfold table.send_results. rewrite Hreq. reflexivity. Qed.

(** C10.  Whatever array of entries the backend answers with, [create],
    [update] and [upsert] return one result per entry, in the same order,
    and each result has an empty [errors] list and an empty [data] object,
    whether its status is a success or not. *)
Theorem write_results_carry_no_errors (this : table.TableClient.t)
    (records : list json) (matchColumn : option string)
    (options : option types.WriteOptions)
    (s : state) (raw : list table.RawResult) (net' : Net) :
  (forall url init, request_results url init (table.net Net s) = (inr raw, net')) ->
  (exists results s',
     table.create Net request_results this records options s = (inr results, s')
     /\ Forall2 spec.mirrors raw results)
  /\ (exists results s',
        table.update Net request_results this records options s = (inr results, s')
        /\ Forall2 spec.mirrors raw results)
  /\ (exists results s',
        table.upsert Net request_results this records matchColumn options s
        = (inr results, s')
        /\ Forall2 (fun entry r => spec.mirrors entry (types.result r)) raw results).
Proof.
  intros Hbackend. split; [ | split ].
  - unfold table.create, bind.
    rewrite (send_results_answer _ _ _ raw net' (Hbackend _ _)).
    eexists _, _. split; [ reflexivity | apply to_result_mirrors ].
  - unfold table.update, bind.
    rewrite (send_results_answer _ _ _ raw net' (Hbackend _ _)).
    eexists _, _. split; [ reflexivity | apply to_result_mirrors ].
  - unfold table.upsert, bind.
    rewrite (send_results_answer _ _ _ raw net' (Hbackend _ _)).
    eexists _, _. split; [ reflexivity | apply to_upsert_result_mirrors ].
Qed.

End write_properties.

Lemma write_results_carry_no_errors_witness :
  (exists results s',
     table.create unit toy.answer_raw0 toy.table0 [] None toy.state0 = (inr results, s')
     /\ Forall2 spec.mirrors toy.raw0 results)
  /\ (exists results s',
        table.update unit toy.answer_raw0 toy.table0 [] None toy.state0 = (inr results, s')
        /\ Forall2 spec.mirrors toy.raw0 results)
  /\ (exists results s',
        table.upsert unit toy.answer_raw0 toy.table0 [] (Some "Email"%string) None toy.state0
        = (inr results, s')
        /\ Forall2 (fun entry r => spec.mirrors entry (types.result r)) toy.raw0 results).
Proof.
  apply (write_results_carry_no_errors unit toy.answer_raw0 toy.table0 [] _ None
           toy.state0 toy.raw0 tt).
  intros url init. reflexivity.
Defined.

(** ** The client: URLs, headers and the error classifier *)

Lemma set_prop_in (key value : string) (props : list (string * string)) :
  In (key, value) (set_prop key value props).
Proof.
  induction props as [ | [k v] rest IH ]; simpl.
  - left. reflexivity.
  - destruct (String.eqb k key) eqn:Hk.
    + apply String.eqb_eq in Hk. subst k. left. reflexivity.
    + right. exact IH.
Qed.




(** A check on every number below a bound, by running it. *)
Lemma checked_below (f : N -> bool) (bound : nat) :
  forallb f (map N.of_nat (seq 0 bound)) = true ->
  forall n, (n < N.of_nat bound)%N -> f n = true.
Proof.
  intros Hall n Hn. rewrite forallb_forall in Hall. apply Hall.
  apply in_map_iff. exists (N.to_nat n). split; [ apply N2Nat.id | ].
  apply in_seq. lia.
Qed.






(** Decide every test on a status code in the goal. *)
Ltac status_cases :=
  repeat lazymatch goal with
         | |- context [ (?st =? ?code)%Z ] =>
             let c := fresh "code" in destruct (Z.eqb_spec st code) as [c | c]
         | |- context [ (?code <=? ?st)%Z ] =>
             let c := fresh "code" in destruct (Z.leb_spec code st) as [c | c]
         end;
  cbn [orb]; try lia.

Section client_properties.
Context `{Platform}.

(** C8.  In bearer mode the URL is a function of the base URL, the
    application id and the path alone: two configurations that differ in
    the token only give clients that build the same URL for every path,
    and the token travels in the [Authorization] header. *)
Theorem bearer_url_independent_of_token (config : types.TeamDeskConfig)
    (token1 token2 : option string) (c1 c2 : client.TeamDeskClient)
    (path : string) (options : client.RequestInit) :
  types.useBearerAuth config = Some true ->
  client.new_TeamDeskClient (spec.with_token config token1) = inr c1 ->
  client.new_TeamDeskClient (spec.with_token config token2) = inr c2 ->
  client.buildUrl c1 path = client.buildUrl c2 path
  /\ client.buildUrl c1 path
     = client.baseUrl c1 +:+ "/" +:+ client.appId c1 +:+ "/"
       +:+ (if starts_with_slash path then slice1 path else path)
  /\ In ("Authorization"%string, "Bearer " +:+ opt_text token1)
       (client.request_headers c1 options).
Proof.
  intros Hbearer Hc1 Hc2.
  unfold client.new_TeamDeskClient, spec.with_token in Hc1, Hc2.
  simpl in Hc1, Hc2. rewrite Hbearer in Hc1, Hc2. simpl in Hc1, Hc2.
  destruct (negb (client.appId_truthy (types.appId config))); [ discriminate | ].
  destruct (opt_truthy token1) eqn:Ht1; simpl in Hc1;
    [ | destruct (negb (opt_truthy (types.user config)
                        && opt_truthy (types.password config))); discriminate ].
  destruct (opt_truthy token2) eqn:Ht2; simpl in Hc2;
    [ | destruct (negb (opt_truthy (types.user config)
                        && opt_truthy (types.password config))); discriminate ].
  injection Hc1 as <-. injection Hc2 as <-.
  unfold client.buildUrl, client.request_headers. simpl. rewrite Ht1. simpl.
  split; [ reflexivity | ]. split; [ reflexivity | ]. apply set_prop_in.
Qed.

Variable Net : Type.
Variable fetch : string -> client.RequestInit -> M Net client.Response.

(** No exception other than a [TeamDeskError] leaves [request]. *)
Lemma request_throws_typed (this : client.TeamDeskClient) (url : string)
    (options : client.RequestInit) (n n' : Net) (x : exn) :
  client.request Net fetch this url options n = (inl x, n') ->
  instanceof_TeamDeskError x = true.
Proof.
  unfold client.request, try_catch, bind, throw, ret.
  destruct (fetch url _ n) as [[e | response] n1].
  - intros [= <- _]. destruct e; reflexivity.
  - destruct (negb (client.ok response)).
    + intros [= <- _]. reflexivity.
    + destruct (client.json_ response) as [e | data].
      * intros [= <- _]. destruct e; reflexivity.
      * discriminate.
Qed.





End client_properties.

Lemma bearer_url_independent_of_token_witness :
  client.buildUrl (toy.bearer_client "secret") "/Orders/select.json"
  = client.buildUrl (toy.bearer_client "other") "/Orders/select.json"
  /\ client.buildUrl (toy.bearer_client "secret") "/Orders/select.json"
     = "https://www.teamdesk.net/secure/api/v2/15331/Orders/select.json"%string
  /\ In ("Authorization"%string, "Bearer secret"%string)
       (client.request_headers (toy.bearer_client "secret") toy.no_init).
Proof.
  exact (bearer_url_independent_of_token toy.bearer_config
           (Some "secret"%string) (Some "other"%string)
           (toy.bearer_client "secret") (toy.bearer_client "other")
           "/Orders/select.json" toy.no_init eq_refl eq_refl eq_refl).
Defined.


(** ** Unparseable bodies *)

Section degraded_bodies.
Context `{Platform}.

Lemma handleErrorResponse_name (response : client.Response) (url : string) :
  errors.name (client.handleErrorResponse response url)
  = spec.class_of_status (client.status response).
Proof.
  unfold client.handleErrorResponse, spec.class_of_status.
  destruct (utils.parseErrorResponse (client.read_body response)) as [message errs].
  repeat match goal with
         | |- context [decide ?P] => destruct (decide P)
         end;
  status_cases; reflexivity.
Qed.

Lemma handleErrorResponse_message (response : client.Response) (url : string) :
  errors.message (client.handleErrorResponse response url)
  = spec.prefix_of_class (spec.class_of_status (client.status response))
    +:+ (utils.parseErrorResponse (client.read_body response)).1.
Proof.
  unfold client.handleErrorResponse, spec.class_of_status.
  destruct (utils.parseErrorResponse (client.read_body response)) as [message errs].
  repeat match goal with
         | |- context [decide ?P] => destruct (decide P)
         end;
  status_cases; reflexivity.
Qed.

Lemma parseErrorResponse_unstructured (body : json) :
  spec.structured body = false ->
  (utils.parseErrorResponse body).1 = "Unknown error"%string.
Proof.
  destruct body as [ | b | n | s | items | props ]; try reflexivity; try discriminate.
  simpl. destruct (get_prop "errors" props) as [ [ | | | | | ] | ];
    destruct (get_prop "message" props); try discriminate; reflexivity.
Qed.

(** C7, as the code has it.  A body that is not JSON never makes the
    classifier fail, and never changes the class of the error, which the
    status code alone decides (the generic class only for a status without
    a class of its own).  The message is the prefix of that class followed
    by the body text, or by the status line when the text cannot be read
    either.  A JSON body that is not of the structured form gives the
    message [Unknown error]. *)
Theorem unparseable_body_degrades_message (response : client.Response) (url : string) :
  let e := client.handleErrorResponse response url in
  let class := spec.class_of_status (client.status response) in
  errors.name e = class
  /\ (forall err, client.json_ response = inl err ->
        errors.message e = spec.prefix_of_class class +:+ spec.fallback_text response)
  /\ (forall body, client.json_ response = inr body -> spec.structured body = false ->
        errors.message e = spec.prefix_of_class class +:+ "Unknown error").
Proof.
  intros e class. subst e class. split; [ apply handleErrorResponse_name | ].
  split.
  - intros err Hjson. rewrite handleErrorResponse_message. f_equal.
    unfold client.read_body, spec.fallback_text. rewrite Hjson.
    destruct (client.text_ response); reflexivity.
  - intros body Hjson Hbody. rewrite handleErrorResponse_message. f_equal.
    unfold client.read_body. rewrite Hjson.
    apply parseErrorResponse_unstructured. exact Hbody.
Qed.

End degraded_bodies.

(** The claim as the specification words it fails: a 404 whose body cannot
    be parsed is a [NotFoundError], not the generic error. *)
Lemma unparseable_404_is_NotFoundError :
  client.json_ toy.response404 = inl (JsError "SyntaxError" "Unexpected token < in JSON")
  /\ errors.name (client.handleErrorResponse toy.response404 "https://example.test/x")
     = errors.NotFoundError
  /\ errors.message (client.handleErrorResponse toy.response404 "https://example.test/x")
     = "Resource not found: HTTP 404 Not Found"%string.
Proof. repeat split; vm_compute; reflexivity. Qed.

Lemma unparseable_body_degrades_message_witness :
  errors.message (client.handleErrorResponse toy.response404 "u")
  = spec.prefix_of_class errors.NotFoundError +:+ spec.fallback_text toy.response404
  /\ errors.message
       (client.handleErrorResponse
          {| client.status := 500; client.statusText := "";
             client.headers_get := fun _ => None;
             client.json_ := inr (JNum (num 7));
             client.text_ := inr ""%string |} "u")
     = spec.prefix_of_class errors.ServerError +:+ "Unknown error".
Proof.
  split.
  - destruct (unparseable_body_degrades_message toy.response404 "u") as (_ & Hfail & _).
    exact (Hfail _ eq_refl).
  - destruct (unparseable_body_degrades_message
                {| client.status := 500; client.statusText := "";
                   client.headers_get := fun _ => None;
                   client.json_ := inr (JNum (num 7));
                   client.text_ := inr ""%string |} "u") as (_ & _ & Hbody).
    exact (Hbody _ eq_refl eq_refl).
Defined.

(** ** Percent-encoding and the query string *)

Lemma mem_ascii_app (c : ascii) (a b : string) :
  mem_ascii c (a +:+ b) = mem_ascii c a || mem_ascii c b.
Proof.
  induction a as [ | d a IH ]; simpl; [ reflexivity | ].
  rewrite IH. apply orb_assoc.
Qed.

Lemma hex_digit_unreserved (n : N) : (n < 16)%N -> is_unreserved (hex_digit n) = true.
Proof. apply (checked_below (fun n => is_unreserved (hex_digit n)) 16). reflexivity. Qed.

Lemma hex_value_digit (n : N) : (n < 16)%N -> hex_value (hex_digit n) = Some n.
Proof.
  intros Hn.
  pose proof (checked_below
                (fun n => match hex_value (hex_digit n) with
                          | Some m => N.eqb m n
                          | None => false
                          end) 16 eq_refl n Hn) as Hcheck.
  cbv beta in Hcheck. destruct (hex_value (hex_digit n)); [ | discriminate ].
  apply N.eqb_eq in Hcheck. congruence.
Qed.

Lemma high_nibble_bound (c : ascii) : (N_of_ascii c / 16 < 16)%N.
Proof.
  pose proof (N_ascii_bounded c). apply N.Div0.div_lt_upper_bound. lia.
Qed.

Lemma low_nibble_bound (c : ascii) : (N_of_ascii c mod 16 < 16)%N.
Proof. apply N.mod_lt. discriminate. Qed.

Lemma differs_from_unreserved (sep c : ascii) :
  is_unreserved sep = false -> is_unreserved c = true -> Ascii.eqb sep c = false.
Proof.
  intros Hsep Hc. apply Ascii.eqb_neq. intros ->. congruence.
Qed.

(** A character that [encodeURIComponent] escapes does not occur in its
    output, the percent sign apart. *)
Lemma encodeURIComponent_avoids (sep : ascii) (s : string) :
  is_unreserved sep = false -> sep <> "%"%char ->
  mem_ascii sep (encodeURIComponent s) = false.
Proof.
  intros Hsep Hpct. induction s as [ | c s IH ]; simpl; [ reflexivity | ].
  destruct (is_unreserved c) eqn:Hc; simpl.
  - rewrite (differs_from_unreserved sep c Hsep Hc), IH. reflexivity.
  - rewrite (proj2 (Ascii.eqb_neq sep "%") Hpct).
    rewrite (differs_from_unreserved sep _ Hsep
               (hex_digit_unreserved _ (high_nibble_bound c))).
    rewrite (differs_from_unreserved sep _ Hsep
               (hex_digit_unreserved _ (low_nibble_bound c))).
    exact IH.
Qed.

Lemma decode_plain (c : ascii) (rest : string) :
  Ascii.eqb c "%" = false ->
  decodeURIComponent (String c rest) = String c <$> decodeURIComponent rest.
Proof. intros Hc. simpl. rewrite Hc. reflexivity. Qed.

Lemma decode_escape (h l : ascii) (rest : string) :
  decodeURIComponent (String "%" (String h (String l rest)))
  = match hex_value h, hex_value l with
    | Some a, Some b => String (ascii_of_N (16 * a + b)) <$> decodeURIComponent rest
    | _, _ => None
    end.
Proof. reflexivity. Qed.

(** P1: decoding undoes encoding. *)
Lemma decode_encode (s : string) :
  decodeURIComponent (encodeURIComponent s) = Some s.
Proof.
  induction s as [ | c s IH ]; [ reflexivity | ].
  simpl encodeURIComponent. destruct (is_unreserved c) eqn:Hc.
  - rewrite decode_plain, IH; [ reflexivity | ].
    apply Ascii.eqb_neq. intros ->. discriminate.
  - change (percent_byte c +:+ encodeURIComponent s)
      with (String "%" (String (hex_digit (N_of_ascii c / 16))
                          (String (hex_digit (N_of_ascii c mod 16))
                             (encodeURIComponent s)))).
    rewrite decode_escape.
    rewrite (hex_value_digit _ (high_nibble_bound c)).
    rewrite (hex_value_digit _ (low_nibble_bound c)).
    rewrite IH. simpl. f_equal. f_equal.
    rewrite <- (ascii_N_embedding c) at 3. f_equal.
    rewrite (N.div_mod (N_of_ascii c) 16) at 3 by discriminate. reflexivity.
Qed.

Local Arguments Ascii.eqb : simpl never.

Lemma split_on_none (sep : ascii) (s : string) :
  mem_ascii sep s = false -> spec.split_on sep s = [s].
Proof.
  induction s as [ | c s IH ]; simpl; [ reflexivity | ].
  intros Hmem. apply orb_false_elim in Hmem as [Hc Hs].
  rewrite Ascii.eqb_sym, Hc, (IH Hs). reflexivity.
Qed.

Lemma split_on_app (sep : ascii) (p rest : string) :
  mem_ascii sep p = false ->
  spec.split_on sep (p +:+ String sep rest) = p :: spec.split_on sep rest.
Proof.
  induction p as [ | c p IH ]; simpl.
  - intros _. rewrite Ascii.eqb_refl. reflexivity.
  - intros Hmem. apply orb_false_elim in Hmem as [Hc Hp].
    rewrite Ascii.eqb_sym, Hc, (IH Hp). reflexivity.
Qed.

Lemma split_on_join (sep : ascii) (parts : list string) :
  parts <> [] ->
  Forall (fun p => mem_ascii sep p = false) parts ->
  spec.split_on sep (join (String sep EmptyString) parts) = parts.
Proof.
  intros Hne Hparts. induction Hparts as [ | p parts Hp Hparts IH ]; [ congruence | ].
  destruct parts as [ | q parts ].
  - simpl. apply split_on_none. exact Hp.
  - change (join (String sep EmptyString) (p :: q :: parts))
      with (p +:+ String sep (join (String sep EmptyString) (q :: parts))).
    rewrite (split_on_app sep p _ Hp), IH by discriminate. reflexivity.
Qed.

Lemma split_pair_app (k v : string) :
  mem_ascii "=" k = false -> spec.split_pair (k +:+ String "=" v) = Some (k, v).
Proof.
  induction k as [ | c k IH ]; simpl.
  - intros _. reflexivity.
  - intros Hmem. apply orb_false_elim in Hmem as [Hc Hk].
    rewrite Ascii.eqb_sym, Hc, (IH Hk). reflexivity.
Qed.

Lemma decode_pair_text (key value : string) :
  spec.decode_pair (utils.pair_text key value) = Some (key, value).
Proof.
  unfold spec.decode_pair, utils.pair_text.
  change ("=" +:+ encodeURIComponent value)
    with (String "=" (encodeURIComponent value)).
  rewrite split_pair_app by (apply encodeURIComponent_avoids; [ reflexivity | discriminate ]).
  simpl. rewrite !decode_encode. reflexivity.
Qed.

Lemma pair_text_no_ampersand (key value : string) :
  mem_ascii "&" (utils.pair_text key value) = false.
Proof.
  unfold utils.pair_text.
  change ("=" +:+ encodeURIComponent value)
    with (String "=" (encodeURIComponent value)).
  rewrite mem_ascii_app. cbn [mem_ascii].
  rewrite !encodeURIComponent_avoids by (reflexivity || discriminate). reflexivity.
Qed.

Section query_properties.
Context `{Platform}.

(** The parts the loop of [buildQueryString] pushes for one entry. *)
Lemma push_entry_parts (parts : list string) (entry : string * utils.param) :
  utils.push_entry parts entry
  = parts ++ map (fun kv => utils.pair_text kv.1 kv.2) (spec.entry_pairs entry).
Proof.
  destruct entry as [key value]. unfold spec.entry_pairs. simpl.
  destruct value as [ | s | n | b | items ]; simpl; try reflexivity.
  - symmetry. apply app_nil_r.
  - revert parts. induction items as [ | item items IH ]; intros parts; simpl.
    + symmetry. apply app_nil_r.
    + rewrite IH, <- app_assoc. reflexivity.
Qed.

Lemma fold_push_entry (params : list (string * utils.param)) (parts : list string) :
  fold_left utils.push_entry params parts
  = parts ++ map (fun kv => utils.pair_text kv.1 kv.2) (flat_map spec.entry_pairs params).
Proof.
  revert parts. induction params as [ | entry params IH ]; intros parts; simpl.
  - symmetry. apply app_nil_r.
  - rewrite IH, push_entry_parts, map_app, app_assoc. reflexivity.
Qed.

(** The query string is ["?"] and the pairs joined by [&], or empty. *)
Lemma buildQueryString_text (params : list (string * utils.param)) :
  utils.buildQueryString params
  = match flat_map spec.entry_pairs params with
    | [] => ""%string
    | pairs => "?" +:+ join "&" (map (fun kv => utils.pair_text kv.1 kv.2) pairs)
    end.
Proof.
  unfold utils.buildQueryString. rewrite fold_push_entry. simpl.
  destruct (flat_map spec.entry_pairs params); reflexivity.
Qed.

Lemma parse_buildQueryString (params : list (string * utils.param)) :
  spec.parse_query (utils.buildQueryString params)
  = Some (flat_map spec.entry_pairs params).
Proof.
  rewrite buildQueryString_text.
  destruct (flat_map spec.entry_pairs params) as [ | pair pairs ] eqn:Hpairs;
    [ reflexivity | ].
  change (spec.parse_query ("?" +:+ ?q))
    with (mapM spec.decode_pair (spec.split_on "&" q)).
  rewrite split_on_join.
  - apply mapM_fmap_Some. intros [k v]. apply decode_pair_text.
  - discriminate.
  - generalize (pair :: pairs). intros l.
    induction l as [ | [k v] l IH ]; constructor;
      [ apply pair_text_no_ampersand | exact IH ].
Qed.

Lemma buildQueryParams_pairs (options : types.SelectOptions) :
  exists params,
    table.buildQueryParams options = utils.buildQueryString params
    /\ flat_map spec.entry_pairs params = spec.intent_pairs options.
Proof.
  unfold table.buildQueryParams. eexists. split; [ reflexivity | ].
  unfold spec.intent_pairs.
  destruct options as [columns filter sortColumn sortDirection skip top]. simpl.
  destruct columns as [ [ | c cs ] | ]; simpl;
  destruct filter as [ f | ]; simpl;
  try (unfold str_truthy; destruct (String.eqb f "")); simpl;
  destruct sortColumn as [ sc | ]; simpl;
  try (unfold str_truthy; destruct (String.eqb sc "")); simpl;
  destruct top as [ t | ]; destruct skip as [ k | ]; simpl;
  rewrite ?flat_map_app; simpl; rewrite ?app_nil_r, <- ?app_assoc; simpl;
  try reflexivity.
Qed.

(** C4.  Read back ([&]-separated parts, each split at its first [=] and
    percent-decoded on both sides), the assembled query string is exactly
    the list of parameters it was built from: one [column] pair per column
    name, in list order, then filter, sort, top and skip; each value
    decodes to the original string, whatever characters it holds; a field
    that is absent has no pair.  The column pairs are written one by one
    and joined by [&]. *)
Theorem query_string_round_trip (params : list (string * utils.param))
    (options : types.SelectOptions) (names : list string) (text : string) :
  decodeURIComponent (encodeURIComponent text) = Some text
  /\ spec.parse_query (utils.buildQueryString params)
     = Some (flat_map spec.entry_pairs params)
  /\ spec.parse_query (table.buildQueryParams options)
     = Some (spec.intent_pairs options)
  /\ utils.buildQueryString [("column"%string, utils.PArray names)]
     = match names with
       | [] => ""%string
       | _ => "?" +:+ join "&"
                (map (fun name => "column=" +:+ encodeURIComponent name) names)
       end
  /\ table.buildQueryParams table.empty_options = ""%string.
Proof.
  split; [ apply decode_encode | ].
  split; [ apply parse_buildQueryString | ].
  split.
  - destruct (buildQueryParams_pairs options) as (ps & -> & <-).
    apply parse_buildQueryString.
  - split; [ | reflexivity ].
    rewrite buildQueryString_text. simpl. rewrite app_nil_r.
    destruct names as [ | name names ]; [ reflexivity | ].
    simpl. rewrite map_map. reflexivity.
Qed.

End query_properties.

(** ** The auto-pagination generator *)

Section pagination_properties.
Context `{Platform}.
Variable Net : Type.
Variable request_rows : string -> M Net (list json).

Let state := table.state Net.
Let turn := table.turn Net request_rows.
Let next := table.next Net request_rows.
Let drain := table.drain Net request_rows.
Let paginate := spec.paginate Net request_rows.

(** The builder a turn of the loop creates for the page at [offset]. *)
Let clone (base : table.SelectBuilder.t) (offset : number) : table.SelectBuilder.t :=
  table.with_options base (spec.page_intent (table.SelectBuilder.options base) offset).

(** The state a turn leaves: the clone at a fresh address, the URL logged. *)
Let after_turn (s : state) (base : table.SelectBuilder.t) (offset : number) (n : Net)
  : state :=
  {| table.heap :=
       <[fresh (dom (table.heap Net s)) := clone base offset]> (table.heap Net s);
     table.net := n;
     table.log := table.log Net s ++ [spec.page_url base offset] |}.

Lemma execute_some (s : state) (l : positive) (b : table.SelectBuilder.t) :
  table.heap Net s !! l = Some b ->
  table.execute Net request_rows l s
  = match request_rows (table.select_url b) (table.net Net s) with
    | (r, n) =>
        (r, {| table.heap := table.heap Net s; table.net := n;
               table.log := table.log Net s ++ [table.select_url b] |})
    end.
Proof.
  intros Hl. unfold table.execute, bind. rewrite (deref_some Net s l b Hl).
  reflexivity.
Qed.

(** One turn of the loop: one request, for the clone's URL. *)
Lemma turn_unfold (s : state) (this : positive) (base : table.SelectBuilder.t)
    (offset : number) :
  table.heap Net s !! this = Some base ->
  turn this offset s
  = match request_rows (spec.page_url base offset) (table.net Net s) with
    | (inl e, n) => (table.Throw e, table.Finished, after_turn s base offset n)
    | (inr batch, n) =>
        if (length batch =? 0)%nat
        then (table.Return, table.Finished, after_turn s base offset n)
        else (table.Yield batch, table.Suspended offset (length batch),
              after_turn s base offset n)
    end.
Proof.
  intros Hthis. subst turn. unfold table.turn, bind.
  rewrite (deref_some Net s this base Hthis).
  unfold table.new_SelectBuilder, table.alloc.
  set (l := fresh (dom (table.heap Net s))).
  set (b0 := {| table.SelectBuilder.client := table.SelectBuilder.client base;
                table.SelectBuilder.tableName := table.SelectBuilder.tableName base;
                table.SelectBuilder.options := _ |}).
  set (s1 := table.with_heap Net s (<[l := b0]> (table.heap Net s))).
  assert (table.heap Net s1 !! l = Some b0) as Hl by apply lookup_insert_eq.
  rewrite (assign_options_some Net s1 l b0 _ Hl).
  set (s2 := table.with_heap Net s1 _).
  assert (table.heap Net s2 !! l = Some (clone base offset)) as Hl2
    by apply lookup_insert_eq.
  rewrite (execute_some s2 l _ Hl2).
  change (table.select_url (clone base offset)) with (spec.page_url base offset).
  change (table.net Net s2) with (table.net Net s).
  assert (forall n,
            {| table.heap := table.heap Net s2; table.net := n;
               table.log := table.log Net s2 ++ [spec.page_url base offset] |}
            = after_turn s base offset n) as Hstate.
  { intros n. subst after_turn s2 s1. unfold table.with_heap. simpl.
    rewrite insert_insert_eq. reflexivity. }
  destruct (request_rows (spec.page_url base offset) (table.net Net s))
    as [[e | batch] n]; rewrite Hstate; reflexivity.
Qed.

Lemma after_turn_keeps (s : state) (base b : table.SelectBuilder.t)
    (offset : number) (n : Net) (l : positive) :
  table.heap Net s !! l = Some b ->
  table.heap Net (after_turn s base offset n) !! l = Some b.
Proof.
  intros Hl. subst after_turn. cbn [table.heap].
  rewrite lookup_insert_ne; [ exact Hl | ].
  intros Heq. apply (is_fresh (dom (table.heap Net s))).
  rewrite Heq. apply elem_of_dom. eexists. exact Hl.
Qed.

Lemma after_turn_adds (s : state) (base c : table.SelectBuilder.t)
    (offset : number) (n : Net) (l : positive) :
  table.heap Net s !! l = None ->
  table.heap Net (after_turn s base offset n) !! l = Some c ->
  c = clone base offset.
Proof.
  intros Hnone. subst after_turn. cbn [table.heap].
  destruct (decide (fresh (dom (table.heap Net s)) = l)) as [-> | Hne].
  - rewrite lookup_insert_eq. congruence.
  - rewrite lookup_insert_ne by exact Hne. congruence.
Qed.

(** Where a turn ends: the state is [after_turn], whatever the outcome. *)
Lemma turn_state (s s' : state) (this : positive) (base : table.SelectBuilder.t)
    (offset : number) (r : table.step) (c : table.cursor) :
  table.heap Net s !! this = Some base ->
  turn this offset s = (r, c, s') ->
  exists n, s' = after_turn s base offset n.
Proof.
  intros Hthis. rewrite (turn_unfold s this base offset Hthis).
  destruct (request_rows (spec.page_url base offset) (table.net Net s))
    as [[e | batch] n].
  - intros [= _ _ <-]. exists n. reflexivity.
  - destruct (length batch =? 0)%nat; intros [= _ _ <-]; exists n; reflexivity.
Qed.

Lemma next_cases (g : table.generator) (s : state) (base : table.SelectBuilder.t) :
  table.heap Net s !! table.this g = Some base ->
  next g s
  = match table.position g with
    | table.Finished => (table.Return, g, s)
    | table.AtStart =>
        let '(r, c, s') :=
          turn (table.this g) (table.skip_or_zero (table.SelectBuilder.options base)) s in
        (r, {| table.this := table.this g; table.position := c |}, s')
    | table.Suspended offset batch_length =>
        if (batch_length <? 500)%nat then
          (table.Return,
           {| table.this := table.this g; table.position := table.Finished |}, s)
        else
          let '(r, c, s') := turn (table.this g) (num_add offset (num 500)) s in
          (r, {| table.this := table.this g; table.position := c |}, s')
    end.
Proof.
  intros Hthis. subst next. unfold table.next.
  destruct (table.position g); [ | reflexivity | reflexivity ].
  rewrite (deref_some Net s _ base Hthis). reflexivity.
Qed.

(** The frame of a state change: objects that existed are untouched, and
    whatever is new is a clone of [base] made for some page. *)
Let framed (base : table.SelectBuilder.t) (s s' : state) : Prop :=
  (forall l b, table.heap Net s !! l = Some b -> table.heap Net s' !! l = Some b)
  /\ (forall l c, table.heap Net s !! l = None -> table.heap Net s' !! l = Some c ->
        exists offset, c = clone base offset)
  /\ (exists offsets,
        table.log Net s' = table.log Net s ++ map (spec.page_url base) offsets).

Lemma framed_refl (base : table.SelectBuilder.t) (s : state) : framed base s s.
Proof.
  split; [ auto | split ].
  - intros l c Hnone Hsome. congruence.
  - exists []. simpl. symmetry. apply app_nil_r.
Qed.

Lemma framed_trans (base : table.SelectBuilder.t) (s1 s2 s3 : state) :
  framed base s1 s2 -> framed base s2 s3 -> framed base s1 s3.
Proof.
  intros (Hk1 & Hn1 & [o1 Hl1]) (Hk2 & Hn2 & [o2 Hl2]). split; [ | split ].
  - intros l b Hl. apply Hk2, Hk1, Hl.
  - intros l c Hnone Hsome.
    destruct (table.heap Net s2 !! l) as [c2 | ] eqn:Hmid.
    + destruct (Hn1 l c2 Hnone Hmid) as [offset ->]. exists offset.
      apply Hk2 in Hmid. congruence.
    + apply (Hn2 l c Hmid Hsome).
  - exists (o1 ++ o2). rewrite Hl2, Hl1, map_app, app_assoc. reflexivity.
Qed.

Lemma framed_after_turn (base : table.SelectBuilder.t) (s : state)
    (offset : number) (n : Net) :
  framed base s (after_turn s base offset n).
Proof.
  split; [ | split ].
  - intros l b Hl. apply after_turn_keeps. exact Hl.
  - intros l c Hnone Hsome. exists offset.
    apply (after_turn_adds s base c offset n l Hnone Hsome).
  - exists [offset]. reflexivity.
Qed.

Lemma next_framed (g g' : table.generator) (s s' : state)
    (base : table.SelectBuilder.t) (r : table.step) :
  table.heap Net s !! table.this g = Some base ->
  next g s = (r, g', s') ->
  table.this g' = table.this g /\ framed base s s'.
Proof.
  intros Hthis. rewrite (next_cases g s base Hthis).
  destruct (table.position g) as [ | offset len | ].
  - destruct (turn _ _ s) as [[r1 c1] s1] eqn:Hturn. intros [= _ <- <-].
    split; [ reflexivity | ].
    destruct (turn_state _ _ _ _ _ _ _ Hthis Hturn) as [n ->].
    apply framed_after_turn.
  - destruct (len <? 500)%nat.
    + intros [= _ <- <-]. split; [ reflexivity | apply framed_refl ].
    + destruct (turn _ _ s) as [[r1 c1] s1] eqn:Hturn. intros [= _ <- <-].
      split; [ reflexivity | ].
      destruct (turn_state _ _ _ _ _ _ _ Hthis Hturn) as [n ->].
      apply framed_after_turn.
  - intros [= _ <- <-]. split; [ reflexivity | apply framed_refl ].
Qed.

Lemma drain_framed (fuel : nat) (g g' : table.generator) (s s' : state)
    (base : table.SelectBuilder.t) (pages : list (list json)) (r : option table.step) :
  table.heap Net s !! table.this g = Some base ->
  drain fuel g s = (pages, r, g', s') ->
  table.this g' = table.this g /\ framed base s s'.
Proof.
  revert g g' s s' pages r.
  induction fuel as [ | fuel IH ]; intros g g' s s' pages r Hthis.
  - intros [= _ _ <- <-]. split; [ reflexivity | apply framed_refl ].
  - subst drain. simpl. fold (table.drain Net request_rows).
    destruct (table.next Net request_rows g s) as [[r1 g1] s1] eqn:Hnext.
    destruct (next_framed g g1 s s1 base r1 Hthis Hnext) as [Hg1 Hf1].
    destruct r1 as [batch | | e].
    + destruct (table.drain Net request_rows fuel g1 s1) as [[[ps r2] g2] s2] eqn:Hrest.
      intros [= _ _ <- <-].
      assert (table.heap Net s1 !! table.this g1 = Some base) as Hthis1.
      { rewrite Hg1. apply (proj1 Hf1). exact Hthis. }
      destruct (IH g1 g2 s1 s2 ps r2 Hthis1 Hrest) as [Hg2 Hf2].
      split; [ congruence | apply (framed_trans base s s1 s2 Hf1 Hf2) ].
    + intros [= _ _ <- <-]. split; [ exact Hg1 | exact Hf1 ].
    + intros [= _ _ <- <-]. split; [ exact Hg1 | exact Hf1 ].
Qed.

(** C9.  However many batches are pulled from the generator, the base
    builder is as it was, and so is every other object that existed; the
    only new objects are clones of the base that carry its client, table,
    columns, filter and sort and differ in [skip] and [top] alone; every
    URL requested is the URL of such a clone. *)
Theorem selectAll_leaves_builder_unchanged (fuel : nat) (s s' : state)
    (this : positive) (base : table.SelectBuilder.t)
    (pages : list (list json)) (r : option table.step) (g' : table.generator) :
  table.heap Net s !! this = Some base ->
  table.drain Net request_rows fuel (table.selectAll this) s = (pages, r, g', s') ->
  table.heap Net s' !! this = Some base
  /\ (forall l b, table.heap Net s !! l = Some b -> table.heap Net s' !! l = Some b)
  /\ (forall l c, table.heap Net s !! l = None -> table.heap Net s' !! l = Some c ->
        exists offset,
          c = table.with_options base
                (table.spread_paging (table.SelectBuilder.options base) offset (num 500))
          /\ table.SelectBuilder.client c = table.SelectBuilder.client base
          /\ table.SelectBuilder.tableName c = table.SelectBuilder.tableName base
          /\ types.columns (table.SelectBuilder.options c)
             = types.columns (table.SelectBuilder.options base)
          /\ types.filter (table.SelectBuilder.options c)
             = types.filter (table.SelectBuilder.options base)
          /\ types.sortColumn (table.SelectBuilder.options c)
             = types.sortColumn (table.SelectBuilder.options base)
          /\ types.sortDirection (table.SelectBuilder.options c)
             = types.sortDirection (table.SelectBuilder.options base)
          /\ types.skip (table.SelectBuilder.options c) = Some offset
          /\ types.top (table.SelectBuilder.options c) = Some (num 500))
  /\ (exists offsets,
        table.log Net s' = table.log Net s
          ++ map (fun offset =>
                    table.select_url
                      (table.with_options base
                         (table.spread_paging (table.SelectBuilder.options base)
                            offset (num 500)))) offsets).
Proof.
  intros Hthis Hdrain.
  destruct (drain_framed fuel (table.selectAll this) g' s s' base pages r Hthis Hdrain)
    as (_ & Hkeep & Hnew & Hlog).
  split; [ apply Hkeep, Hthis | ]. split; [ exact Hkeep | ]. split; [ | exact Hlog ].
  intros l c Hnone Hsome. destruct (Hnew l c Hnone Hsome) as [offset ->].
  exists offset. repeat split.
Qed.

Lemma skip_or_zero_start (o : types.SelectOptions) :
  types.skip o <> Some NaN -> table.skip_or_zero o = spec.start_offset o.
Proof.
  unfold table.skip_or_zero, spec.start_offset.
  destruct (types.skip o) as [ [ | neg | q ] | ]; simpl; try reflexivity.
  - intros Hnan. congruence.
  - intros _. destruct (decide (q = Qc_of_Z 0)) as [-> | Hq].
    + reflexivity.
    + rewrite bool_decide_eq_false_2 by exact Hq. reflexivity.
Qed.


(** A generator about to run a turn of the loop with the local [offset]. *)
Let resumes (g : table.generator) (base : table.SelectBuilder.t) (offset : number)
  : Prop :=
  forall s, table.heap Net s !! table.this g = Some base ->
    next g s
    = let '(r, c, s') := turn (table.this g) offset s in
      (r, {| table.this := table.this g; table.position := c |}, s').

Lemma resumes_after_full_page (this : positive) (base : table.SelectBuilder.t)
    (offset : number) (len : nat) :
  (len <? 500)%nat = false ->
  resumes {| table.this := this; table.position := table.Suspended offset len |}
    base (num_add offset spec.pageSize).
Proof.
  intros Hlen s Hthis. rewrite (next_cases _ s base Hthis).
  cbn [table.position table.this]. rewrite Hlen. reflexivity.
Qed.

Lemma returns_after_short_page (this : positive) (offset : number) (len : nat)
    (s : state) :
  (len <? 500)%nat = true ->
  next {| table.this := this; table.position := table.Suspended offset len |} s
  = (table.Return, {| table.this := this; table.position := table.Finished |}, s).
Proof.
  intros Hlen. subst next. unfold table.next. cbn [table.position table.this].
  change table.batchSize with 500%nat. rewrite Hlen. reflexivity.
Qed.

Lemma drain_yield (fuel : nat) (g g1 : table.generator) (s s1 : state)
    (batch : list json) :
  next g s = (table.Yield batch, g1, s1) ->
  drain (S fuel) g s
  = let '(pages, r, g2, s2) := drain fuel g1 s1 in (batch :: pages, r, g2, s2).
Proof. intros Hnext. subst drain next. simpl. rewrite Hnext. reflexivity. Qed.

Lemma drain_return (fuel : nat) (g g1 : table.generator) (s s1 : state) :
  next g s = (table.Return, g1, s1) ->
  drain (S fuel) g s = ([], Some table.Return, g1, s1).
Proof. intros Hnext. subst drain next. simpl. rewrite Hnext. reflexivity. Qed.

Lemma drain_throw (fuel : nat) (g g1 : table.generator) (s s1 : state) (e : exn) :
  next g s = (table.Throw e, g1, s1) ->
  drain (S fuel) g s = ([], Some (table.Throw e), g1, s1).
Proof. intros Hnext. subst drain next. simpl. rewrite Hnext. reflexivity. Qed.

Lemma drain_follows (rounds : nat) (base : table.SelectBuilder.t) :
  forall (g : table.generator) (s : state) (offset : number)
         (pages : list (list json)) (r : option table.step) (net' : Net)
         (urls : list string),
    table.heap Net s !! table.this g = Some base ->
    resumes g base offset ->
    paginate rounds base offset (table.net Net s) = (pages, r, net', urls) ->
    exists g' s',
      drain (match r with Some _ => S rounds | None => rounds end) g s
      = (pages, r, g', s')
      /\ (forall outcome, r = Some outcome -> table.position g' = table.Finished)
      /\ table.net Net s' = net'
      /\ table.log Net s' = table.log Net s ++ urls.
Proof.
  induction rounds as [ | rounds IH ];
    intros g s offset pages r net' urls Hthis Hres.
  - intros [= <- <- <- <-]. exists g, s.
    repeat split; [ discriminate | symmetry; apply app_nil_r ].
  - subst paginate. simpl. fold (spec.paginate Net request_rows).
    pose proof (turn_unfold s (table.this g) base offset Hthis) as Hturn.
    pose proof (Hres s Hthis) as Hnext. rewrite Hturn in Hnext. clear Hturn.
    destruct (request_rows (spec.page_url base offset) (table.net Net s))
      as [[e | [ | row page]] n].
    + intros [= <- <- <- <-]. eexists _, _.
      rewrite (drain_throw _ _ _ _ _ _ Hnext). repeat split.
    + intros [= <- <- <- <-]. eexists _, _.
      rewrite (drain_return _ _ _ _ _ Hnext). repeat split.
    + change (length (row :: page) =? 0)%nat with false in Hnext.
      cbv iota in Hnext.
      set (g1 := {| table.this := table.this g;
                    table.position := table.Suspended offset (length (row :: page)) |})
        in Hnext.
      set (s1 := after_turn s base offset n) in Hnext.
      assert (table.heap Net s1 !! table.this g1 = Some base) as Hthis1
        by (apply after_turn_keeps; exact Hthis).
      destruct (length (row :: page) <? 500)%nat eqn:Hlen.
      * intros [= <- <- <- <-].
        exists {| table.this := table.this g; table.position := table.Finished |}, s1.
        rewrite (drain_yield _ _ _ _ _ _ Hnext).
        pose proof (returns_after_short_page (table.this g) offset _ s1 Hlen) as Hret.
        fold g1 in Hret. rewrite (drain_return rounds _ _ _ _ Hret). repeat split.
      * destruct (spec.paginate Net request_rows rounds base
                    (num_add offset spec.pageSize) n)
          as [[[pages' r'] net''] urls'] eqn:Hrec.
        intros [= <- <- <- <-].
        destruct (IH g1 s1 (num_add offset spec.pageSize) pages' r' net'' urls'
                    Hthis1 (resumes_after_full_page _ base offset _ Hlen) Hrec)
          as (g2 & s2 & Hdrain & Hfin & Hnet & Hlog).
        exists g2, s2. split; [ | split; [ exact Hfin | split; [ exact Hnet | ] ] ].
        -- destruct r' as [outcome | ];
             rewrite (drain_yield _ _ _ _ _ _ Hnext), Hdrain; reflexivity.
        -- rewrite Hlog. subst s1 after_turn. cbn [table.log].
           rewrite <- app_assoc. reflexivity.
Qed.




End pagination_properties.



Lemma selectAll_leaves_builder_unchanged_witness :
  table.heap nat toy.short_run.2 !! 1%positive = Some toy.builder0
  /\ (exists offsets,
        table.log nat toy.short_run.2
        = table.log nat toy.paged_state
          ++ map (fun offset =>
                    table.select_url
                      (table.with_options toy.builder0
                         (table.spread_paging (table.SelectBuilder.options toy.builder0)
                            offset (num 500)))) offsets).
Proof.
  destruct (selectAll_leaves_builder_unchanged nat (toy.backend 1 137) 3
              toy.paged_state toy.short_run.2 1%positive toy.builder0
              toy.short_run.1.1.1 toy.short_run.1.1.2 toy.short_run.1.2)
    as (Hbase & _ & _ & Hlog).
  - reflexivity.
  - change (toy.short_run
            = (toy.short_run.1.1.1, toy.short_run.1.1.2, toy.short_run.1.2,
               toy.short_run.2)).
    destruct toy.short_run as [[[pages r] g] s]. reflexivity.
  - split; [ exact Hbase | exact Hlog ].
Defined.

(** P2: 500, 500, then nothing: two batches, three requests. *)
Example exact_page_needs_a_probe :
  let '(pages, r, _, s) :=
    table.drain nat (toy.backend 2 0) 10 (table.selectAll 1%positive) toy.paged_state in
  (map length pages, r, length (table.log nat s), table.net nat s)
  = ([500; 500]%nat, Some table.Return, 3%nat, 3%nat).
Proof. vm_compute. reflexivity. Qed.

(** P3: 500, then 137: two batches, two requests. *)
Example short_page_ends_without_probe :
  let '(pages, r, _, s) :=
    table.drain nat (toy.backend 1 137) 10 (table.selectAll 1%positive) toy.paged_state in
  (map length pages, r, table.log nat s)
  = ([500; 137]%nat, Some table.Return,
     ["https://www.teamdesk.net/secure/api/v2/15331/secret/Orders/select.json?top=500&skip=0";
      "https://www.teamdesk.net/secure/api/v2/15331/secret/Orders/select.json?top=500&skip=500"]%string).
Proof. vm_compute. reflexivity. Qed.


(** ** The cache fallback *)

Lemma sixty_thousand_positive : (Qc_of_Z 0 < Qc_of_Z 60000)%Qc.
Proof. apply (proj1 (Z2Qc_inj_lt 0 60000)). lia. Qed.

(** [ms / 1000 / 60] is the number of minutes: 60000 of it make [ms]. *)
Lemma minutes_value (ms : Z) :
  exists age : Qc,
    cache.minutes ms = Finite age /\ (age * Qc_of_Z 60000 = Qc_of_Z ms)%Qc.
Proof.
  exists (Qc_of_Z ms / Qc_of_Z 1000 / Qc_of_Z 60)%Qc. split; [ reflexivity | ].
  change 60000 with (1000 * 60). rewrite Z2Qc_inj_mul.
  field. split; intros Hz; rewrite <- Z2Qc_inj_0 in Hz;
    apply Z2Qc_inj in Hz; discriminate Hz.
Qed.

(** The sign of an age is the sign of the time that has passed. *)
Lemma age_sign (age : Qc) (ms : Z) :
  (age * Qc_of_Z 60000 = Qc_of_Z ms)%Qc -> (0 <= ms <-> (0 <= age)%Qc).
Proof.
  intros Hage. rewrite (Z2Qc_inj_le 0 ms), <- Hage.
  rewrite Z2Qc_inj_0. split.
  - intros Hle. apply (Qcmult_lt_0_le_reg_r _ _ (Qc_of_Z 60000)).
    + apply sixty_thousand_positive.
    + rewrite Qcmult_0_l. exact Hle.
  - intros Hle. rewrite <- (Qcmult_0_l (Qc_of_Z 60000)).
    apply Qcmult_le_compat_r;
      [ exact Hle | apply Qclt_le_weak, sixty_thousand_positive ].
Qed.

Section cache_properties.
Context `{Platform}.
Context {W : Type} `{cache.Deno W}.

(** [loadFromCache] never throws. *)
Lemma loadFromCache_total (cacheDir key : string) (w : W) :
  exists v w', cache.loadFromCache cacheDir key w = (inr v, w').
Proof.
  unfold cache.loadFromCache, try_catch, bind, ret, throw.
  destruct (cache.readTextFile _ w) as [[e | content] w']; [ eauto | ].
  destruct (JSON_parse content); eauto.
Qed.

Lemma loadFromCache_reads (cacheDir key content : string) (v : json) (w w' : W) :
  cache.readTextFile (cache.file_path cacheDir key) w = (inr content, w') ->
  JSON_parse content = Some v ->
  cache.loadFromCache cacheDir key w = (inr v, w').
Proof.
  intros Hread Hparse. unfold cache.loadFromCache, try_catch, bind.
  rewrite Hread, Hparse. reflexivity.
Qed.

Lemma loadFromCache_missing (cacheDir key : string) (e : exn) (w w' : W) :
  cache.readTextFile (cache.file_path cacheDir key) w = (inl e, w') ->
  cache.loadFromCache cacheDir key w = (inr JNull, w').
Proof.
  intros Hread. unfold cache.loadFromCache, try_catch, bind.
  rewrite Hread. reflexivity.
Qed.

Lemma loadFromCache_corrupt (cacheDir key content : string) (w w' : W) :
  cache.readTextFile (cache.file_path cacheDir key) w = (inr content, w') ->
  JSON_parse content = None ->
  cache.loadFromCache cacheDir key w = (inr JNull, w').
Proof.
  intros Hread Hparse. unfold cache.loadFromCache, try_catch, bind.
  rewrite Hread, Hparse. reflexivity.
Qed.

Lemma getCacheInfo_stamped (cacheDir key : string) (m now : Z) (w w' w'' : W) :
  cache.stat (cache.file_path cacheDir key) w = (inr {| cache.mtime := Some m |}, w') ->
  cache.Date_now w' = (now, w'') ->
  cache.getCacheInfo cacheDir key w
  = (inr (Some {| cache.ageInMinutes := cache.minutes (now - m);
                  cache.modifiedAt := m |}), w'').
Proof.
  intros Hstat Hnow. unfold cache.getCacheInfo, try_catch, bind, ret.
  rewrite Hstat. simpl. rewrite Hnow. reflexivity.
Qed.

Lemma getCacheInfo_unstamped (cacheDir key : string) (t1 t2 : Z) (w w1 w2 w3 : W) :
  cache.stat (cache.file_path cacheDir key) w = (inr {| cache.mtime := None |}, w1) ->
  cache.Date_now w1 = (t1, w2) ->
  cache.Date_now w2 = (t2, w3) ->
  cache.getCacheInfo cacheDir key w
  = (inr (Some {| cache.ageInMinutes := cache.minutes (t2 - t1);
                  cache.modifiedAt := t1 |}), w3).
Proof.
  intros Hstat Hfirst Hsecond. unfold cache.getCacheInfo, try_catch, bind, ret.
  rewrite Hstat. simpl. rewrite Hfirst, Hsecond. reflexivity.
Qed.

Lemma getCacheInfo_no_stat (cacheDir key : string) (e : exn) (w w1 : W) :
  cache.stat (cache.file_path cacheDir key) w = (inl e, w1) ->
  cache.getCacheInfo cacheDir key w = (inr None, w1).
Proof.
  intros Hstat. unfold cache.getCacheInfo, try_catch, bind, ret.
  rewrite Hstat. reflexivity.
Qed.

Lemma getCacheInfo_total (cacheDir key : string) (w : W) :
  exists info w', cache.getCacheInfo cacheDir key w = (inr info, w').
Proof.
  unfold cache.getCacheInfo, try_catch, bind, ret.
  destruct (cache.stat _ w) as [[e1 | st] w']; [ eauto | ].
  destruct (cache.mtime st); [ | destruct (cache.Date_now w') ];
    destruct (cache.Date_now _); eauto.
Qed.

(** A failed fetcher hands over to the [catch] block. *)
Lemma fetchWithCache_failed_fetch (cacheDir key : string) (fetcher : M W json)
    (error : exn) (w w1 : W) :
  fetcher w = (inl error, w1) ->
  cache.fetchWithCache cacheDir key fetcher w = cache.fallback cacheDir key error w1.
Proof.
  intros Hfetch. unfold cache.fetchWithCache, try_catch, bind.
  rewrite Hfetch. reflexivity.
Qed.

Lemma fallback_truthy (cacheDir key : string) (error : exn) (cached : json)
    (info : option cache.CacheInfo) (w w1 w2 : W) :
  cache.loadFromCache cacheDir key w = (inr cached, w1) ->
  truthy cached = true ->
  cache.getCacheInfo cacheDir key w1 = (inr info, w2) ->
  cache.fallback cacheDir key error w
  = (inr {| cache.data := cached; cache.fromCache := true;
            cache.cacheAge := cache.ageInMinutes <$> info |}, w2).
Proof.
  intros Hload Htruthy Hinfo. unfold cache.fallback, bind.
  rewrite Hload, Htruthy, Hinfo. reflexivity.
Qed.

Lemma fallback_falsy (cacheDir key : string) (error : exn) (cached : json) (w w1 : W) :
  cache.loadFromCache cacheDir key w = (inr cached, w1) ->
  truthy cached = false ->
  cache.fallback cacheDir key error w = (inl error, w1).
Proof.
  intros Hload Hfalsy. unfold cache.fallback, bind.
  rewrite Hload, Hfalsy. reflexivity.
Qed.

(** C5, as the code has it.  When the fetcher fails and the snapshot of
    the key can be read and parses to a truthy value, the result is always
    that value with [fromCache: true].  Its [cacheAge] is absent when
    [stat] fails on the file; otherwise it is the time from the
    modification time to the clock, in minutes (60000 ms each), which is
    not negative exactly when the modification time is not ahead of the
    clock; for a file without a modification time the clock is read in
    its place.  When no snapshot can be read, or its text is not JSON, or
    it is [null], the fetcher's own failure is thrown again, unchanged. *)
Theorem fetchWithCache_falls_back (cacheDir key : string) (fetcher : M W json)
    (error : exn) (w w1 : W) :
  fetcher w = (inl error, w1) ->
  let path := cache.file_path cacheDir key in
  let outcome := cache.fetchWithCache cacheDir key fetcher w in
  let cached v age :=
    inr {| cache.data := v; cache.fromCache := true; cache.cacheAge := age |} in
  (forall content v w2,
      cache.readTextFile path w1 = (inr content, w2) ->
      JSON_parse content = Some v ->
      truthy v = true ->
      (exists age w', outcome = (cached v age, w'))
      /\ (forall e w3,
            cache.stat path w2 = (inl e, w3) -> outcome = (cached v None, w3))
      /\ (forall m now w3 w4,
            cache.stat path w2 = (inr {| cache.mtime := Some m |}, w3) ->
            cache.Date_now w3 = (now, w4) ->
            exists age : Qc,
              outcome = (cached v (Some (Finite age)), w4)
              /\ (age * Qc_of_Z 60000 = Qc_of_Z (now - m))%Qc
              /\ (m <= now <-> (0 <= age)%Qc))
      /\ (forall t1 t2 w3 w4 w5,
            cache.stat path w2 = (inr {| cache.mtime := None |}, w3) ->
            cache.Date_now w3 = (t1, w4) ->
            cache.Date_now w4 = (t2, w5) ->
            exists age : Qc,
              outcome = (cached v (Some (Finite age)), w5)
              /\ (age * Qc_of_Z 60000 = Qc_of_Z (t2 - t1))%Qc))
  /\ (forall e w2,
        cache.readTextFile path w1 = (inl e, w2) -> outcome = (inl error, w2))
  /\ (forall content w2,
        cache.readTextFile path w1 = (inr content, w2) ->
        JSON_parse content = None \/ JSON_parse content = Some JNull ->
        outcome = (inl error, w2)).
Proof.
  intros Hfetch path outcome cached. subst path outcome cached.
  rewrite (fetchWithCache_failed_fetch cacheDir key fetcher error w w1 Hfetch).
  split; [ | split ].
  - intros content v w2 Hread Hparse Htruthy.
    pose proof (loadFromCache_reads _ _ content v w1 w2 Hread Hparse) as Hload.
    split; [ | split; [ | split ] ].
    + destruct (getCacheInfo_total cacheDir key w2) as (info & w' & Hinfo).
      exists (cache.ageInMinutes <$> info), w'.
      apply (fallback_truthy cacheDir key error v info w1 w2 w'); assumption.
    + intros e w3 Hstat.
      apply (fallback_truthy cacheDir key error v None w1 w2 w3);
        [ exact Hload | exact Htruthy | ].
      apply (getCacheInfo_no_stat _ _ e). exact Hstat.
    + intros m now w3 w4 Hstat Hnow.
      destruct (minutes_value (now - m)) as (age & Hminutes & Hage).
      exists age. split; [ | split; [ exact Hage | ] ].
      * rewrite <- Hminutes.
        apply (fallback_truthy cacheDir key error v
                 (Some {| cache.ageInMinutes := cache.minutes (now - m);
                          cache.modifiedAt := m |}) w1 w2 w4);
          [ exact Hload | exact Htruthy | ].
        apply (getCacheInfo_stamped _ _ m now w2 w3 w4); assumption.
      * rewrite <- (age_sign age (now - m) Hage). lia.
    + intros t1 t2 w3 w4 w5 Hstat Hfirst Hsecond.
      destruct (minutes_value (t2 - t1)) as (age & Hminutes & Hage).
      exists age. split; [ | exact Hage ].
      rewrite <- Hminutes.
      apply (fallback_truthy cacheDir key error v
               (Some {| cache.ageInMinutes := cache.minutes (t2 - t1);
                        cache.modifiedAt := t1 |}) w1 w2 w5);
        [ exact Hload | exact Htruthy | ].
      apply (getCacheInfo_unstamped _ _ t1 t2 w2 w3 w4 w5); assumption.
  - intros e w2 Hread.
    apply (fallback_falsy cacheDir key error JNull w1 w2); [ | reflexivity ].
    apply (loadFromCache_missing _ _ e). exact Hread.
  - intros content w2 Hread [Hparse | Hparse];
      apply (fallback_falsy cacheDir key error JNull w1 w2); try reflexivity.
    + apply (loadFromCache_corrupt _ _ content); assumption.
    + apply (loadFromCache_reads _ _ content); assumption.
Qed.

(** C6, as the code has it.  When the fetcher succeeds and the snapshot
    is written, the result is the fetched data with [fromCache: false].
    When writing fails, the failure enters the same [catch] block as a
    failed fetch: the fetched data is dropped, and the result is the
    earlier snapshot with [fromCache: true] if one loads to a truthy
    value, and the failure of the write if none loads. *)
Theorem fetchWithCache_after_fetch (cacheDir key : string) (fetcher : M W json)
    (fetched : json) (w w1 : W) :
  fetcher w = (inr fetched, w1) ->
  (forall w2,
      cache.saveToCache cacheDir key fetched w1 = (inr tt, w2) ->
      cache.fetchWithCache cacheDir key fetcher w
      = (inr {| cache.data := fetched; cache.fromCache := false;
                cache.cacheAge := None |}, w2))
  /\ (forall e w2,
        cache.saveToCache cacheDir key fetched w1 = (inl e, w2) ->
        cache.fetchWithCache cacheDir key fetcher w = cache.fallback cacheDir key e w2)
  /\ (forall e w2 cached w3,
        cache.saveToCache cacheDir key fetched w1 = (inl e, w2) ->
        cache.loadFromCache cacheDir key w2 = (inr cached, w3) ->
        (cached = JNull ->
           cache.fetchWithCache cacheDir key fetcher w = (inl e, w3))
        /\ (truthy cached = true ->
              exists info w4,
                cache.getCacheInfo cacheDir key w3 = (inr info, w4)
                /\ cache.fetchWithCache cacheDir key fetcher w
                   = (inr {| cache.data := cached; cache.fromCache := true;
                             cache.cacheAge := cache.ageInMinutes <$> info |}, w4))).
Proof.
  intros Hfetch.
  assert (forall e w2,
            cache.saveToCache cacheDir key fetched w1 = (inl e, w2) ->
            cache.fetchWithCache cacheDir key fetcher w
            = cache.fallback cacheDir key e w2) as Hfailed.
  { intros e w2 Hsave. unfold cache.fetchWithCache, try_catch, bind.
    rewrite Hfetch, Hsave. reflexivity. }
  split; [ | split; [ exact Hfailed | ] ].
  - intros w2 Hsave. unfold cache.fetchWithCache, try_catch, bind.
    rewrite Hfetch, Hsave. reflexivity.
  - intros e w2 cached w3 Hsave Hload. rewrite (Hfailed e w2 Hsave). split.
    + intros ->. apply (fallback_falsy _ _ _ JNull); [ assumption | reflexivity ].
    + intros Htruthy.
      assert (exists info w4, cache.getCacheInfo cacheDir key w3 = (inr info, w4))
        as (info & w4 & Hinfo).
      { unfold cache.getCacheInfo, try_catch, bind, ret.
        destruct (cache.stat _ w3) as [[e1 | st] w']; [ eauto | ].
        destruct (cache.mtime st); [ | destruct (cache.Date_now w') ];
          destruct (cache.Date_now _); eauto. }
      exists info, w4. split; [ exact Hinfo | ].
      apply (fallback_truthy _ _ _ cached info w2 w3 w4); assumption.
Qed.

End cache_properties.

(** The claim as the specification words it fails: a snapshot that holds
    [null] exists and is not returned ([null] is also what [loadFromCache]
    answers when there is no snapshot); and the test on the loaded value
    drops any falsy snapshot, such as the number 0. *)
Lemma null_or_falsy_snapshot_is_not_returned :
  toy.files (toy.disk_with "null" true) !! "cache/orders.json"%string
  = Some {| toy.content := "null"; toy.modified := 1000 |}
  /\ cache.fetchWithCache "cache" "orders" (throw toy.offline) (toy.disk_with "null" true)
     = (inl toy.offline, toy.disk_with "null" true)
  /\ cache.loadFromCache "cache" "orders" (toy.disk_with "0" true)
     = (inr (JNum (num 0)), toy.disk_with "0" true)
  /\ cache.fetchWithCache "cache" "orders" (throw toy.offline) (toy.disk_with "0" true)
     = (inl toy.offline, toy.disk_with "0" true).
Proof. repeat split; vm_compute; reflexivity. Qed.

Lemma fetchWithCache_falls_back_witness :
  (exists age : Qc,
     cache.fetchWithCache "cache" "orders" (throw toy.offline) (toy.disk_with "[]" true)
     = (inr {| cache.data := JArr []; cache.fromCache := true;
               cache.cacheAge := Some (Finite age) |},
        toy.disk_with "[]" true)
     /\ (age * Qc_of_Z 60000 = Qc_of_Z (61000 - 1000))%Qc
     /\ (1000 <= 61000 <-> (0 <= age)%Qc))
  /\ cache.fetchWithCache "cache" "orders" (throw toy.offline) (toy.empty_disk true)
     = (inl toy.offline, toy.empty_disk true)
  /\ cache.fetchWithCache "cache" "orders" (throw toy.offline) (toy.disk_with "{" true)
     = (inl toy.offline, toy.disk_with "{" true).
Proof.
  split; [ | split ].
  - destruct (fetchWithCache_falls_back "cache" "orders" (throw toy.offline)
                toy.offline (toy.disk_with "[]" true) (toy.disk_with "[]" true)
                eq_refl) as (Hsnapshot & _ & _).
    destruct (Hsnapshot "[]"%string (JArr []) (toy.disk_with "[]" true)
                eq_refl eq_refl eq_refl) as (_ & _ & Hstamped & _).
    apply (Hstamped 1000 61000 (toy.disk_with "[]" true) (toy.disk_with "[]" true));
      reflexivity.
  - destruct (fetchWithCache_falls_back "cache" "orders" (throw toy.offline)
                toy.offline (toy.empty_disk true) (toy.empty_disk true)
                eq_refl) as (_ & Hmissing & _).
    apply (Hmissing (JsError "NotFound" "No such file or directory (os error 2)")).
    reflexivity.
  - destruct (fetchWithCache_falls_back "cache" "orders" (throw toy.offline)
                toy.offline (toy.disk_with "{" true) (toy.disk_with "{" true)
                eq_refl) as (_ & _ & Hcorrupt).
    apply (Hcorrupt "{"%string); [ reflexivity | left; reflexivity ].
Defined.

(** The claim as the specification words it fails: on a disk that refuses
    writes the fetched data is lost.  With no earlier snapshot the caller
    gets the failure of the write; with one, the caller gets the earlier
    snapshot, flagged as coming from the cache. *)
Lemma failed_write_drops_fetched_data :
  cache.fetchWithCache "cache" "orders" (ret (JArr [])) (toy.empty_disk false)
  = (inl (JsError "PermissionDenied" "Permission denied (os error 13)"),
     toy.empty_disk false)
  /\ cache.fetchWithCache "cache" "orders" (ret (JBool true)) (toy.disk_with "[]" false)
     = (inr {| cache.data := JArr []; cache.fromCache := true;
               cache.cacheAge := Some (cache.minutes 60000) |},
        toy.disk_with "[]" false).
Proof. split; vm_compute; reflexivity. Qed.

Lemma fetchWithCache_after_fetch_witness :
  cache.fetchWithCache "cache" "orders" (ret (JArr [])) (toy.empty_disk true)
  = (inr {| cache.data := JArr []; cache.fromCache := false;
            cache.cacheAge := None |},
     (cache.saveToCache "cache" "orders" (JArr []) (toy.empty_disk true)).2)
  /\ cache.fetchWithCache "cache" "orders" (ret (JArr [])) (toy.empty_disk false)
     = cache.fallback "cache" "orders"
         (JsError "PermissionDenied" "Permission denied (os error 13)")
         (toy.empty_disk false)
  /\ cache.fetchWithCache "cache" "orders" (ret (JArr [])) (toy.empty_disk false)
     = (inl (JsError "PermissionDenied" "Permission denied (os error 13)"),
        toy.empty_disk false).
Proof.
  split; [ | split ].
  - destruct (fetchWithCache_after_fetch "cache" "orders" (ret (JArr [])) (JArr [])
                (toy.empty_disk true) (toy.empty_disk true) eq_refl)
      as (Hsaved & _ & _).
    apply Hsaved. vm_compute. reflexivity.
  - destruct (fetchWithCache_after_fetch "cache" "orders" (ret (JArr [])) (JArr [])
                (toy.empty_disk false) (toy.empty_disk false) eq_refl)
      as (_ & Hfailed & _).
    apply Hfailed. reflexivity.
  - destruct (fetchWithCache_after_fetch "cache" "orders" (ret (JArr [])) (JArr [])
                (toy.empty_disk false) (toy.empty_disk false) eq_refl)
      as (_ & _ & Hthen).
    destruct (Hthen (JsError "PermissionDenied" "Permission denied (os error 13)")
                (toy.empty_disk false) JNull (toy.empty_disk false)
                eq_refl eq_refl) as (Hnull & _).
    apply Hnull. reflexivity.
Defined.

(** ** Worked examples *)

Example reserved_characters_are_escaped :
  encodeURIComponent "a b&c%,d=é" = "a%20b%26c%25%2Cd%3D%C3%A9"%string.
Proof. reflexivity. Qed.

Example every_field_on_the_wire :
  table.buildQueryParams toy.busy_options
  = ("?column=First%20Name&column=a%2Cb"
     +:+ "&filter=%5BTotal%5D%3E1000%20and%20%5BCity%5D%3D'Z%C3%BCrich'"
     +:+ "&sort=Date%2F%2FDESC&top=100&skip=0")%string.
Proof. vm_compute. reflexivity. Qed.

Example every_field_read_back :
  spec.parse_query (table.buildQueryParams toy.busy_options)
  = Some [("column", "First Name"); ("column", "a,b");
          ("filter", "[Total]>1000 and [City]='Zürich'");
          ("sort", "Date//DESC"); ("top", "100"); ("skip", "0")]%string.
Proof. vm_compute. reflexivity. Qed.

(** P5 *)
Example limits_at_the_edges :
  map utils.validatePaginationLimit [num 0; num 501; num (-5); num 1; num 500]
  = [inl (new_Error "Limit must be at least 1");
     inl (new_Error "TeamDesk maximum limit is 500 records per request");
     inl (new_Error "Limit must be at least 1");
     inr (num 1); inr (num 500)].
Proof. vm_compute. reflexivity. Qed.

(** Scenario B *)
Example upsert_created_then_updated :
  fst (bind (table.upsert unit toy.created_then_updated toy.table0 []
               (Some "Email"%string) None)
         (fun results => ret (map types.action results)) toy.state0)
  = inr [types.created; types.updated]
  /\ table.log unit
       (snd (table.upsert unit toy.created_then_updated toy.table0 []
               (Some "Email"%string) None toy.state0))
     = ["https://www.teamdesk.net/secure/api/v2/15331/secret/Orders/upsert.json?match=Email&workflow=1"%string].
Proof. split; vm_compute; reflexivity. Qed.

(** P7: a call that succeeds, then one that fails a minute later. *)
Example snapshot_survives_an_outage :
  let '(first, disk) :=
    cache.fetchWithCache "cache" "orders" (ret (JArr [])) (toy.empty_disk true) in
  let later :=
    {| toy.files := toy.files disk; toy.clock := 121000; toy.writable := true |} in
  (first, fst (cache.fetchWithCache "cache" "orders" (throw toy.offline) later))
  = (inr {| cache.data := JArr []; cache.fromCache := false; cache.cacheAge := None |},
     inr {| cache.data := JArr []; cache.fromCache := true;
            cache.cacheAge := Some (cache.minutes 60000) |}).
Proof. vm_compute. reflexivity. Qed.

Example parseInt_reads_a_prefix : parseInt10 "  -42px" = num (-42).
Proof. vm_compute. reflexivity. Qed.

(** Past 2^53 not every integer is a double: 2^53 + 1 reads as 2^53, and
    2^53 + 3 as 2^53 + 4. *)
Example parseInt_rounds_to_a_double :
  parseInt10 "9007199254740993" = num 9007199254740992
  /\ parseInt10 "9007199254740995" = num 9007199254740996.
Proof. split; vm_compute; reflexivity. Qed.

Example bearer_constructor :
  client.new_TeamDeskClient toy.bearer_config = inr (toy.bearer_client "secret").
Proof. vm_compute. reflexivity. Qed.

(** * Further properties of the code *)

(** ** Error bodies and the message of the error *)

Lemma append_empty (s : string) : s +:+ "" = s.
Proof.
  induction s as [ | c s IH ]; [ reflexivity | ].
  change (String c (s +:+ "") = String c s). rewrite IH. reflexivity.
Qed.

Section error_text.
Context `{Platform}.

Lemma parse_items_entries (items : list json) (entries : list types.ApiError) :
  Forall2 reply.entry items entries -> map utils.parse_item items = entries.
Proof.
  induction 1 as [ | item entry items entries Hitem _ IH ]; [ reflexivity | ].
  simpl. rewrite IH. f_equal.
  destruct Hitem as [props column message Hcolumn Hmessage | s]; [ | reflexivity ].
  unfold utils.parse_item. rewrite Hcolumn, Hmessage.
  destruct column, message; reflexivity.
Qed.

(** X1.  The message and the details of the error for a body with an
    [errors] array.  The message is the prefix of the class followed by
    the text of each element, in order, joined by ["; "]: [column: message]
    for an element with a column that is not empty, the message alone
    otherwise, [Unknown error] for an element without a message.  A
    [ValidationError] and the generic [TeamDeskError] carry these entries
    as [details], the errors of the other classes carry none.  For the
    empty array the message is the prefix alone. *)
Theorem error_message_summarises_details (response : client.Response) (url : string)
    (props : list (string * json)) (items : list json)
    (entries : list types.ApiError) :
  client.json_ response = inr (JObj props) ->
  get_prop "errors" props = Some (JArr items) ->
  Forall2 reply.entry items entries ->
  let e := client.handleErrorResponse response url in
  let class := spec.class_of_status (client.status response) in
  let text (entry : types.ApiError) : string :=
    match types.column entry with
    | Some c =>
        if String.eqb c "" then types.message entry
        else c +:+ ": " +:+ types.message entry
    | None => types.message entry
    end in
  errors.name e = class
  /\ errors.message e = spec.prefix_of_class class +:+ join "; " (map text entries)
  /\ errors.details e
     = match class with
       | errors.ValidationError | errors.TeamDeskError => Some entries
       | _ => None
       end
  /\ (items = [] -> errors.message e = spec.prefix_of_class class).
Proof.
  intros Hjson Herrors Hitems e class text.
  assert (utils.parseErrorResponse (client.read_body response)
          = (join "; " (map text entries), entries)) as Hparsed.
  { unfold client.read_body. rewrite Hjson. simpl. rewrite Herrors. simpl.
    rewrite (parse_items_entries items entries Hitems). f_equal. f_equal.
    apply map_ext. intros [column message]. unfold utils.item_text, str_truthy.
    subst text. simpl. destruct column as [ c | ]; [ | reflexivity ].
    destruct (String.eqb c ""); reflexivity. }
  assert (errors.message e
          = spec.prefix_of_class class +:+ join "; " (map text entries)) as Hmessage.
  { subst e class. rewrite handleErrorResponse_message, Hparsed. reflexivity. }
  split; [ apply handleErrorResponse_name | ].
  split; [ exact Hmessage | ]. split.
  - subst e class. unfold client.handleErrorResponse, spec.class_of_status.
    rewrite Hparsed.
    repeat match goal with
           | |- context [decide ?P] => destruct (decide P)
           end;
    status_cases; reflexivity.
  - intros ->. inversion Hitems. subst entries.
    rewrite Hmessage. apply append_empty.
Qed.

End error_text.

Lemma error_message_summarises_details_witness :
  errors.message (client.handleErrorResponse toy.response422 "u")
  = "Validation failed: Email: is required; Row is locked"%string
  /\ errors.details (client.handleErrorResponse toy.response422 "u")
     = Some [ {| types.column := Some "Email"%string;
                 types.message := "is required" |};
              {| types.column := None; types.message := "Row is locked" |} ].
Proof.
  destruct (error_message_summarises_details (H := toy.platform) toy.response422 "u"
              _ _
              [ {| types.column := Some "Email"%string;
                   types.message := "is required" |};
                {| types.column := None; types.message := "Row is locked" |} ]
              eq_refl eq_refl)
    as (_ & Hmessage & Hdetails & _).
  - constructor; [ | constructor; [ | constructor ] ].
    + apply (reply.entry_object _ (Some "Email"%string) (Some "is required"%string));
        reflexivity.
    + apply (reply.entry_object _ None (Some "Row is locked"%string)); reflexivity.
  - split; [ exact Hmessage | exact Hdetails ].
Defined.

(** ** The client: credentials, slashes, headers and wrapped failures *)

Lemma str_truthy_nonempty (s : string) : str_truthy s = true -> s <> ""%string.
Proof. intros Htruthy ->. discriminate. Qed.

Lemma opt_truthy_some (o : option string) :
  opt_truthy o = true -> exists s, o = Some s /\ s <> ""%string.
Proof.
  destruct o as [ s | ]; [ | discriminate ].
  intros Htruthy. exists s. split; [ reflexivity | apply str_truthy_nonempty, Htruthy ].
Qed.

Lemma strip_trailing_slash_added (b : string) : strip_trailing_slash (b +:+ "/") = b.
Proof.
  induction b as [ | c b IH ]; [ reflexivity | ].
  change (String c b +:+ "/") with (String c (b +:+ "/")).
  destruct b as [ | d b ]; simpl in *; [ reflexivity | rewrite IH; reflexivity ].
Qed.

Lemma strip_trailing_slash_other (b : string) (c : ascii) :
  c <> "/"%char ->
  strip_trailing_slash (b +:+ String c "") = b +:+ String c "".
Proof.
  intros Hc. induction b as [ | d b IH ].
  - simpl. rewrite (proj2 (Ascii.eqb_neq c "/") Hc). reflexivity.
  - change (String d b +:+ String c "") with (String d (b +:+ String c "")).
    destruct b as [ | d' b ]; simpl in *; rewrite IH; reflexivity.
Qed.

Section client_more.
Context `{Platform}.

(** The client the constructor returns, field by field. *)
Lemma new_TeamDeskClient_fields (config : types.TeamDeskConfig)
    (c : client.TeamDeskClient) :
  client.new_TeamDeskClient config = inr c ->
  client.token c = types.token config
  /\ client.user c = types.user config
  /\ client.password c = types.password config
  /\ client.useBearerAuth c = default false (types.useBearerAuth config)
  /\ client.baseUrl c
     = strip_trailing_slash
         (if opt_truthy (types.baseUrl config) then opt_text (types.baseUrl config)
          else "https://www.teamdesk.net/secure/api/v2")
  /\ (opt_truthy (types.token config) = true
      \/ (opt_truthy (types.user config) = true
          /\ opt_truthy (types.password config) = true))
  /\ (client.useBearerAuth c = true -> opt_truthy (types.token config) = true).
Proof.
  unfold client.new_TeamDeskClient.
  destruct (negb (client.appId_truthy (types.appId config))); [ discriminate | ].
  destruct (opt_truthy (types.token config)) eqn:Htoken;
    destruct (opt_truthy (types.user config)) eqn:Huser;
    destruct (opt_truthy (types.password config)) eqn:Hpassword;
    destruct (default false (types.useBearerAuth config)) eqn:Hbearer;
    simpl; try discriminate; intros [= <-]; simpl; rewrite ?Hbearer;
    repeat split; auto; discriminate.
Qed.

(** X2.  A client the constructor accepted never writes [undefined] or an
    empty credential into a URL.  Outside bearer mode the URL is
    [baseUrl/appId/credential/path], and the credential is the token when
    one is configured (the token wins over a user and password given with
    it), else [user:password] with both parts present and not empty.  In
    bearer mode a token is always there for the header. *)
Theorem constructed_client_has_credentials (config : types.TeamDeskConfig)
    (c : client.TeamDeskClient) (path : string) :
  client.new_TeamDeskClient config = inr c ->
  (client.useBearerAuth c = true ->
     exists token, client.token c = Some token /\ token <> ""%string)
  /\ (client.useBearerAuth c = false ->
        exists credential,
          client.buildUrl c path
          = client.baseUrl c +:+ "/" +:+ client.appId c +:+ "/" +:+ credential +:+ "/"
            +:+ (if starts_with_slash path then slice1 path else path)
          /\ credential <> ""%string
          /\ ((types.token config = Some credential)
              \/ (opt_truthy (types.token config) = false
                  /\ exists user password,
                       types.user config = Some user /\ user <> ""%string
                       /\ types.password config = Some password
                       /\ password <> ""%string
                       /\ credential = user +:+ ":" +:+ password))).
Proof.
  intros Hnew.
  destruct (new_TeamDeskClient_fields config c Hnew)
    as (Htoken & Huser & Hpassword & _ & _ & Hgiven & Hbearer).
  split.
  - intros Hmode. rewrite Htoken. apply opt_truthy_some, Hbearer, Hmode.
  - intros Hmode. unfold client.buildUrl. rewrite Hmode, Htoken, Huser, Hpassword.
    destruct (opt_truthy (types.token config)) eqn:Htruthy.
    + destruct (opt_truthy_some _ Htruthy) as (token & Hsome & Hne).
      exists token. rewrite Hsome. simpl. repeat split; [ exact Hne | left; reflexivity ].
    + destruct Hgiven as [ Hgiven | [Hu Hp] ]; [ discriminate | ].
      destruct (opt_truthy_some _ Hu) as (user & Huser' & Hune).
      destruct (opt_truthy_some _ Hp) as (password & Hpassword' & Hpne).
      exists (user +:+ ":" +:+ password). rewrite Huser', Hpassword'. simpl.
      split; [ reflexivity | ]. split.
      * destruct user; [ congruence | discriminate ].
      * right. split; [ reflexivity | ]. exists user, password. repeat split; assumption.
Qed.

(** X3.  The parts of a URL are joined by single slashes: the constructor
    drops one slash from the end of a configured base URL (one only: of two,
    one stays) and leaves any other ending as it is, an absent or empty base
    URL is the TeamDesk default, and [buildUrl] drops one slash from the
    start of the path. *)
Theorem url_parts_join_with_one_slash (config : types.TeamDeskConfig)
    (c : client.TeamDeskClient) :
  client.new_TeamDeskClient config = inr c ->
  (forall b, types.baseUrl config = Some (b +:+ "/") -> client.baseUrl c = b)
  /\ (forall b ch, types.baseUrl config = Some (b +:+ String ch "") -> ch <> "/"%char ->
        client.baseUrl c = b +:+ String ch "")
  /\ (types.baseUrl config = None \/ types.baseUrl config = Some ""%string ->
        client.baseUrl c = "https://www.teamdesk.net/secure/api/v2"%string)
  /\ (forall path, starts_with_slash path = false ->
        client.buildUrl c (String "/" path) = client.buildUrl c path).
Proof.
  intros Hnew.
  destruct (new_TeamDeskClient_fields config c Hnew) as (_ & _ & _ & _ & Hbase & _).
  split; [ | split; [ | split ] ].
  - intros b Hb. rewrite Hbase, Hb.
    replace (opt_truthy (Some (b +:+ "/"))) with true
      by (destruct b; reflexivity).
    apply strip_trailing_slash_added.
  - intros b ch Hb Hch. rewrite Hbase, Hb.
    replace (opt_truthy (Some (b +:+ String ch ""))) with true
      by (destruct b; reflexivity).
    apply strip_trailing_slash_other, Hch.
  - intros [ Hb | Hb ]; rewrite Hbase, Hb; reflexivity.
  - intros path Hpath. unfold client.buildUrl. simpl. rewrite Hpath. reflexivity.
Qed.

(** [set_prop] on an object whose keys are distinct. *)
Lemma set_prop_keys (key value k : string) (props : list (string * string)) :
  In k (map fst (set_prop key value props)) <-> k = key \/ In k (map fst props).
Proof.
  induction props as [ | [k0 v0] props IH ]; simpl.
  - intuition congruence.
  - destruct (String.eqb_spec k0 key) as [ -> | Hne ]; simpl; [ intuition congruence | ].
    rewrite IH. intuition congruence.
Qed.

Lemma set_prop_distinct (key value : string) (props : list (string * string)) :
  List.NoDup (map fst props) -> List.NoDup (map fst (set_prop key value props)).
Proof.
  induction props as [ | [k0 v0] props IH ]; simpl.
  - intros _. constructor; [ intros [] | constructor ].
  - intros Hprops. apply List.NoDup_cons_iff in Hprops as [Hfresh Hprops].
    destruct (String.eqb_spec k0 key) as [ -> | Hne ]; simpl.
    + constructor; assumption.
    + constructor; [ | apply IH, Hprops ].
      rewrite set_prop_keys. intros [ -> | Hin ]; [ congruence | exact (Hfresh Hin) ].
Qed.

Lemma set_prop_at_key (key value v : string) (props : list (string * string)) :
  List.NoDup (map fst props) ->
  In (key, v) (set_prop key value props) -> v = value.
Proof.
  induction props as [ | [k0 v0] props IH ]; simpl.
  - intros _ [ [= <-] | [] ]. reflexivity.
  - intros Hprops. apply List.NoDup_cons_iff in Hprops as [Hfresh Hprops].
    destruct (String.eqb_spec k0 key) as [ -> | Hne ]; simpl.
    + intros [ [= <-] | Hin ]; [ reflexivity | ].
      exfalso. apply Hfresh. apply (in_map fst) in Hin. exact Hin.
    + intros [ [= Hk _] | Hin ]; [ congruence | apply IH; assumption ].
Qed.

Lemma set_prop_elsewhere (key value k v : string) (props : list (string * string)) :
  k <> key -> In (k, v) (set_prop key value props) <-> In (k, v) props.
Proof.
  intros Hk. induction props as [ | [k0 v0] props IH ]; simpl.
  - intuition congruence.
  - destruct (String.eqb_spec k0 key) as [ -> | Hne ]; simpl;
      [ | rewrite IH ]; intuition congruence.
Qed.

Lemma spread_distinct (base extra : list (string * string)) :
  List.NoDup (map fst base) -> List.NoDup (map fst (spread base extra)).
Proof.
  unfold spread. revert base.
  induction extra as [ | [k v] extra IH ]; intros base Hbase; simpl; [ exact Hbase | ].
  apply IH, set_prop_distinct, Hbase.
Qed.

(** A property of [{...base, ...extra}] that [extra] does not name is the
    one of [base]. *)
Lemma spread_unnamed (base extra : list (string * string)) (k v : string) :
  ~ In k (map fst extra) -> In (k, v) (spread base extra) <-> In (k, v) base.
Proof.
  unfold spread. revert base.
  induction extra as [ | [k0 v0] extra IH ]; intros base Hk; simpl; [ reflexivity | ].
  simpl in Hk. rewrite IH by tauto. apply set_prop_elsewhere. intros ->. tauto.
Qed.

Lemma set_prop_origin (key value k v : string) (props : list (string * string)) :
  In (k, v) (set_prop key value props) -> (k, v) = (key, value) \/ In (k, v) props.
Proof.
  induction props as [ | [k0 v0] props IH ]; simpl.
  - intros [ Heq | [] ]. left. congruence.
  - destruct (String.eqb_spec k0 key) as [ -> | Hne ]; simpl.
    + intros [ Heq | Hin ]; [ left; congruence | right; right; exact Hin ].
    + intros [ Heq | Hin ]; [ right; left; exact Heq | ].
      destruct (IH Hin) as [ Heq | Hrest ]; [ left; exact Heq | right; right; exact Hrest ].
Qed.

(** A property of [{...base, ...extra}] comes from [extra] or from [base]. *)
Lemma spread_origin (base extra : list (string * string)) (k v : string) :
  In (k, v) (spread base extra) -> In (k, v) extra \/ In (k, v) base.
Proof.
  unfold spread. revert base.
  induction extra as [ | [k0 v0] extra IH ]; intros base; simpl; [ tauto | ].
  intros Hin. destruct (IH _ Hin) as [ Hextra | Hbase ]; [ tauto | ].
  destruct (set_prop_origin _ _ _ _ _ Hbase) as [ Heq | Hold ]; [ | tauto ].
  left. left. congruence.
Qed.

(** A property of [extra] is a property of [{...base, ...extra}]. *)
Lemma spread_named (base extra : list (string * string)) (k v : string) :
  List.NoDup (map fst extra) -> In (k, v) extra -> In (k, v) (spread base extra).
Proof.
  unfold spread. revert base.
  induction extra as [ | [k0 v0] extra IH ]; intros base Hdistinct; simpl; [ tauto | ].
  apply List.NoDup_cons_iff in Hdistinct as [Hfresh Hdistinct].
  intros [ [= -> ->] | Hin ]; [ | apply IH; assumption ].
  apply (proj2 (spread_unnamed (set_prop k v base) extra k v Hfresh)).
  apply set_prop_in.
Qed.

(** X4.  The headers object [request] passes to [fetch].  In bearer mode
    its [Authorization] property is [Bearer <token>] and nothing else: a
    property of that exact name passed by the caller is replaced.  A
    header the caller passes under another spelling of the name
    ([authorization], say) is not replaced: it stays in the object beside
    the bearer value.  When the caller passes no other spelling, the
    bearer value is the only header of that name, letter case
    disregarded.  Outside bearer mode every header of that name is one the
    caller passed.  [Accept] and [Content-Type] are [application/json]
    unless the caller names them, and are the only headers of their names
    when the caller passes none under any spelling. *)
Theorem bearer_header_replaces_exact_name (config : types.TeamDeskConfig)
    (c : client.TeamDeskClient) (options : client.RequestInit) :
  client.new_TeamDeskClient config = inr c ->
  let sent := client.request_headers c options in
  let passed := default [] (client.headers options) in
  let bearer := "Bearer " +:+ opt_text (client.token c) in
  (client.useBearerAuth c = true ->
     forall v, In ("Authorization"%string, v) sent <-> v = bearer)
  /\ (client.useBearerAuth c = true -> List.NoDup (map fst passed) ->
        forall k v, k <> "Authorization"%string -> In (k, v) passed -> In (k, v) sent)
  /\ (client.useBearerAuth c = true ->
        (forall k, In k (map fst passed) -> header.same k "Authorization" = true ->
           k = "Authorization"%string) ->
        forall k v, In (k, v) sent -> header.same k "Authorization" = true ->
          k = "Authorization"%string /\ v = bearer)
  /\ (client.useBearerAuth c = false ->
        forall k v, In (k, v) sent -> header.same k "Authorization" = true ->
          In (k, v) passed)
  /\ (forall name, name = "Accept"%string \/ name = "Content-Type"%string ->
        ~ In name (map fst passed) ->
        forall v, In (name, v) sent <-> v = "application/json"%string)
  /\ (forall name, name = "Accept"%string \/ name = "Content-Type"%string ->
        (forall k, In k (map fst passed) -> header.same k name = false) ->
        forall k v, In (k, v) sent -> header.same k name = true ->
          k = name /\ v = "application/json"%string).
Proof.
  intros Hnew sent passed bearer.
  destruct (new_TeamDeskClient_fields config c Hnew)
    as (Htoken & _ & _ & _ & _ & _ & Hbearer).
  set (defaults := [("Accept", "application/json");
                    ("Content-Type", "application/json")]%string).
  assert (List.NoDup (map fst (spread defaults passed))) as Hdistinct.
  { apply spread_distinct. repeat constructor; simpl; intuition discriminate. }
  assert (client.useBearerAuth c = true ->
          sent = set_prop "Authorization" bearer (spread defaults passed)) as Hon.
  { intros Hmode. subst sent. unfold client.request_headers.
    pose proof (Hbearer Hmode) as Hgiven. rewrite <- Htoken in Hgiven.
    rewrite Hmode, Hgiven. reflexivity. }
  assert (client.useBearerAuth c = false -> sent = spread defaults passed) as Hoff.
  { intros Hmode. subst sent. unfold client.request_headers.
    rewrite Hmode. reflexivity. }
  assert (forall k v, In (k, v) sent ->
            (k, v) = ("Authorization"%string, bearer)
            \/ In (k, v) passed \/ In (k, v) defaults) as Horigin.
  { intros k v Hin.
    destruct (client.useBearerAuth c) eqn:Hmode.
    - rewrite (Hon eq_refl) in Hin.
      destruct (set_prop_origin _ _ _ _ _ Hin) as [ Heq | Hrest ]; [ tauto | ].
      right. apply spread_origin, Hrest.
    - rewrite (Hoff eq_refl) in Hin. right. apply spread_origin, Hin. }
  assert (client.useBearerAuth c = true ->
          forall v, In ("Authorization"%string, v) sent <-> v = bearer) as Hexact.
  { intros Hmode v. rewrite (Hon Hmode). split.
    - apply set_prop_at_key. exact Hdistinct.
    - intros ->. apply set_prop_in. }
  split; [ exact Hexact | ].
  split; [ | split; [ | split; [ | split ] ] ].
  - intros Hmode Hkeys k v Hk Hin. rewrite (Hon Hmode).
    apply (proj2 (set_prop_elsewhere _ _ _ _ _ Hk)).
    apply spread_named; assumption.
  - intros Hmode Hspelling k v Hin Hsame.
    assert (k = "Authorization"%string) as ->.
    { destruct (Horigin k v Hin) as [ [= -> _] | [ Hpassed | Hdefault ] ].
      - reflexivity.
      - apply Hspelling; [ | exact Hsame ]. apply (in_map fst) in Hpassed. exact Hpassed.
      - simpl in Hdefault.
        destruct Hdefault as [ [= <- _] | [ [= <- _] | [] ] ]; discriminate Hsame. }
    split; [ reflexivity | apply (Hexact Hmode), Hin ].
  - intros Hmode k v Hin Hsame.
    destruct (Horigin k v Hin) as [ [= -> ->] | [ Hpassed | Hdefault ] ].
    + rewrite (Hoff Hmode) in Hin.
      destruct (spread_origin _ _ _ _ Hin) as [ Hpassed | Hdefault ];
        [ exact Hpassed | ].
      simpl in Hdefault. destruct Hdefault as [ [=] | [ [=] | [] ] ].
    + exact Hpassed.
    + simpl in Hdefault.
      destruct Hdefault as [ [= <- _] | [ [= <- _] | [] ] ]; discriminate Hsame.
  - intros name Hname Hno v. subst sent. unfold client.request_headers.
    assert (name <> "Authorization"%string) as Hother
      by (destruct Hname as [ -> | -> ]; discriminate).
    assert (In (name, v) (spread defaults passed)
            <-> v = "application/json"%string) as Hdefault.
    { rewrite (spread_unnamed _ passed _ _ Hno). simpl.
      destruct Hname as [ -> | -> ]; intuition congruence. }
    destruct (client.useBearerAuth c && opt_truthy (client.token c));
      [ rewrite (set_prop_elsewhere _ _ _ _ _ Hother) | ]; exact Hdefault.
  - intros name Hname Hspelling k v Hin Hsame.
    destruct (Horigin k v Hin) as [ [= -> _] | [ Hpassed | Hdefault ] ].
    + destruct Hname as [ -> | -> ]; discriminate Hsame.
    + rewrite (Hspelling k (in_map fst _ _ Hpassed)) in Hsame.
      discriminate Hsame.
    + simpl in Hdefault.
      destruct Hdefault as [ [= <- <-] | [ [= <- <-] | [] ] ];
        destruct Hname as [ -> | -> ]; try discriminate Hsame; split; reflexivity.
Qed.

End client_more.

Lemma constructed_client_has_credentials_witness :
  exists credential,
    client.buildUrl samples.token_client "/Orders/select.json"
    = client.baseUrl samples.token_client +:+ "/" +:+ client.appId samples.token_client
      +:+ "/" +:+ credential +:+ "/" +:+ "Orders/select.json"
    /\ credential <> ""%string
    /\ ((types.token samples.token_config = Some credential)
        \/ (opt_truthy (types.token samples.token_config) = false
            /\ exists user password,
                 types.user samples.token_config = Some user /\ user <> ""%string
                 /\ types.password samples.token_config = Some password
                 /\ password <> ""%string
                 /\ credential = user +:+ ":" +:+ password)).
Proof.
  apply (constructed_client_has_credentials (H := toy.platform) samples.token_config
           samples.token_client "/Orders/select.json" eq_refl).
  reflexivity.
Defined.

Lemma url_parts_join_with_one_slash_witness :
  client.baseUrl samples.token_client = "https://pro.dbflex.net/secure/api/v2"%string
  /\ client.buildUrl samples.token_client "/describe.json"
     = client.buildUrl samples.token_client "describe.json".
Proof.
  destruct (url_parts_join_with_one_slash (H := toy.platform) samples.token_config
              samples.token_client eq_refl) as (Hbase & _ & _ & Hpath).
  split.
  - apply (Hbase "https://pro.dbflex.net/secure/api/v2"%string). reflexivity.
  - apply (Hpath "describe.json"%string). reflexivity.
Defined.

Lemma bearer_header_replaces_exact_name_witness :
  (In ("Authorization"%string, "Basic abc"%string)
      (client.request_headers (toy.bearer_client "secret") samples.own_headers)
   <-> "Basic abc"%string = "Bearer secret"%string)
  /\ In ("authorization"%string, "Basic abc"%string)
       (client.request_headers (toy.bearer_client "secret") samples.lower_case_headers)
  /\ (In ("Authorization"%string, "Bearer secret"%string)
        (client.request_headers (toy.bearer_client "secret") samples.lower_case_headers)
      <-> "Bearer secret"%string = "Bearer secret"%string)
  /\ (In ("Accept"%string, "application/json"%string)
        (client.request_headers (toy.bearer_client "secret") samples.own_headers)
      <-> "application/json"%string = "application/json"%string).
Proof.
  destruct (bearer_header_replaces_exact_name (H := toy.platform) toy.bearer_config
              (toy.bearer_client "secret") samples.own_headers eq_refl)
    as (Hbearer & _ & _ & _ & Hdefaults & _).
  destruct (bearer_header_replaces_exact_name (H := toy.platform) toy.bearer_config
              (toy.bearer_client "secret") samples.lower_case_headers eq_refl)
    as (Hexact & Hbeside & _).
  split; [ apply (Hbearer eq_refl "Basic abc"%string) | ].
  split.
  { apply (Hbeside eq_refl).
    - repeat constructor. simpl. tauto.
    - discriminate.
    - left. reflexivity. }
  split; [ apply (Hexact eq_refl "Bearer secret"%string) | ].
  apply (Hdefaults "Accept"%string); [ left; reflexivity | ].
  simpl. intros [ Heq | [ Heq | [] ] ]; discriminate Heq.
Defined.

Section request_more.
Context `{Platform}.
Variable Net : Type.
Variable fetch : string -> client.RequestInit -> M Net client.Response.

(** X5.  What [request] does with a failure that is not a failed response.
    A failure of [fetch] itself (the network is down) and a body of a
    successful response that is not JSON (an empty body, say) both surface
    as a plain [TeamDeskError] that keeps the message and the URL and
    nothing else: no status, no details, and not the class of the original
    failure.  A thrown value that is no [Error] gives the message [Unknown
    error].  A [TeamDeskError] passes through as it is, and the parsed body
    of a successful response is returned as it is.  So nothing but a
    [TeamDeskError] ever leaves [request]. *)
Theorem request_wraps_foreign_failures (this : client.TeamDeskClient) (url : string)
    (options : client.RequestInit) (n n' : Net) :
  let init := {| client.method := client.method options;
                 client.body := client.body options;
                 client.headers := Some (client.request_headers this options) |} in
  let wrapped message :=
    Typed {| errors.name := errors.TeamDeskError; errors.message := message;
             errors.status := None; errors.details := None;
             errors.url := Some url; errors.retryAfter := None |} in
  let outcome := client.request Net fetch this url options n in
  (forall name message,
      fetch url init n = (inl (JsError name message), n') ->
      outcome = (inl (wrapped message), n'))
  /\ (forall v,
        fetch url init n = (inl (Thrown v), n') ->
        outcome = (inl (wrapped "Unknown error"%string), n'))
  /\ (forall e,
        fetch url init n = (inl (Typed e), n') -> outcome = (inl (Typed e), n'))
  /\ (forall response,
        fetch url init n = (inr response, n') -> client.ok response = true ->
        outcome
        = (match client.json_ response with
           | inr data => inr data
           | inl (JsError _ message) => inl (wrapped message)
           | inl (Thrown _) => inl (wrapped "Unknown error"%string)
           | inl (Typed e) => inl (Typed e)
           end, n'))
  /\ (forall x n1, outcome = (inl x, n1) -> instanceof_TeamDeskError x = true).
Proof.
  intros init wrapped outcome. subst init wrapped outcome.
  split; [ | split; [ | split; [ | split ] ] ];
    try (unfold client.request, try_catch, bind, throw, ret).
  - intros name message ->. reflexivity.
  - intros v ->. reflexivity.
  - intros e ->. reflexivity.
  - intros response -> ->. simpl.
    destruct (client.json_ response) as [ [ name message | e | v ] | data ]; reflexivity.
  - intros x n1. apply request_throws_typed.
Qed.

End request_more.

(** ** Chains of builder calls *)

Lemma passes_limit_accepted (n : number) :
  fluent.passes_limit n -> utils.validatePaginationLimit n = inr n.
Proof.
  destruct n as [ | negative | q ]; simpl; [ reflexivity | tauto | ].
  intros [Hlow Hhigh]. apply validatePaginationLimit_inside; assumption.
Qed.

Lemma fails_limit_refused (n : number) :
  ~ fluent.passes_limit n ->
  exists message, utils.validatePaginationLimit n = inl (new_Error message).
Proof.
  intros Hfails. apply validatePaginationLimit_outside.
  destruct n as [ | negative | q ]; simpl in Hfails; [ tauto | constructor | ].
  destruct (Qclt_le_dec q (Qc_of_Z 1)) as [ Hlow | Hlow ];
    [ apply spec.below_one, Hlow | ].
  destruct (Qclt_le_dec (Qc_of_Z 500) q) as [ Hhigh | Hhigh ];
    [ apply spec.above_500, Hhigh | tauto ].
Qed.

Lemma passes_skip_accepted (n : number) :
  fluent.passes_skip n <-> num_lt n (num 0) = false.
Proof.
  destruct n as [ | negative | q ]; simpl.
  - tauto.
  - destruct negative; intuition congruence.
  - rewrite bool_decide_eq_false. split.
    + apply Qcle_not_lt.
    + apply Qcnot_lt_le.
Qed.

Section fluent_properties.
Context `{Platform}.
Variable Net : Type.

Let state := table.state Net.

(** The state after [this.options = o] on the builder [b] at [this]. *)
Let assigned_to (s : state) (this : positive) (b : table.SelectBuilder.t)
    (o : types.SelectOptions) : state :=
  table.with_heap Net s (<[this := table.with_options b o]> (table.heap Net s)).

Lemma assigned_to_same (s : state) (this : positive) (b : table.SelectBuilder.t) :
  table.heap Net s !! this = Some b ->
  assigned_to s this b (table.SelectBuilder.options b) = s.
Proof.
  intros Hthis. subst assigned_to. destruct s as [heap net log], b as [c t o].
  unfold table.with_heap, table.with_options. simpl in *.
  rewrite (insert_id _ _ _ Hthis). reflexivity.
Qed.

Lemma invoke_passes (s : state) (this : positive) (b : table.SelectBuilder.t)
    (c : fluent.call) :
  table.heap Net s !! this = Some b ->
  fluent.passes c ->
  fluent.invoke Net this c s
  = (inr this, assigned_to s this b (fluent.assigned (table.SelectBuilder.options b) c)).
Proof.
  intros Hthis Hpasses. destruct c as [ e | column direction | n | n ]; simpl.
  - unfold table.filter, bind. rewrite (deref_some Net s this b Hthis).
    rewrite (assign_options_some Net s this b _ Hthis). reflexivity.
  - unfold table.sort, bind. rewrite (deref_some Net s this b Hthis).
    rewrite (assign_options_some Net s this b _ Hthis). reflexivity.
  - unfold table.limit, bind. rewrite (passes_limit_accepted n Hpasses).
    rewrite (deref_some Net s this b Hthis).
    rewrite (assign_options_some Net s this b _ Hthis). reflexivity.
  - apply skip_accepts; [ exact Hthis | apply passes_skip_accepted, Hpasses ].
Qed.

Lemma invoke_fails (s : state) (this : positive) (c : fluent.call) :
  ~ fluent.passes c ->
  exists message, fluent.invoke Net this c s = (inl (new_Error message), s).
Proof.
  destruct c as [ e | column direction | n | n ]; simpl; try tauto.
  - intros Hfails. destruct (fails_limit_refused n Hfails) as [message Hrefused].
    exists message. unfold table.limit. rewrite Hrefused. reflexivity.
  - intros Hfails. exists "Skip must be non-negative"%string. unfold table.skip.
    destruct (num_lt n (num 0)) eqn:Hlt; [ reflexivity | ].
    exfalso. apply Hfails, passes_skip_accepted, Hlt.
Qed.

Lemma chain_passes (calls : list fluent.call) :
  forall (s : state) (this : positive) (b : table.SelectBuilder.t),
    table.heap Net s !! this = Some b ->
    Forall fluent.passes calls ->
    fluent.chain Net this calls s
    = (inr this,
       assigned_to s this b
         (fold_left fluent.assigned calls (table.SelectBuilder.options b))).
Proof.
  induction calls as [ | c calls IH ]; intros s this b Hthis Hcalls; simpl.
  - rewrite (assigned_to_same s this b Hthis). reflexivity.
  - apply Forall_cons in Hcalls as [Hc Hcalls].
    unfold bind. rewrite (invoke_passes s this b c Hthis Hc).
    set (o1 := fluent.assigned (table.SelectBuilder.options b) c).
    assert (table.heap Net (assigned_to s this b o1) !! this
            = Some (table.with_options b o1)) as Hthis1 by apply lookup_insert_eq.
    rewrite (IH _ this _ Hthis1 Hcalls).
    f_equal. subst assigned_to. unfold table.with_heap. simpl.
    rewrite insert_insert_eq. reflexivity.
Qed.

(** X6.  A chain of builder calls.  Every call that passes returns the
    builder it was called on, so the whole chain works on one object; it
    creates no object, requests nothing, and leaves every other builder
    alone.  The options it ends with are those of the calls in order, a
    later call replacing what an earlier one set for the same field.
    [limit] passes [NaN] and every finite number from 1 to 500, whole or
    not; [skip] passes every number that is not below 0.  The first call
    that does not pass throws a plain [Error], and the calls before it stay
    applied to the builder: a refused chain is not undone. *)
Theorem builder_calls_compose (s : state) (this : positive)
    (b : table.SelectBuilder.t) (calls : list fluent.call) :
  table.heap Net s !! this = Some b ->
  let after (done : list fluent.call) : state :=
    table.with_heap Net s
      (<[this := table.with_options b
                   (fold_left fluent.assigned done (table.SelectBuilder.options b))]>
         (table.heap Net s)) in
  (Forall fluent.passes calls ->
     fluent.chain Net this calls s = (inr this, after calls))
  /\ (forall before c rest,
        calls = before ++ c :: rest ->
        Forall fluent.passes before -> ~ fluent.passes c ->
        exists message,
          fluent.chain Net this calls s = (inl (JsError "Error" message), after before))
  /\ after [] = s.
Proof.
  intros Hthis after. split; [ | split ].
  - intros Hcalls. apply (chain_passes calls s this b Hthis Hcalls).
  - intros before c rest -> Hbefore Hc. subst after. cbv beta.
    revert s b Hthis.
    induction before as [ | c0 before IH ]; intros s b Hthis; simpl.
    + destruct (invoke_fails s this c Hc) as [message Hfails].
      exists message. unfold bind. rewrite Hfails.
      pose proof (assigned_to_same s this b Hthis) as Hsame.
      subst assigned_to. cbv beta in Hsame. rewrite Hsame. reflexivity.
    + apply Forall_cons in Hbefore as [Hc0 Hbefore].
      unfold bind. rewrite (invoke_passes s this b c0 Hthis Hc0).
      set (o1 := fluent.assigned (table.SelectBuilder.options b) c0).
      assert (table.heap Net (assigned_to s this b o1) !! this
              = Some (table.with_options b o1)) as Hthis1 by apply lookup_insert_eq.
      destruct (IH Hbefore _ _ Hthis1) as [message Hchain].
      exists message. unfold bind in Hchain. rewrite Hchain. f_equal.
      subst assigned_to. unfold table.with_heap. simpl.
      rewrite insert_insert_eq. reflexivity.
  - apply (assigned_to_same s this b Hthis).
Qed.

(** X7.  The order of the calls does not matter.  Two chains that make the
    same calls in different orders, each method at most once and every call
    passing, leave the builder, and so the request it sends, the same. *)
Theorem builder_calls_commute (s : state) (this : positive)
    (b : table.SelectBuilder.t) (calls reordered : list fluent.call) :
  table.heap Net s !! this = Some b ->
  Permutation calls reordered ->
  List.NoDup (map fluent.method_of calls) ->
  Forall fluent.passes calls ->
  fluent.chain Net this reordered s = fluent.chain Net this calls s
  /\ exists s',
       fluent.chain Net this calls s = (inr this, s')
       /\ table.net Net s' = table.net Net s
       /\ table.log Net s' = table.log Net s.
Proof.
  intros Hthis Hperm Hmethods Hcalls.
  assert (Forall fluent.passes reordered) as Hreordered
    by (rewrite <- Hperm; exact Hcalls).
  rewrite (chain_passes calls s this b Hthis Hcalls).
  rewrite (chain_passes reordered s this b Hthis Hreordered).
  split; [ | eexists; repeat split ].
  assert (forall o, fold_left fluent.assigned reordered o
                    = fold_left fluent.assigned calls o) as Hfold.
  { clear Hcalls Hreordered Hthis.
    induction Hperm as [ | c l l' Hperm IH | c1 c2 l | l1 l2 l3 H12 IH12 H23 IH23 ];
      intros o.
    - reflexivity.
    - simpl. apply IH. simpl in Hmethods. apply List.NoDup_cons_iff in Hmethods. tauto.
    - simpl. f_equal. simpl in Hmethods.
      apply List.NoDup_cons_iff in Hmethods as [Hdiffer _].
      destruct c1, c2; simpl in Hdiffer; try reflexivity; exfalso; tauto.
    - rewrite IH23, IH12; [ reflexivity | exact Hmethods | ].
      apply (Permutation_NoDup (l := map fluent.method_of l1));
        [ apply Permutation_map, H12 | exact Hmethods ]. }
  rewrite Hfold. reflexivity.
Qed.

End fluent_properties.

Lemma builder_calls_compose_witness :
  fluent.chain unit 1%positive
    [fluent.Filter "[Total]>5"; fluent.Limit (num 10); fluent.Limit (num 20)]
    toy.state0
  = (inr 1%positive,
     table.with_heap unit toy.state0
       (<[1%positive :=
            table.with_options toy.builder0
              (table.with_top (table.with_filter table.empty_options "[Total]>5")
                 (num 20))]> (table.heap unit toy.state0)))
  /\ exists message,
       fluent.chain unit 1%positive
         [fluent.Filter "[Total]>5"; fluent.Limit (num 0); fluent.Skip (num 5)]
         toy.state0
       = (inl (JsError "Error" message),
          table.with_heap unit toy.state0
            (<[1%positive :=
                 table.with_options toy.builder0
                   (table.with_filter table.empty_options "[Total]>5")]>
               (table.heap unit toy.state0))).
Proof.
  split.
  - apply (builder_calls_compose unit toy.state0 1%positive toy.builder0
             [fluent.Filter "[Total]>5"; fluent.Limit (num 10); fluent.Limit (num 20)]
             eq_refl).
    repeat constructor; vm_compute; discriminate.
  - destruct (builder_calls_compose unit toy.state0 1%positive toy.builder0
                [fluent.Filter "[Total]>5"; fluent.Limit (num 0); fluent.Skip (num 5)]
                eq_refl) as (_ & Hrefused & _).
    apply (Hrefused [fluent.Filter "[Total]>5"] (fluent.Limit (num 0))
             [fluent.Skip (num 5)]).
    + reflexivity.
    + repeat constructor.
    + intros [Hlow _]. vm_compute in Hlow. apply Hlow. reflexivity.
Defined.

Lemma builder_calls_commute_witness :
  fluent.chain unit 1%positive
    [fluent.Skip (num 500); fluent.Sort "Date" types.DESC; fluent.Filter "[Total]>5"]
    toy.state0
  = fluent.chain unit 1%positive
      [fluent.Filter "[Total]>5"; fluent.Sort "Date" types.DESC; fluent.Skip (num 500)]
      toy.state0.
Proof.
  apply (builder_calls_commute unit toy.state0 1%positive toy.builder0
           [fluent.Filter "[Total]>5"; fluent.Sort "Date" types.DESC;
            fluent.Skip (num 500)]
           [fluent.Skip (num 500); fluent.Sort "Date" types.DESC;
            fluent.Filter "[Total]>5"] eq_refl).
  - apply (Permutation_rev
             [fluent.Filter "[Total]>5"; fluent.Sort "Date" types.DESC;
              fluent.Skip (num 500)]).
  - repeat constructor; simpl; intuition discriminate.
  - repeat constructor. vm_compute. discriminate.
Defined.

Section chained_requests.
Context `{Platform}.
Variable Net : Type.
Variable request_rows : string -> M Net (list json).

(** X8.  From the chain to the wire.  [execute] at the end of a chain of
    calls that pass sends one request, to [<table>/select.json] under the
    client's prefix, and the query string of that request, read back, is
    what the calls set on top of the builder's earlier options: the columns,
    then the filter, the sort as [column//direction], [top] and [skip], each
    present only when set.  The result of the request is the result of
    [execute], a failure included, and the builder keeps the options for the
    next request. *)
Theorem chained_calls_reach_the_wire (s : table.state Net) (this : positive)
    (b : table.SelectBuilder.t) (calls : list fluent.call) :
  table.heap Net s !! this = Some b ->
  Forall fluent.passes calls ->
  let options := fold_left fluent.assigned calls (table.SelectBuilder.options b) in
  exists query,
    spec.parse_query query = Some (spec.intent_pairs options)
    /\ let url :=
         client.buildUrl (table.SelectBuilder.client b)
           (utils.encodeTableName (table.SelectBuilder.tableName b)
            +:+ "/select.json" +:+ query) in
       bind (fluent.chain Net this calls) (table.execute Net request_rows) s
       = let '(r, n) := request_rows url (table.net Net s) in
         (r, {| table.heap :=
                  <[this := table.with_options b options]> (table.heap Net s);
                table.net := n;
                table.log := table.log Net s ++ [url] |}).
Proof.
  intros Hthis Hcalls options.
  exists (table.buildQueryParams options). split.
  - destruct (buildQueryParams_pairs options) as (params & -> & <-).
    apply parse_buildQueryString.
  - cbv zeta. unfold bind. rewrite (chain_passes Net calls s this b Hthis Hcalls).
    fold options.
    rewrite (execute_some Net request_rows _ this (table.with_options b options));
      [ reflexivity | apply lookup_insert_eq ].
Qed.

End chained_requests.

Lemma chained_calls_reach_the_wire_witness :
  exists query,
    spec.parse_query query
    = Some [("filter", "[Total]>5"); ("sort", "Date//DESC"); ("top", "20")]%string
    /\ fst (bind (fluent.chain unit 1%positive
                    [fluent.Limit (num 20); fluent.Sort "Date" types.DESC;
                     fluent.Filter "[Total]>5"])
              (table.execute unit toy.no_rows) toy.state0)
       = fst (toy.no_rows
                (client.buildUrl toy.client0 ("Orders" +:+ "/select.json" +:+ query)) tt).
Proof.
  destruct (chained_calls_reach_the_wire unit toy.no_rows toy.state0 1%positive
              toy.builder0
              [fluent.Limit (num 20); fluent.Sort "Date" types.DESC;
               fluent.Filter "[Total]>5"] eq_refl) as (query & Hquery & Hsent).
  - repeat constructor; vm_compute; discriminate.
  - exists query. split; [ exact Hquery | ]. cbv zeta in Hsent. rewrite Hsent.
    reflexivity.
Defined.

(** ** New builders and the write requests *)

Section table_more.
Context `{Platform}.
Variable Net : Type.
Variable request_results : string -> client.RequestInit -> M Net (list table.RawResult).

Let state := table.state Net.

(** X9.  [select] makes a new object and touches no other: the address it
    returns was free, every builder that existed is as it was, nothing is
    requested.  The new builder has the client and the table of the table
    client, and the columns asked for; an empty column list counts as none
    ([select([])] is [select()]), and then the URL of the builder has no
    query string. *)
Theorem select_allocates_a_fresh_builder (this : table.TableClient.t)
    (columns : option (list string)) (s : state) :
  exists l s',
    table.select Net this columns s = (inr l, s')
    /\ table.heap Net s !! l = None
    /\ (forall l' b, table.heap Net s !! l' = Some b -> table.heap Net s' !! l' = Some b)
    /\ table.net Net s' = table.net Net s
    /\ table.log Net s' = table.log Net s
    /\ (exists b,
          table.heap Net s' !! l = Some b
          /\ table.SelectBuilder.client b = table.TableClient.client this
          /\ table.SelectBuilder.tableName b = table.TableClient.tableName this
          /\ table.SelectBuilder.options b
             = match columns with
               | Some (c :: cs) => table.with_columns table.empty_options (c :: cs)
               | _ => table.empty_options
               end
          /\ (columns = None \/ columns = Some [] ->
                table.select_url b
                = client.buildUrl (table.TableClient.client this)
                    (utils.encodeTableName (table.TableClient.tableName this)
                     +:+ "/select.json")))
    /\ table.select Net this (Some []) s = table.select Net this None s.
Proof.
  unfold table.select, table.new_SelectBuilder, table.alloc.
  eexists _, _. split; [ reflexivity | ].
  assert (table.heap Net s !! fresh (dom (table.heap Net s)) = None) as Hfree.
  { apply not_elem_of_dom. apply is_fresh. }
  split; [ exact Hfree | ]. split.
  { intros l' b Hl'. cbn [table.heap table.with_heap].
    rewrite lookup_insert_ne; [ exact Hl' | ]. intros Heq. congruence. }
  split; [ reflexivity | ]. split; [ reflexivity | ]. split; [ | reflexivity ].
  eexists. split; [ apply lookup_insert_eq | ].
  split; [ reflexivity | ]. split; [ reflexivity | ]. split.
  - destruct columns as [ [ | c cs ] | ]; reflexivity.
  - intros [ -> | -> ]; unfold table.select_url; simpl;
      change (table.buildQueryParams table.empty_options) with ""%string;
      rewrite append_empty; reflexivity.
Qed.

(** The [workflow] parameter of a write. *)
Let workflow_text (options : option types.WriteOptions) : string :=
  Number_toString
    (match options with
     | Some {| types.workflow := Some false |} => num 0
     | _ => num 1
     end).

(** What a write method does with the one request it sends to [url]. *)
Let posted {A} (url : string) (records : list json) (s : state)
    (convert : table.RawResult -> A) : (exn + list A) * state :=
  let '(r, n) :=
    request_results url
      {| client.method := Some "POST"%string;
         client.body := Some (JSON_stringify (JArr records));
         client.headers := None |} (table.net Net s) in
  (match r with inl e => inl e | inr raw => inr (map convert raw) end,
   {| table.heap := table.heap Net s; table.net := n;
      table.log := table.log Net s ++ [url] |}).

(** X10.  The request of a write.  [create], [update] and [upsert] each send
    one [POST] whose body is the JSON text of the records, to
    [<table>/create.json], [update.json] or [upsert.json] under the client's
    URL prefix, the table name percent-encoded.  The query string holds
    [workflow], 0 only when the options say [workflow: false] and 1 in every
    other case; [upsert] puts [match] before it when a match column that is
    not empty is given, and leaves it out otherwise.  When the request fails
    the method fails with the same error and maps nothing; no builder is
    touched. *)
Theorem writes_post_one_request (this : table.TableClient.t) (records : list json)
    (matchColumn : option string) (options : option types.WriteOptions) (s : state) :
  let address (operation query : string) : string :=
    client.buildUrl (table.TableClient.client this)
      (utils.encodeTableName (table.TableClient.tableName this)
       +:+ operation +:+ query) in
  exists query upsert_query,
    spec.parse_query query = Some [("workflow"%string, workflow_text options)]
    /\ spec.parse_query upsert_query
       = Some (match matchColumn with
               | Some column =>
                   if String.eqb column "" then []
                   else [("match"%string, column)]
               | None => []
               end ++ [("workflow"%string, workflow_text options)])
    /\ table.create Net request_results this records options s
       = posted (address "/create.json" query) records s table.to_result
    /\ table.update Net request_results this records options s
       = posted (address "/update.json" query) records s table.to_result
    /\ table.upsert Net request_results this records matchColumn options s
       = posted (address "/upsert.json" upsert_query) records s table.to_upsert_result.
Proof.
  intros address.
  exists (utils.buildQueryString
            [("workflow"%string, utils.PNumber (table.workflow_flag options))]),
         (utils.buildQueryString
            ((if opt_truthy matchColumn
              then [("match"%string, utils.PString (opt_text matchColumn))] else [])
             ++ [("workflow"%string, utils.PNumber (table.workflow_flag options))])).
  split; [ | split ].
  - rewrite parse_buildQueryString. reflexivity.
  - rewrite parse_buildQueryString. f_equal.
    destruct matchColumn as [ column | ]; simpl; [ | reflexivity ].
    unfold str_truthy. destruct (String.eqb column ""); reflexivity.
  - subst posted address. cbv beta.
    unfold table.create, table.update, table.upsert, table.send_results, table.post,
      bind, ret.
    repeat split;
      match goal with
      | |- context [request_results ?u ?i ?n] =>
          destruct (request_results u i n) as [[e | raw] n']; reflexivity
      end.
Qed.

(** X11.  What [upsert] reports as the action.  A result says [created]
    exactly when the status of its entry is 201, and such a result is a
    success; every other status, those of failures included, says [updated]. *)
Theorem upsert_reports_created_for_201 (this : table.TableClient.t)
    (records : list json) (matchColumn : option string)
    (options : option types.WriteOptions) (s : state)
    (raw : list table.RawResult) (net' : Net) :
  (forall url init, request_results url init (table.net Net s) = (inr raw, net')) ->
  exists results s',
    table.upsert Net request_results this records matchColumn options s
    = (inr results, s')
    /\ Forall2
         (fun entry r =>
            (types.action r = types.created <-> table.status entry = num 201)
            /\ (types.action r = types.updated <-> table.status entry <> num 201)
            /\ (types.action r = types.created ->
                  types.success (types.result r) = true))
         raw results.
Proof.
  intros Hbackend. unfold table.upsert, bind.
  rewrite (send_results_answer Net request_results _ _ _ raw net' (Hbackend _ _)).
  eexists _, _. split; [ reflexivity | ].
  clear Hbackend.
  induction raw as [ | entry raw IH ]; simpl; [ constructor | ].
  constructor; [ | exact IH ].
  unfold table.to_upsert_result. cbn [types.action types.result types.success].
  assert (num_eq (table.status entry) (num 201) = true <-> table.status entry = num 201)
    as Heq.
  { destruct (table.status entry) as [ | negative | q ]; simpl;
      try (split; discriminate).
    rewrite bool_decide_eq_true. unfold num.
    split; [ congruence | intros [= ->]; reflexivity ]. }
  destruct (num_eq (table.status entry) (num 201)) eqn:H201.
  - assert (table.status entry = num 201) as Hstatus by (apply Heq; reflexivity).
    rewrite Hstatus. repeat split; try tauto; try discriminate.
  - assert (table.status entry <> num 201) as Hne
      by (intros H'; apply Heq in H'; discriminate).
    repeat split; try tauto; try discriminate.
Qed.

End table_more.

Lemma upsert_reports_created_for_201_witness :
  exists results s',
    table.upsert unit toy.answer_raw0 toy.table0 [] (Some "Email"%string) None toy.state0
    = (inr results, s')
    /\ Forall2
         (fun entry r =>
            (types.action r = types.created <-> table.status entry = num 201)
            /\ (types.action r = types.updated <-> table.status entry <> num 201)
            /\ (types.action r = types.created ->
                  types.success (types.result r) = true))
         toy.raw0 results.
Proof.
  apply (upsert_reports_created_for_201 unit toy.answer_raw0 toy.table0 []
           (Some "Email"%string) None toy.state0 toy.raw0 tt).
  intros url init. reflexivity.
Defined.

(** ** Auto-pagination against a backend that serves slices *)

Lemma num_add_num (a b : Z) : num_add (num a) (num b) = num (a + b).
Proof. unfold num. simpl. rewrite Z2Qc_inj_add. reflexivity. Qed.

Lemma next_offset (start : nat) :
  num_add (num (Z.of_nat start)) (num (Z.of_nat table.batchSize))
  = num (Z.of_nat (start + 500)).
Proof. rewrite num_add_num. f_equal. unfold table.batchSize. lia. Qed.

Lemma slice_length (rows : list json) (offset : nat) :
  length (paging.slice rows offset) = Nat.min 500 (length rows - offset).
Proof. unfold paging.slice. rewrite length_take, length_drop. reflexivity. Qed.

Lemma slice_last (rows : list json) (offset : nat) :
  (length rows - offset < 500)%nat -> paging.slice rows offset = drop offset rows.
Proof.
  intros Hshort. unfold paging.slice. apply take_ge. rewrite length_drop.
  unfold table.batchSize. lia.
Qed.

Lemma slice_then_rest (rows : list json) (offset : nat) :
  paging.slice rows offset ++ drop (offset + 500) rows = drop offset rows.
Proof.
  unfold paging.slice. rewrite <- drop_drop. apply take_drop.
Qed.

Section slices.
Variable Net : Type.
Variable request_rows : string -> M Net (list json).
Variable url_at : number -> string.

Let pages_by := paging.pages_by Net request_rows url_at.

Lemma pages_by_full (rounds : nat) (offset : number) (net net' : Net)
    (page : list json) :
  request_rows (url_at offset) net = (inr page, net') ->
  length page = 500%nat ->
  pages_by (S rounds) offset net
  = let '(pages, r, net'', urls) :=
      pages_by rounds (num_add offset (num (Z.of_nat table.batchSize))) net' in
    (page :: pages, r, net'', url_at offset :: urls).
Proof.
  intros Hanswer Hlen. subst pages_by. simpl. rewrite Hanswer.
  destruct page as [ | row page ]; [ discriminate | ].
  replace (length (row :: page) <? table.batchSize)%nat with false
    by (symmetry; apply Nat.ltb_ge; rewrite Hlen; reflexivity).
  reflexivity.
Qed.

(** Against a backend that answers the request for offset [start + 500 k]
    with the slice of [rows] there, the loop ends by itself after
    [(length rows - start) / 500 + 1] requests, and its pages are the rows
    from [start] on, cut into pages of 500 with a shorter last one. *)
Lemma pages_by_slices (rows : list json) (last : nat) :
  forall (start : nat) (net : Net),
    ((length rows - start) / 500)%nat = last ->
    (forall k n, (k <= last)%nat ->
       (request_rows (url_at (num (Z.of_nat (start + 500 * k)))) n).1
       = inr (paging.slice rows (start + 500 * k))) ->
    exists pages net' urls,
      pages_by (S last) (num (Z.of_nat start)) net
      = (pages, Some table.Return, net', urls)
      /\ concat pages = drop start rows
      /\ length urls = S last
      /\ Forall (fun page => (0 < length page <= 500)%nat) pages.
Proof.
  induction last as [ | last IH ]; intros start net Hlast Hserves.
  - assert (length rows - start < 500)%nat as Hshort.
    { apply Nat.div_small_iff in Hlast; [ exact Hlast | discriminate ]. }
    pose proof (Hserves 0%nat net (Nat.le_refl 0)) as Hpage.
    rewrite Nat.mul_0_r, Nat.add_0_r in Hpage.
    rewrite (slice_last rows start Hshort) in Hpage.
    subst pages_by. simpl.
    destruct (request_rows (url_at (num (Z.of_nat start))) net) as [r net'].
    simpl in Hpage. subst r.
    destruct (drop start rows) as [ | row page ] eqn:Hrest.
    + exists [], net', [url_at (num (Z.of_nat start))]. repeat split. constructor.
    + assert (length (row :: page) < 500)%nat as Hlen
        by (rewrite <- Hrest, length_drop; exact Hshort).
      apply Nat.ltb_lt in Hlen. unfold table.batchSize. rewrite Hlen.
      exists [row :: page], net', [url_at (num (Z.of_nat start))].
      repeat split.
      * simpl. rewrite app_nil_r. reflexivity.
      * constructor; [ | constructor ]. apply Nat.ltb_lt in Hlen. simpl in *. lia.
  - assert (500 <= length rows - start)%nat as Hfull.
    { destruct (Nat.lt_ge_cases (length rows - start) 500) as [ Hlt | Hge ];
        [ | exact Hge ].
      apply Nat.div_small in Hlt. congruence. }
    pose proof (Hserves 0%nat net (Nat.le_0_l _)) as Hpage.
    rewrite Nat.mul_0_r, Nat.add_0_r in Hpage.
    assert (length (paging.slice rows start) = 500%nat) as Hlen
      by (rewrite slice_length; lia).
    destruct (request_rows (url_at (num (Z.of_nat start))) net) as [r net'] eqn:Hanswer.
    simpl in Hpage. subst r.
    destruct (IH (start + 500)%nat net')
      as (pages & net'' & urls & Hrest & Hconcat & Hurls & Hsizes).
    { replace (length rows - start)%nat
        with (length rows - (start + 500) + 1 * 500)%nat in Hlast by lia.
      rewrite Nat.div_add in Hlast by discriminate. lia. }
    { intros k n Hk.
      replace (start + 500 + 500 * k)%nat with (start + 500 * S k)%nat by lia.
      apply Hserves. lia. }
    rewrite (pages_by_full _ _ _ _ _ Hanswer Hlen), next_offset, Hrest.
    exists (paging.slice rows start :: pages), net'',
           (url_at (num (Z.of_nat start)) :: urls).
    repeat split.
    + rewrite concat_cons, Hconcat. apply slice_then_rest.
    + simpl. rewrite Hurls. reflexivity.
    + constructor; [ rewrite Hlen; lia | exact Hsizes ].
Qed.

End slices.

Section every_row.
Context `{Platform}.
Variable Net : Type.
Variable request_rows : string -> M Net (list json).

Lemma paginate_pages_by (base : table.SelectBuilder.t) (rounds : nat) :
  forall offset net,
    spec.paginate Net request_rows rounds base offset net
    = paging.pages_by Net request_rows (spec.page_url base) rounds offset net.
Proof.
  induction rounds as [ | rounds IH ]; intros offset net; [ reflexivity | ].
  simpl. destruct (request_rows (spec.page_url base offset) net)
    as [[e | [ | row page]] net']; try reflexivity.
  rewrite IH. reflexivity.
Qed.

(** X12.  [selectAll] delivers every row once and in order.  Against a
    backend that holds [rows] and answers the request for [skip = o], [top =
    500] with the rows from [o] up to [o + 500], pulling from the generator
    ends by itself, after [(length rows - start) / 500 + 1] requests,
    [start] being the [skip] of the builder (0 without one); the batches,
    one after the other, are exactly the rows from [start] on; no batch is
    empty and none has more than 500 rows. *)
Theorem selectAll_delivers_every_row (rows : list json) (start : nat)
    (s : table.state Net) (this : positive) (base : table.SelectBuilder.t) :
  let requests := S ((length rows - start) / 500) in
  let page_at (offset : nat) : table.SelectBuilder.t :=
    table.with_options base
      (table.spread_paging (table.SelectBuilder.options base)
         (num (Z.of_nat offset)) (num 500)) in
  table.heap Net s !! this = Some base ->
  types.skip (table.SelectBuilder.options base) = Some (num (Z.of_nat start))
  \/ (types.skip (table.SelectBuilder.options base) = None /\ start = 0%nat) ->
  (forall k n, (k < requests)%nat ->
     (request_rows (table.select_url (page_at (start + 500 * k)%nat)) n).1
     = inr (paging.slice rows (start + 500 * k))) ->
  exists batches g' s',
    table.drain Net request_rows (S requests) (table.selectAll this) s
    = (batches, Some table.Return, g', s')
    /\ concat batches = drop start rows
    /\ Forall (fun batch => (0 < length batch <= 500)%nat) batches
    /\ table.position g' = table.Finished
    /\ length (table.log Net s') = (length (table.log Net s) + requests)%nat.
Proof.
  intros requests page_at Hthis Hskip Hserves.
  destruct (pages_by_slices Net request_rows (spec.page_url base) rows
              ((length rows - start) / 500) start (table.net Net s) eq_refl)
    as (batches & net' & urls & Hpages & Hconcat & Hurls & Hsizes).
  { intros k n Hk. apply Hserves. subst requests. lia. }
  rewrite <- paginate_pages_by in Hpages.
  destruct (drain_follows Net request_rows requests base (table.selectAll this) s
              (num (Z.of_nat start)) batches (Some table.Return) net' urls Hthis)
    as (g' & s' & Hdrain & Hfinished & _ & Hlog); [ | exact Hpages | ].
  { intros s0 Hthis0. rewrite (next_cases Net request_rows _ s0 base Hthis0). simpl.
    replace (table.skip_or_zero (table.SelectBuilder.options base))
      with (num (Z.of_nat start)); [ reflexivity | ].
    unfold table.skip_or_zero.
    destruct Hskip as [ -> | [-> ->] ]; [ | reflexivity ].
    simpl. destruct (decide (Qc_of_Z (Z.of_nat start) = Qc_of_Z 0)) as [ Hzero | Hpos ].
    - rewrite bool_decide_eq_true_2 by exact Hzero. simpl.
      unfold num. rewrite Hzero. reflexivity.
    - rewrite bool_decide_eq_false_2 by exact Hpos. reflexivity. }
  exists batches, g', s'. split; [ exact Hdrain | ].
  split; [ exact Hconcat | ]. split; [ exact Hsizes | ].
  split; [ apply (Hfinished table.Return eq_refl) | ].
  rewrite Hlog, length_app, Hurls. reflexivity.
Qed.

End every_row.

Lemma selectAll_delivers_every_row_witness :
  exists batches g' s',
    table.drain unit samples.orders_backend 3 (table.selectAll 1%positive) toy.state0
    = (batches, Some table.Return, g', s')
    /\ concat batches = drop 0 samples.held
    /\ Forall (fun batch => (0 < length batch <= 500)%nat) batches
    /\ table.position g' = table.Finished
    /\ length (table.log unit s') = (length (table.log unit toy.state0) + 2)%nat.
Proof.
  apply (selectAll_delivers_every_row unit samples.orders_backend samples.held 0
           toy.state0 1%positive toy.builder0).
  - reflexivity.
  - right. split; reflexivity.
  - intros k n Hk. vm_compute in Hk.
    destruct k as [ | [ | k ] ]; [ reflexivity | reflexivity | lia ].
Defined.

(** ** Views *)

Section view_properties.
Context `{Platform}.
Variable Net : Type.
Variable request_rows : string -> M Net (list json).

Let state := view.state Net.
Let turn := view.turn Net request_rows.
Let next := view.next Net request_rows.
Let drain := view.drain Net request_rows.

(** The builder a turn of the loop creates for the page at [offset], and
    the URL it requests. *)
Let page_at (base : view.ViewSelectBuilder.t) (offset : number)
  : view.ViewSelectBuilder.t :=
  view.with_options base
    (table.spread_paging (view.ViewSelectBuilder.options base) offset (num 500)).

Let page_url (base : view.ViewSelectBuilder.t) (offset : number) : string :=
  view.select_url (page_at base offset).

Let after_turn (s : state) (base : view.ViewSelectBuilder.t) (offset : number) (n : Net)
  : state :=
  {| view.heap :=
       <[fresh (dom (view.heap Net s)) := page_at base offset]> (view.heap Net s);
     view.net := n;
     view.log := view.log Net s ++ [page_url base offset] |}.

Lemma view_deref (s : state) (l : positive) (b : view.ViewSelectBuilder.t) :
  view.heap Net s !! l = Some b -> view.deref Net l s = (inr b, s).
Proof. intros Hl. unfold view.deref. rewrite Hl. reflexivity. Qed.

Lemma view_assign (s : state) (l : positive) (b : view.ViewSelectBuilder.t)
    (o : types.SelectOptions) :
  view.heap Net s !! l = Some b ->
  view.assign_options Net l o s
  = (inr tt, view.with_heap Net s (<[l := view.with_options b o]> (view.heap Net s))).
Proof.
  intros Hl. unfold view.assign_options, bind, modify.
  rewrite (view_deref s l b Hl). reflexivity.
Qed.

Lemma view_execute (s : state) (l : positive) (b : view.ViewSelectBuilder.t) :
  view.heap Net s !! l = Some b ->
  view.execute Net request_rows l s
  = match request_rows (view.select_url b) (view.net Net s) with
    | (r, n) =>
        (r, {| view.heap := view.heap Net s; view.net := n;
               view.log := view.log Net s ++ [view.select_url b] |})
    end.
Proof.
  intros Hl. unfold view.execute, bind. rewrite (view_deref s l b Hl). reflexivity.
Qed.

(** One turn of the loop of the view's [selectAll]: one request, for the
    URL of the page. *)
Lemma view_turn (s : state) (this : positive) (base : view.ViewSelectBuilder.t)
    (offset : number) :
  view.heap Net s !! this = Some base ->
  turn this offset s
  = match request_rows (page_url base offset) (view.net Net s) with
    | (inl e, n) => (table.Throw e, table.Finished, after_turn s base offset n)
    | (inr batch, n) =>
        if (length batch =? 0)%nat
        then (table.Return, table.Finished, after_turn s base offset n)
        else (table.Yield batch, table.Suspended offset (length batch),
              after_turn s base offset n)
    end.
Proof.
  intros Hthis. subst turn. unfold view.turn, bind.
  rewrite (view_deref s this base Hthis).
  unfold view.new_ViewSelectBuilder, view.alloc.
  set (l := fresh (dom (view.heap Net s))).
  set (b0 := {| view.ViewSelectBuilder.client := view.ViewSelectBuilder.client base;
                view.ViewSelectBuilder.tableName := _;
                view.ViewSelectBuilder.viewName := _;
                view.ViewSelectBuilder.options := _ |}).
  set (s1 := view.with_heap Net s (<[l := b0]> (view.heap Net s))).
  assert (view.heap Net s1 !! l = Some b0) as Hl by apply lookup_insert_eq.
  rewrite (view_assign s1 l b0 _ Hl).
  set (s2 := view.with_heap Net s1 _).
  assert (view.heap Net s2 !! l = Some (page_at base offset)) as Hl2
    by apply lookup_insert_eq.
  rewrite (view_execute s2 l _ Hl2).
  change (view.select_url (page_at base offset)) with (page_url base offset).
  change (view.net Net s2) with (view.net Net s).
  assert (forall n,
            {| view.heap := view.heap Net s2; view.net := n;
               view.log := view.log Net s2 ++ [page_url base offset] |}
            = after_turn s base offset n) as Hstate.
  { intros n. subst after_turn s2 s1. unfold view.with_heap. simpl.
    rewrite insert_insert_eq. reflexivity. }
  destruct (request_rows (page_url base offset) (view.net Net s))
    as [[e | batch] n]; rewrite Hstate; reflexivity.
Qed.

Lemma view_after_turn_keeps (s : state) (base b : view.ViewSelectBuilder.t)
    (offset : number) (n : Net) (l : positive) :
  view.heap Net s !! l = Some b ->
  view.heap Net (after_turn s base offset n) !! l = Some b.
Proof.
  intros Hl. subst after_turn. cbn [view.heap].
  rewrite lookup_insert_ne; [ exact Hl | ].
  intros Heq. apply (is_fresh (dom (view.heap Net s))).
  rewrite Heq. apply elem_of_dom. eexists. exact Hl.
Qed.

Lemma view_next (g : table.generator) (s : state) (base : view.ViewSelectBuilder.t) :
  view.heap Net s !! table.this g = Some base ->
  next g s
  = match table.position g with
    | table.Finished => (table.Return, g, s)
    | table.AtStart =>
        let '(r, c, s') :=
          turn (table.this g)
            (table.skip_or_zero (view.ViewSelectBuilder.options base)) s in
        (r, {| table.this := table.this g; table.position := c |}, s')
    | table.Suspended offset batch_length =>
        if (batch_length <? 500)%nat then
          (table.Return,
           {| table.this := table.this g; table.position := table.Finished |}, s)
        else
          let '(r, c, s') := turn (table.this g) (num_add offset (num 500)) s in
          (r, {| table.this := table.this g; table.position := c |}, s')
    end.
Proof.
  intros Hthis. subst next. unfold view.next.
  destruct (table.position g); [ | reflexivity | reflexivity ].
  rewrite (view_deref s _ base Hthis). reflexivity.
Qed.

(** What a pull changes: one page builder more at a fresh address, one URL
    more in the log, and every object that existed as it was. *)
Let grown (base : view.ViewSelectBuilder.t) (s s' : state) : Prop :=
  (forall l b, view.heap Net s !! l = Some b -> view.heap Net s' !! l = Some b)
  /\ (forall l c, view.heap Net s !! l = None -> view.heap Net s' !! l = Some c ->
        exists offset, c = page_at base offset)
  /\ (exists offsets,
        view.log Net s' = view.log Net s ++ map (page_url base) offsets).

Lemma grown_refl (base : view.ViewSelectBuilder.t) (s : state) : grown base s s.
Proof.
  split; [ auto | split ].
  - intros l c Hnone Hsome. congruence.
  - exists []. simpl. symmetry. apply app_nil_r.
Qed.

Lemma grown_trans (base : view.ViewSelectBuilder.t) (s1 s2 s3 : state) :
  grown base s1 s2 -> grown base s2 s3 -> grown base s1 s3.
Proof.
  intros (Hk1 & Hn1 & [o1 Hl1]) (Hk2 & Hn2 & [o2 Hl2]). split; [ | split ].
  - intros l b Hl. apply Hk2, Hk1, Hl.
  - intros l c Hnone Hsome.
    destruct (view.heap Net s2 !! l) as [c2 | ] eqn:Hmid.
    + destruct (Hn1 l c2 Hnone Hmid) as [offset ->]. exists offset.
      apply Hk2 in Hmid. congruence.
    + apply (Hn2 l c Hmid Hsome).
  - exists (o1 ++ o2). rewrite Hl2, Hl1, map_app, app_assoc. reflexivity.
Qed.

Lemma grown_after_turn (base : view.ViewSelectBuilder.t) (s : state)
    (offset : number) (n : Net) :
  grown base s (after_turn s base offset n).
Proof.
  split; [ | split ].
  - intros l b Hl. apply view_after_turn_keeps. exact Hl.
  - intros l c Hnone. subst after_turn. cbn [view.heap].
    destruct (decide (fresh (dom (view.heap Net s)) = l)) as [-> | Hne].
    + rewrite lookup_insert_eq. intros [= <-]. exists offset. reflexivity.
    + rewrite lookup_insert_ne by exact Hne. congruence.
  - exists [offset]. reflexivity.
Qed.

Lemma view_turn_grown (s s' : state) (this : positive)
    (base : view.ViewSelectBuilder.t) (offset : number) (r : table.step)
    (c : table.cursor) :
  view.heap Net s !! this = Some base ->
  turn this offset s = (r, c, s') -> grown base s s'.
Proof.
  intros Hthis. rewrite (view_turn s this base offset Hthis).
  destruct (request_rows (page_url base offset) (view.net Net s))
    as [[e | batch] n].
  - intros [= _ _ <-]. apply grown_after_turn.
  - destruct (length batch =? 0)%nat; intros [= _ _ <-]; apply grown_after_turn.
Qed.

Lemma view_next_grown (g g' : table.generator) (s s' : state)
    (base : view.ViewSelectBuilder.t) (r : table.step) :
  view.heap Net s !! table.this g = Some base ->
  next g s = (r, g', s') ->
  table.this g' = table.this g /\ grown base s s'.
Proof.
  intros Hthis. rewrite (view_next g s base Hthis).
  destruct (table.position g) as [ | offset len | ].
  - destruct (turn _ _ s) as [[r1 c1] s1] eqn:Hturn. intros [= _ <- <-].
    split; [ reflexivity | apply (view_turn_grown _ _ _ _ _ _ _ Hthis Hturn) ].
  - destruct (len <? 500)%nat.
    + intros [= _ <- <-]. split; [ reflexivity | apply grown_refl ].
    + destruct (turn _ _ s) as [[r1 c1] s1] eqn:Hturn. intros [= _ <- <-].
      split; [ reflexivity | apply (view_turn_grown _ _ _ _ _ _ _ Hthis Hturn) ].
  - intros [= _ <- <-]. split; [ reflexivity | apply grown_refl ].
Qed.

Lemma view_drain_grown (fuel : nat) :
  forall (g g' : table.generator) (s s' : state) (base : view.ViewSelectBuilder.t)
         (pages : list (list json)) (r : option table.step),
    view.heap Net s !! table.this g = Some base ->
    drain fuel g s = (pages, r, g', s') ->
    table.this g' = table.this g /\ grown base s s'.
Proof.
  induction fuel as [ | fuel IH ]; intros g g' s s' base pages r Hthis.
  - intros [= _ _ <- <-]. split; [ reflexivity | apply grown_refl ].
  - subst drain. simpl. fold (view.drain Net request_rows).
    destruct (view.next Net request_rows g s) as [[r1 g1] s1] eqn:Hnext.
    destruct (view_next_grown g g1 s s1 base r1 Hthis Hnext) as [Hg1 Hf1].
    destruct r1 as [batch | | e].
    + destruct (view.drain Net request_rows fuel g1 s1) as [[[ps r2] g2] s2] eqn:Hrest.
      intros [= _ _ <- <-].
      assert (view.heap Net s1 !! table.this g1 = Some base) as Hthis1.
      { rewrite Hg1. apply (proj1 Hf1). exact Hthis. }
      destruct (IH g1 g2 s1 s2 base ps r2 Hthis1 Hrest) as [Hg2 Hf2].
      split; [ congruence | apply (grown_trans base s s1 s2 Hf1 Hf2) ].
    + intros [= _ _ <- <-]. split; [ exact Hg1 | exact Hf1 ].
    + intros [= _ _ <- <-]. split; [ exact Hg1 | exact Hf1 ].
Qed.

(** X13.  The view's [selectAll] leaves its builder as it is.  However many
    batches are pulled, the view builder and every other object that existed
    are unchanged; each new object is a copy of the builder with the same
    client, table, view and columns, [top] 500 and the [skip] of its page;
    every URL requested is the URL of such a copy. *)
Theorem view_selectAll_leaves_builder_unchanged (fuel : nat) (s s' : state)
    (this : positive) (base : view.ViewSelectBuilder.t)
    (pages : list (list json)) (r : option table.step) (g' : table.generator) :
  view.heap Net s !! this = Some base ->
  view.drain Net request_rows fuel (view.selectAll this) s = (pages, r, g', s') ->
  view.heap Net s' !! this = Some base
  /\ (forall l b, view.heap Net s !! l = Some b -> view.heap Net s' !! l = Some b)
  /\ (forall l c, view.heap Net s !! l = None -> view.heap Net s' !! l = Some c ->
        exists offset,
          view.ViewSelectBuilder.client c = view.ViewSelectBuilder.client base
          /\ view.ViewSelectBuilder.tableName c = view.ViewSelectBuilder.tableName base
          /\ view.ViewSelectBuilder.viewName c = view.ViewSelectBuilder.viewName base
          /\ types.columns (view.ViewSelectBuilder.options c)
             = types.columns (view.ViewSelectBuilder.options base)
          /\ types.skip (view.ViewSelectBuilder.options c) = Some offset
          /\ types.top (view.ViewSelectBuilder.options c) = Some (num 500))
  /\ (exists offsets,
        view.log Net s' = view.log Net s
          ++ map (fun offset =>
                    view.select_url
                      (view.with_options base
                         (table.spread_paging (view.ViewSelectBuilder.options base)
                            offset (num 500)))) offsets).
Proof.
  intros Hthis Hdrain.
  destruct (view_drain_grown fuel (view.selectAll this) g' s s' base pages r Hthis Hdrain)
    as (_ & Hkeep & Hnew & Hlog).
  split; [ apply Hkeep, Hthis | ]. split; [ exact Hkeep | ]. split; [ | exact Hlog ].
  intros l c Hnone Hsome. destruct (Hnew l c Hnone Hsome) as [offset ->].
  exists offset. repeat split.
Qed.

(** A generator about to run a turn of the loop with the local [offset]. *)
Let resumes (g : table.generator) (base : view.ViewSelectBuilder.t) (offset : number)
  : Prop :=
  forall s, view.heap Net s !! table.this g = Some base ->
    next g s
    = let '(r, c, s') := turn (table.this g) offset s in
      (r, {| table.this := table.this g; table.position := c |}, s').

Lemma view_drain_step (fuel : nat) (g : table.generator) (s : state) :
  drain (S fuel) g s
  = match next g s with
    | (table.Yield batch, g1, s1) =>
        let '(pages, r, g2, s2) := drain fuel g1 s1 in (batch :: pages, r, g2, s2)
    | (r, g1, s1) => ([], Some r, g1, s1)
    end.
Proof. reflexivity. Qed.

(** Pulling from the view's generator runs the shared loop on the URLs of
    the view's pages. *)
Lemma view_drain_follows (rounds : nat) (base : view.ViewSelectBuilder.t) :
  forall (g : table.generator) (s : state) (offset : number)
         (pages : list (list json)) (r : option table.step) (net' : Net)
         (urls : list string),
    view.heap Net s !! table.this g = Some base ->
    resumes g base offset ->
    paging.pages_by Net request_rows (page_url base) rounds offset (view.net Net s)
    = (pages, r, net', urls) ->
    exists g' s',
      drain (match r with Some _ => S rounds | None => rounds end) g s
      = (pages, r, g', s')
      /\ (forall outcome, r = Some outcome -> table.position g' = table.Finished)
      /\ view.net Net s' = net'
      /\ view.log Net s' = view.log Net s ++ urls.
Proof.
  induction rounds as [ | rounds IH ];
    intros g s offset pages r net' urls Hthis Hres.
  - intros [= <- <- <- <-]. exists g, s.
    repeat split; [ discriminate | symmetry; apply app_nil_r ].
  - simpl. fold (paging.pages_by Net request_rows (page_url base)).
    pose proof (view_turn s (table.this g) base offset Hthis) as Hturn.
    pose proof (Hres s Hthis) as Hnext. rewrite Hturn in Hnext. clear Hturn.
    destruct (request_rows (page_url base offset) (view.net Net s))
      as [[e | [ | row page]] n].
    + intros [= <- <- <- <-]. eexists _, _.
      rewrite view_drain_step, Hnext. repeat split.
    + intros [= <- <- <- <-]. eexists _, _.
      rewrite view_drain_step, Hnext. repeat split.
    + change (length (row :: page) =? 0)%nat with false in Hnext.
      cbv iota in Hnext.
      set (g1 := {| table.this := table.this g;
                    table.position := table.Suspended offset (length (row :: page)) |})
        in Hnext.
      set (s1 := after_turn s base offset n) in Hnext.
      assert (view.heap Net s1 !! table.this g1 = Some base) as Hthis1
        by (apply view_after_turn_keeps; exact Hthis).
      destruct (length (row :: page) <? table.batchSize)%nat eqn:Hlen.
      * intros [= <- <- <- <-].
        exists {| table.this := table.this g; table.position := table.Finished |}, s1.
        rewrite view_drain_step, Hnext, view_drain_step.
        rewrite (view_next g1 s1 base Hthis1). cbn [table.position g1].
        change table.batchSize with 500%nat in Hlen. rewrite Hlen. repeat split.
      * destruct (paging.pages_by Net request_rows (page_url base) rounds
                    (num_add offset (num (Z.of_nat table.batchSize))) n)
          as [[[pages' r'] net''] urls'] eqn:Hrec.
        intros [= <- <- <- <-].
        assert (resumes g1 base (num_add offset (num (Z.of_nat table.batchSize))))
          as Hres1.
        { intros s0 Hthis0. rewrite (view_next g1 s0 base Hthis0).
          cbn [table.position g1].
          change table.batchSize with 500%nat in Hlen. rewrite Hlen. reflexivity. }
        destruct (IH g1 s1 _ pages' r' net'' urls' Hthis1 Hres1 Hrec)
          as (g2 & s2 & Hdrain & Hfin & Hnet & Hlog).
        exists g2, s2. split; [ | split; [ exact Hfin | split; [ exact Hnet | ] ] ].
        -- destruct r' as [outcome | ];
             rewrite view_drain_step, Hnext, Hdrain; reflexivity.
        -- rewrite Hlog. subst s1 after_turn. cbn [view.log].
           rewrite <- app_assoc. reflexivity.
Qed.

(** X14.  The view's [selectAll] delivers every row once and in order.
    Against a backend that holds the rows of the view and answers the
    request for [skip = o], [top = 500] with the rows from [o] up to [o +
    500], pulling from the generator ends by itself, after [(length rows -
    start) / 500 + 1] requests, [start] being the [skip] of the builder (0
    without one); the batches, one after the other, are exactly the rows
    from [start] on; no batch is empty and none has more than 500 rows. *)
Theorem view_selectAll_delivers_every_row (rows : list json) (start : nat)
    (s : state) (this : positive) (base : view.ViewSelectBuilder.t) :
  let requests := S ((length rows - start) / 500) in
  let page (offset : nat) : view.ViewSelectBuilder.t :=
    view.with_options base
      (table.spread_paging (view.ViewSelectBuilder.options base)
         (num (Z.of_nat offset)) (num 500)) in
  view.heap Net s !! this = Some base ->
  types.skip (view.ViewSelectBuilder.options base) = Some (num (Z.of_nat start))
  \/ (types.skip (view.ViewSelectBuilder.options base) = None /\ start = 0%nat) ->
  (forall k n, (k < requests)%nat ->
     (request_rows (view.select_url (page (start + 500 * k)%nat)) n).1
     = inr (paging.slice rows (start + 500 * k))) ->
  exists batches g' s',
    view.drain Net request_rows (S requests) (view.selectAll this) s
    = (batches, Some table.Return, g', s')
    /\ concat batches = drop start rows
    /\ Forall (fun batch => (0 < length batch <= 500)%nat) batches
    /\ table.position g' = table.Finished
    /\ length (view.log Net s') = (length (view.log Net s) + requests)%nat.
Proof.
  intros requests page Hthis Hskip Hserves.
  destruct (pages_by_slices Net request_rows (page_url base) rows
              ((length rows - start) / 500) start (view.net Net s) eq_refl)
    as (batches & net' & urls & Hpages & Hconcat & Hurls & Hsizes).
  { intros k n Hk. apply Hserves. subst requests. lia. }
  destruct (view_drain_follows requests base (view.selectAll this) s
              (num (Z.of_nat start)) batches (Some table.Return) net' urls Hthis)
    as (g' & s' & Hdrain & Hfinished & _ & Hlog); [ | exact Hpages | ].
  { intros s0 Hthis0. rewrite (view_next _ s0 base Hthis0). simpl.
    replace (table.skip_or_zero (view.ViewSelectBuilder.options base))
      with (num (Z.of_nat start)); [ reflexivity | ].
    unfold table.skip_or_zero.
    destruct Hskip as [ -> | [-> ->] ]; [ | reflexivity ].
    simpl. destruct (decide (Qc_of_Z (Z.of_nat start) = Qc_of_Z 0)) as [ Hzero | Hpos ].
    - rewrite bool_decide_eq_true_2 by exact Hzero. simpl.
      unfold num. rewrite Hzero. reflexivity.
    - rewrite bool_decide_eq_false_2 by exact Hpos. reflexivity. }
  exists batches, g', s'. split; [ exact Hdrain | ].
  split; [ exact Hconcat | ]. split; [ exact Hsizes | ].
  split; [ apply (Hfinished table.Return eq_refl) | ].
  rewrite Hlog, length_app, Hurls. reflexivity.
Qed.

End view_properties.

Lemma view_selectAll_leaves_builder_unchanged_witness :
  view.heap unit
    (view.drain unit samples.holidays_backend 3 (view.selectAll 1%positive)
       samples.view_state).2 !! 1%positive
  = Some samples.view_builder.
Proof.
  pose (run := view.drain unit samples.holidays_backend 3 (view.selectAll 1%positive)
                 samples.view_state).
  destruct (view_selectAll_leaves_builder_unchanged unit samples.holidays_backend 3
              samples.view_state run.2 1%positive samples.view_builder
              run.1.1.1 run.1.1.2 run.1.2) as (Hbase & _).
  - reflexivity.
  - subst run. destruct (view.drain _ _ _ _ _) as [[[pages r] g] s]. reflexivity.
  - exact Hbase.
Defined.

Lemma view_selectAll_delivers_every_row_witness :
  exists batches g' s',
    view.drain unit samples.holidays_backend 3 (view.selectAll 1%positive)
      samples.view_state
    = (batches, Some table.Return, g', s')
    /\ concat batches = drop 0 samples.held
    /\ Forall (fun batch => (0 < length batch <= 500)%nat) batches
    /\ table.position g' = table.Finished
    /\ length (view.log unit s') = (length (view.log unit samples.view_state) + 2)%nat.
Proof.
  apply (view_selectAll_delivers_every_row unit samples.holidays_backend samples.held 0
           samples.view_state 1%positive samples.view_builder).
  - reflexivity.
  - right. split; reflexivity.
  - intros k n Hk. vm_compute in Hk.
    destruct k as [ | [ | k ] ]; [ reflexivity | reflexivity | lia ].
Defined.

Section view_requests.
Context `{Platform}.
Variable Net : Type.

Let state := view.state Net.


(** X16.  [limit] and [skip] of a view builder.  [limit] passes [NaN] and
    every finite number from 1 to 500, whole or not, and stores it as [top]
    unchanged; [skip] passes every number that is not below 0 and stores it.
    A call that passes returns the builder it was called on and changes that
    builder alone.  Every other number is refused with a plain [Error], and
    then nothing has changed. *)
Theorem view_paging_calls_validate (s : state) (this : positive)
    (b : view.ViewSelectBuilder.t) (n : number) :
  view.heap Net s !! this = Some b ->
  let stored (o : types.SelectOptions) : state :=
    view.with_heap Net s (<[this := view.with_options b o]> (view.heap Net s)) in
  (fluent.passes_limit n ->
     view.limit Net this n s
     = (inr this, stored (table.with_top (view.ViewSelectBuilder.options b) n)))
  /\ (~ fluent.passes_limit n ->
        exists message, view.limit Net this n s = (inl (JsError "Error" message), s))
  /\ (fluent.passes_skip n ->
        view.skip Net this n s
        = (inr this, stored (table.with_skip (view.ViewSelectBuilder.options b) n)))
  /\ (~ fluent.passes_skip n ->
        view.skip Net this n s
        = (inl (JsError "Error" "Skip must be non-negative"), s)).
Proof.
  intros Hthis stored. subst stored. cbv beta.
  assert (forall o,
            view.assign_options Net this o s
            = (inr tt,
               view.with_heap Net s (<[this := view.with_options b o]> (view.heap Net s))))
    as Hassign.
  { intros o. unfold view.assign_options, view.deref, bind, modify.
    rewrite Hthis. reflexivity. }
  split; [ | split; [ | split ] ].
  - intros Hpasses. unfold view.limit, view.deref, bind.
    rewrite (passes_limit_accepted n Hpasses), Hthis, Hassign. reflexivity.
  - intros Hfails. destruct (fails_limit_refused n Hfails) as [message Hrefused].
    exists message. unfold view.limit. rewrite Hrefused. reflexivity.
  - intros Hpasses. unfold view.skip, view.deref, bind.
    rewrite (proj1 (passes_skip_accepted n) Hpasses), Hthis, Hassign. reflexivity.
  - intros Hfails. unfold view.skip.
    destruct (num_lt n (num 0)) eqn:Hlt; [ reflexivity | ].
    exfalso. apply Hfails, passes_skip_accepted, Hlt.
Qed.

End view_requests.

Lemma view_paging_calls_validate_witness :
  view.limit unit 1%positive (num 100) samples.view_state
  = (inr 1%positive,
     view.with_heap unit samples.view_state
       (<[1%positive :=
            view.with_options samples.view_builder
              (table.with_top table.empty_options (num 100))]>
          (view.heap unit samples.view_state)))
  /\ (exists message,
        view.limit unit 1%positive (num 501) samples.view_state
        = (inl (JsError "Error" message), samples.view_state))
  /\ view.skip unit 1%positive (num (-1)) samples.view_state
     = (inl (JsError "Error" "Skip must be non-negative"), samples.view_state).
Proof.
  split; [ | split ].
  - apply (view_paging_calls_validate unit samples.view_state 1%positive
             samples.view_builder (num 100) eq_refl).
    split; vm_compute; discriminate.
  - destruct (view_paging_calls_validate unit samples.view_state 1%positive
                samples.view_builder (num 501) eq_refl) as (_ & Hrefused & _).
    apply Hrefused. intros [_ Hhigh]. vm_compute in Hhigh. apply Hhigh. reflexivity.
  - destruct (view_paging_calls_validate unit samples.view_state 1%positive
                samples.view_builder (num (-1)) eq_refl) as (_ & _ & _ & Hrefused).
    apply Hrefused. intros Hlow. vm_compute in Hlow. apply Hlow. reflexivity.
Defined.

(** ** Pagination at its edges *)

Section pagination_edges.
Context `{Platform}.
Variable Net : Type.
Variable request_rows : string -> M Net (list json).

(** X17.  A [skip] of [NaN].  [skip(NaN)] passes the check and is stored.
    [execute] then sends it as it is, as the [skip] parameter of the
    request, while [selectAll] reads it as 0: its pagination is the one that
    starts at offset 0, page by page and to the same end. *)
Theorem selectAll_reads_NaN_skip_as_zero (rounds : nat) (s : table.state Net)
    (this : positive) (base : table.SelectBuilder.t)
    (pages : list (list json)) (r : option table.step) (net' : Net)
    (urls : list string) :
  table.heap Net s !! this = Some base ->
  types.skip (table.SelectBuilder.options base) = Some NaN ->
  let page (offset : number) : string :=
    table.select_url
      (table.with_options base
         (table.spread_paging (table.SelectBuilder.options base) offset (num 500))) in
  paging.pages_by Net request_rows page rounds (num 0) (table.net Net s)
  = (pages, r, net', urls) ->
  (exists g' s',
     table.drain Net request_rows
       (match r with Some _ => S rounds | None => rounds end)
       (table.selectAll this) s
     = (pages, r, g', s')
     /\ table.net Net s' = net'
     /\ table.log Net s' = table.log Net s ++ urls)
  /\ (exists pairs,
        spec.parse_query (table.buildQueryParams (table.SelectBuilder.options base))
        = Some (pairs ++ [("skip"%string, Number_toString NaN)]))
  /\ table.skip Net this NaN s
     = (inr this,
        table.with_heap Net s
          (<[this := table.with_options base
                       (table.with_skip (table.SelectBuilder.options base) NaN)]>
             (table.heap Net s))).
Proof.
  intros Hthis Hskip page Hpages. split; [ | split ].
  - subst page. change (fun offset => table.select_url _) with (spec.page_url base)
      in Hpages.
    rewrite <- paginate_pages_by in Hpages.
    destruct (drain_follows Net request_rows rounds base (table.selectAll this) s
                (num 0) pages r net' urls Hthis) as (g' & s' & Hdrain & _ & Hnet & Hlog);
      [ | exact Hpages | ].
    + intros s0 Hthis0. rewrite (next_cases Net request_rows _ s0 base Hthis0). simpl.
      unfold table.skip_or_zero. rewrite Hskip. reflexivity.
    + exists g', s'. repeat split; assumption.
  - destruct (buildQueryParams_pairs (table.SelectBuilder.options base))
      as (params & -> & Hpairs).
    rewrite parse_buildQueryString, Hpairs. unfold spec.intent_pairs. rewrite Hskip.
    eexists. rewrite !app_assoc. reflexivity.
  - apply skip_accepts; [ exact Hthis | reflexivity ].
Qed.

(** A backend that answers every request with the same full page keeps the
    shared loop going for as long as it is run. *)
Lemma pages_by_full_pages (url_at : number -> string) (page : list json) :
  length page = 500%nat ->
  (forall url n, (request_rows url n).1 = inr page) ->
  forall (rounds : nat) (offset : number) (net : Net),
    exists net' urls,
      paging.pages_by Net request_rows url_at rounds offset net
      = (repeat page rounds, None, net', urls)
      /\ length urls = rounds.
Proof.
  intros Hlen Hfull. induction rounds as [ | rounds IH ]; intros offset net.
  - exists net, []. split; reflexivity.
  - destruct (request_rows (url_at offset) net) as [answer net1] eqn:Hanswer.
    pose proof (Hfull (url_at offset) net) as Hpage. rewrite Hanswer in Hpage.
    simpl in Hpage. subst answer.
    rewrite (pages_by_full Net request_rows url_at rounds offset net net1 page
               Hanswer Hlen).
    destruct (IH (num_add offset (num (Z.of_nat table.batchSize))) net1)
      as (net' & urls & -> & Hurls).
    exists net', (url_at offset :: urls). split; [ reflexivity | ].
    simpl. rewrite Hurls. reflexivity.
Qed.

(** X18.  Neither [selectAll] has a cap on the number of pages.  Against a
    backend that answers every request with a full page of 500 rows,
    whatever [skip] it is asked for, the generator never ends by itself:
    however many batches are pulled, each pull sends one more request and
    yields one more batch. *)
Theorem selectAll_has_no_page_cap (page : list json) (pulls : nat)
    (s : table.state Net) (this : positive) (base : table.SelectBuilder.t)
    (vs : view.state Net) (vthis : positive) (vbase : view.ViewSelectBuilder.t) :
  length page = 500%nat ->
  (forall url n, (request_rows url n).1 = inr page) ->
  table.heap Net s !! this = Some base ->
  view.heap Net vs !! vthis = Some vbase ->
  (exists g' s',
     table.drain Net request_rows pulls (table.selectAll this) s
     = (repeat page pulls, None, g', s')
     /\ length (table.log Net s') = (length (table.log Net s) + pulls)%nat)
  /\ (exists g' s',
        view.drain Net request_rows pulls (view.selectAll vthis) vs
        = (repeat page pulls, None, g', s')
        /\ length (view.log Net s') = (length (view.log Net vs) + pulls)%nat).
Proof.
  intros Hlen Hfull Hthis Hvthis. split.
  - destruct (pages_by_full_pages (spec.page_url base) page Hlen Hfull pulls
                (table.skip_or_zero (table.SelectBuilder.options base))
                (table.net Net s)) as (net' & urls & Hpages & Hurls).
    rewrite <- paginate_pages_by in Hpages.
    destruct (drain_follows Net request_rows pulls base (table.selectAll this) s
                (table.skip_or_zero (table.SelectBuilder.options base))
                (repeat page pulls) None net' urls Hthis)
      as (g' & s' & Hdrain & _ & _ & Hlog);
      [ | exact Hpages | ].
    + intros s0 Hthis0. rewrite (next_cases Net request_rows _ s0 base Hthis0).
      reflexivity.
    + exists g', s'. split; [ exact Hdrain | ].
      rewrite Hlog, length_app, Hurls. reflexivity.
  - destruct (pages_by_full_pages
                (fun offset =>
                   view.select_url
                     (view.with_options vbase
                        (table.spread_paging (view.ViewSelectBuilder.options vbase)
                           offset (num 500)))) page Hlen Hfull pulls
                (table.skip_or_zero (view.ViewSelectBuilder.options vbase))
                (view.net Net vs)) as (net' & urls & Hpages & Hurls).
    destruct (view_drain_follows Net request_rows pulls vbase (view.selectAll vthis) vs
                (table.skip_or_zero (view.ViewSelectBuilder.options vbase))
                (repeat page pulls) None net' urls Hvthis)
      as (g' & s' & Hdrain & _ & _ & Hlog);
      [ | exact Hpages | ].
    + intros s0 Hthis0. rewrite (view_next Net request_rows _ s0 vbase Hthis0).
      reflexivity.
    + exists g', s'. split; [ exact Hdrain | ].
      rewrite Hlog, length_app, Hurls. reflexivity.
Qed.

(** X19.  The view's [selectAll], pull by pull.  The batches pulled from the
    generator are the pages of the loop: requests for the view with [top =
    500] and [skip = offset], the offset starting at the builder's [skip] (0
    without one) and growing by 500 after each full page; an empty page ends
    the sequence without a batch, a shorter page ends it after its batch,
    and a failed request ends it with that failure, after the batches
    delivered before it.  When the loop ends within [rounds] requests,
    [rounds + 1] pulls give its pages and its outcome, and the generator is
    finished; the URLs requested are those of the loop, in order. *)
Theorem view_selectAll_runs_the_loop (rounds : nat) (s : view.state Net)
    (this : positive) (base : view.ViewSelectBuilder.t)
    (pages : list (list json)) (r : option table.step) (net' : Net)
    (urls : list string) :
  view.heap Net s !! this = Some base ->
  types.skip (view.ViewSelectBuilder.options base) <> Some NaN ->
  let page (offset : number) : string :=
    view.select_url
      (view.with_options base
         (table.spread_paging (view.ViewSelectBuilder.options base) offset (num 500))) in
  paging.pages_by Net request_rows page rounds
    (default (num 0) (types.skip (view.ViewSelectBuilder.options base)))
    (view.net Net s)
  = (pages, r, net', urls) ->
  exists g' s',
    view.drain Net request_rows
      (match r with Some _ => S rounds | None => rounds end)
      (view.selectAll this) s
    = (pages, r, g', s')
    /\ (forall outcome, r = Some outcome -> table.position g' = table.Finished)
    /\ view.net Net s' = net'
    /\ view.log Net s' = view.log Net s ++ urls.
Proof.
  intros Hthis Hskip page Hpages.
  apply (view_drain_follows Net request_rows rounds base (view.selectAll this) s
           (default (num 0) (types.skip (view.ViewSelectBuilder.options base)))
           pages r net' urls Hthis); [ | exact Hpages ].
  intros s0 Hthis0. rewrite (view_next Net request_rows _ s0 base Hthis0). simpl.
  rewrite (skip_or_zero_start _ Hskip). reflexivity.
Qed.

End pagination_edges.

Lemma selectAll_reads_NaN_skip_as_zero_witness :
  exists g' s',
    table.drain unit toy.no_rows 2 (table.selectAll 1%positive) samples.drifting_state
    = ([], Some table.Return, g', s')
    /\ table.net unit s' = tt
    /\ table.log unit s'
       = table.log unit samples.drifting_state
         ++ ["https://www.teamdesk.net/secure/api/v2/15331/secret/Orders/select.json?top=500&skip=0"%string].
Proof.
  apply (selectAll_reads_NaN_skip_as_zero unit toy.no_rows 1 samples.drifting_state
           1%positive samples.drifting_builder [] (Some table.Return) tt
           ["https://www.teamdesk.net/secure/api/v2/15331/secret/Orders/select.json?top=500&skip=0"%string]);
    reflexivity.
Defined.

Lemma selectAll_has_no_page_cap_witness :
  exists g' s',
    table.drain unit samples.always_full 4 (table.selectAll 1%positive) toy.state0
    = (repeat (toy.rows 500) 4, None, g', s')
    /\ length (table.log unit s') = (length (table.log unit toy.state0) + 4)%nat.
Proof.
  apply (selectAll_has_no_page_cap unit samples.always_full (toy.rows 500) 4
           toy.state0 1%positive toy.builder0
           samples.view_state 1%positive samples.view_builder).
  - reflexivity.
  - intros url n. reflexivity.
  - reflexivity.
  - reflexivity.
Defined.

Lemma view_selectAll_runs_the_loop_witness :
  exists g' s',
    view.drain unit samples.holidays_backend 3 (view.selectAll 1%positive)
      samples.view_state
    = ([paging.slice samples.held 0; paging.slice samples.held 500],
       Some table.Return, g', s')
    /\ (forall outcome, Some table.Return = Some outcome ->
          table.position g' = table.Finished)
    /\ view.net unit s' = tt
    /\ view.log unit s'
       = view.log unit samples.view_state
         ++ [samples.holidays_page 0; samples.holidays_page 500].
Proof.
  apply (view_selectAll_runs_the_loop unit samples.holidays_backend 2
           samples.view_state 1%positive samples.view_builder
           [paging.slice samples.held 0; paging.slice samples.held 500]
           (Some table.Return) tt
           [samples.holidays_page 0; samples.holidays_page 500]).
  - reflexivity.
  - discriminate.
  - vm_compute. reflexivity.
Defined.

(** ** The cache on a disk that keeps what is written *)



Section cache_more.
Context `{Platform}.
Context {W : Type} `{cache.Deno W}.


(** What [loadFromCache] answers is a function of what the read gives. *)
Lemma loadFromCache_value (cacheDir key : string) (w : W) :
  (cache.loadFromCache cacheDir key w).1
  = inr match (cache.readTextFile (cache.file_path cacheDir key) w).1 with
        | inr content => default JNull (JSON_parse content)
        | inl _ => JNull
        end.
Proof.
  unfold cache.loadFromCache, try_catch, bind, ret, throw.
  destruct (cache.readTextFile _ w) as [[e | content] w']; [ reflexivity | ].
  simpl. destruct (JSON_parse content); reflexivity.
Qed.

Lemma saveToCache_written (cacheDir key : string) (data : json) (w w' : W) :
  cache.saveToCache cacheDir key data w = (inr tt, w') ->
  exists w0,
    cache.mkdir cacheDir w = (inr tt, w0)
    /\ cache.writeTextFile (cache.file_path cacheDir key)
         (JSON_stringify_indented data) w0 = (inr tt, w').
Proof.
  unfold cache.saveToCache, bind.
  destruct (cache.mkdir cacheDir w) as [[e | []] w0]; [ discriminate | ].
  intros Hwrite. exists w0. split; [ reflexivity | exact Hwrite ].
Qed.

(** X20.  A snapshot that was saved is the snapshot that is loaded: on a
    disk where a file reads back as written, and for data that [JSON.parse]
    reads back from its [JSON.stringify] text, [loadFromCache] after a
    [saveToCache] that returned gives the saved data. *)
Theorem saved_snapshot_is_loaded (cacheDir key : string) (data : json) (w w' : W) :
  disk.reads_back ->
  JSON_parse (JSON_stringify_indented data) = Some data ->
  cache.saveToCache cacheDir key data w = (inr tt, w') ->
  (cache.loadFromCache cacheDir key w').1 = inr data.
Proof.
  intros Hdisk Hjson Hsave.
  destruct (saveToCache_written _ _ _ _ _ Hsave) as (w0 & _ & Hwrite).
  rewrite loadFromCache_value, (Hdisk _ _ _ _ Hwrite), Hjson. reflexivity.
Qed.


(** X22.  What one call fetched is what the next call falls back to.  When
    [fetchWithCache] returned fresh data ([fromCache: false]) and the next
    fetcher fails, the next call returns that same data with [fromCache:
    true], on a disk where a file reads back as written, for data that
    [JSON.parse] reads back from its text and that is truthy. *)
Theorem fresh_data_serves_the_next_failure (cacheDir key : string)
    (fetcher later : M W json) (first : cache.CacheResult) (error : exn) (w w1 : W) :
  disk.reads_back ->
  cache.fetchWithCache cacheDir key fetcher w = (inr first, w1) ->
  cache.fromCache first = false ->
  JSON_parse (JSON_stringify_indented (cache.data first)) = Some (cache.data first) ->
  truthy (cache.data first) = true ->
  later w1 = (inl error, w1) ->
  exists age w2,
    cache.fetchWithCache cacheDir key later w1
    = (inr {| cache.data := cache.data first; cache.fromCache := true;
              cache.cacheAge := age |}, w2).
Proof.
  intros Hdisk Hfirst Hfresh Hjson Htruthy Hlater.
  assert (cache.saveToCache cacheDir key (cache.data first) (fetcher w).2 = (inr tt, w1))
    as Hsave.
  { revert Hfirst. unfold cache.fetchWithCache, try_catch, bind, ret.
    destruct (fetcher w) as [[e | fetched] wa]; simpl.
    - unfold cache.fallback, bind, ret, throw.
      destruct (cache.loadFromCache cacheDir key wa) as [[e1 | cached] wb];
        [ discriminate | ].
      destruct (truthy cached); [ | discriminate ].
      destruct (cache.getCacheInfo cacheDir key wb) as [[e2 | info] wc];
        [ discriminate | ].
      intros [= <- _]. discriminate.
    - destruct (cache.saveToCache cacheDir key fetched wa) as [[e | []] wb] eqn:Hsaved.
      + unfold cache.fallback, bind, ret, throw.
        destruct (cache.loadFromCache cacheDir key wb) as [[e1 | cached] wc];
          [ discriminate | ].
        destruct (truthy cached); [ | discriminate ].
        destruct (cache.getCacheInfo cacheDir key wc) as [[e2 | info] wd];
          [ discriminate | ].
        intros [= <- _]. discriminate.
      + intros [= <- <-]. exact Hsaved. }
  assert ((cache.loadFromCache cacheDir key w1).1 = inr (cache.data first)) as Hload.
  { destruct (saveToCache_written _ _ _ _ _ Hsave) as (w0 & _ & Hwrite).
    rewrite loadFromCache_value, (Hdisk _ _ _ _ Hwrite), Hjson. reflexivity. }
  rewrite (fetchWithCache_failed_fetch cacheDir key later error w1 w1 Hlater).
  destruct (cache.loadFromCache cacheDir key w1) as [cached w2] eqn:Hcached.
  simpl in Hload. subst cached.
  destruct (getCacheInfo_total cacheDir key w2) as (info & w3 & Hinfo).
  exists (cache.ageInMinutes <$> info), w3.
  apply (fallback_truthy cacheDir key error (cache.data first) info w1 w2 w3);
    assumption.
Qed.

(** X23.  The readers of the cache never throw, whatever the disk does:
    [loadFromCache], [getCacheInfo] and [clearCache] always return.
    [loadFromCache] answers [null] when the file cannot be read,
    [getCacheInfo] answers [null] exactly when [stat] fails, and for a file
    without a modification time it takes the clock for it. *)
Theorem cache_readers_never_throw (cacheDir key : string) (w : W) :
  let path := cache.file_path cacheDir key in
  (exists v w', cache.loadFromCache cacheDir key w = (inr v, w'))
  /\ (exists info w', cache.getCacheInfo cacheDir key w = (inr info, w'))
  /\ (exists w', cache.clearCache cacheDir w = (inr tt, w'))
  /\ (forall e, (cache.readTextFile path w).1 = inl e ->
        (cache.loadFromCache cacheDir key w).1 = inr JNull)
  /\ ((cache.getCacheInfo cacheDir key w).1 = inr None
      <-> exists e, (cache.stat path w).1 = inl e)
  /\ (forall w1 t1 w2 t2 w3,
        cache.stat path w = (inr {| cache.mtime := None |}, w1) ->
        cache.Date_now w1 = (t1, w2) ->
        cache.Date_now w2 = (t2, w3) ->
        cache.getCacheInfo cacheDir key w
        = (inr (Some {| cache.ageInMinutes := cache.minutes (t2 - t1);
                        cache.modifiedAt := t1 |}), w3)).
Proof.
  intros path. subst path.
  split; [ apply loadFromCache_total | ].
  split; [ apply getCacheInfo_total | ].
  split.
  { unfold cache.clearCache, try_catch, ret.
    destruct (cache.remove cacheDir w) as [[e | []] w']; eauto. }
  split.
  { intros e He. rewrite loadFromCache_value, He. reflexivity. }
  split.
  - unfold cache.getCacheInfo, try_catch, bind, ret.
    destruct (cache.stat _ w) as [[e | st] w1]; simpl.
    + split; [ eauto | reflexivity ].
    + split; [ | intros [e [=]] ].
      destruct (cache.mtime st); [ | destruct (cache.Date_now w1) ];
        destruct (cache.Date_now _); discriminate.
  - intros w1 t1 w2 t2 w3 Hstat Ht1 Ht2.
    unfold cache.getCacheInfo, try_catch, bind, ret.
    rewrite Hstat. simpl. rewrite Ht1, Ht2. reflexivity.
Qed.

End cache_more.

(** The disk of the examples keeps what is written. *)
Lemma toy_disk_reads_back : @disk.reads_back toy.disk toy.deno.
Proof.
  intros path text w w'. simpl. unfold toy.writeTextFile, toy.readTextFile.
  destruct (toy.writable w); [ | discriminate ].
  intros [= <-]. simpl. rewrite lookup_insert_eq. reflexivity.
Qed.




Lemma saved_snapshot_is_loaded_witness :
  (cache.loadFromCache "cache" "orders" samples.saved_disk).1 = inr (JArr []).
Proof.
  apply (saved_snapshot_is_loaded "cache" "orders" (JArr []) (toy.empty_disk true)
           samples.saved_disk toy_disk_reads_back).
  - reflexivity.
  - reflexivity.
Defined.


Lemma fresh_data_serves_the_next_failure_witness :
  exists age w2,
    cache.fetchWithCache "cache" "orders" (throw toy.offline) samples.saved_disk
    = (inr {| cache.data := JArr []; cache.fromCache := true; cache.cacheAge := age |},
       w2).
Proof.
  apply (fresh_data_serves_the_next_failure "cache" "orders" (ret (JArr []))
           (throw toy.offline)
           {| cache.data := JArr []; cache.fromCache := false; cache.cacheAge := None |}
           toy.offline (toy.empty_disk true) samples.saved_disk toy_disk_reads_back);
    reflexivity.
Defined.
